(** * optionflow: the strategy recommendation and scoring core

    A shallow embedding of the numeric core of the repository:

    - [src/lib/taScore.js] (second half, the volatility module):
      [calculateVolatilityRange], [calculateProbabilityInRange], [normalCDF];
    - [src/lib/enhancedStrategyEngine.js]: the six estimated-mode generators,
      [calculateScore] and [generateAllStrategies];
    - [src/lib/scoringSystem.js]: [calculateStrategyScore] and
      [scoreAndRankStrategies];
    - the real-price aggregator (V4): [findOptionByStrike],
      [generateStrategiesWithRealPrices], [generateFallbackStrategy],
      [calcScore];
    - the baseline strategy recommender: [generateStrategies] with its three
      generators, [roundToStrike], [getWingWidth] and [estimateCredit].

    A JavaScript [number] is modelled by [number F]: the finite values are the
    elements of an ordered field [F] with exact arithmetic, next to [NaN] and
    the two infinities.  The engines are instantiated at [Q], so that every
    definition computes; the volatility module needs [Math.sqrt] and
    [Math.exp] and is instantiated at [R], and so is the baseline recommender
    that calls it.  Rounding error, overflow and the sign of zero are not
    modelled: the source computes in binary64, and where it rounds a result
    ([Math.round], [Math.ceil]) or compares it with a threshold, the last
    bit of the double decides which way a tie falls.  The theorems about
    such a figure therefore bound it by an interval around the exact
    quantity, and those about such a threshold leave a margin on both
    sides, so that they hold whichever way the tie falls; the margins are
    far wider than the rounding error of a double on amounts of the size of
    a market.  The lemmas on the way compute in the model and are exact.

    Presentation-only fields of a candidate ([name], [reasoning], [prices])
    are left out of the records. *)

From Stdlib Require Import ZArith QArith Qround Qabs Qminmax Reals Psatz Lia.
From Stdlib Require Import List String Bool Permutation Sorted.
From Stdlib Require Import ROrderedType Zfloor.
Import ListNotations.

(* ================================================================== *)
(** ** JavaScript numbers                                              *)
(* ================================================================== *)

Module Js.

(** The finite part of a number: an ordered field with a floor. *)
Class Field (F : Type) := {
  fzero : F;
  fadd : F -> F -> F;
  fsub : F -> F -> F;
  fmul : F -> F -> F;
  fdiv : F -> F -> F;
  fopp : F -> F;
  fcmp : F -> F -> comparison;
  ffloor : F -> Z;
  fofZ : Z -> F
}.

Inductive number (F : Type) : Type :=
  | NaN
  | NInf
  | Fin (x : F)
  | PInf.
Arguments NaN {F}.
Arguments NInf {F}.
Arguments Fin {F} x.
Arguments PInf {F}.

Section Operations.
Context {F : Type} `{Field F}.

(** Sign of a finite value: [Lt] negative, [Eq] zero, [Gt] positive. *)
Definition sgn (x : F) : comparison := fcmp x fzero.

Definition inf_of (c : comparison) : number F :=
  match c with Lt => NInf | Eq => NaN | Gt => PInf end.

(** Unary minus. *)
Definition neg (a : number F) : number F :=
  match a with
  | NaN => NaN
  | NInf => PInf
  | Fin x => Fin (fopp x)
  | PInf => NInf
  end.

(** [a + b] *)
Definition add (a b : number F) : number F :=
  match a, b with
  | NaN, _ | _, NaN => NaN
  | Fin x, Fin y => Fin (fadd x y)
  | PInf, NInf | NInf, PInf => NaN
  | PInf, _ | _, PInf => PInf
  | NInf, _ | _, NInf => NInf
  end.

(** [a - b] *)
Definition sub (a b : number F) : number F :=
  match a, b with
  | Fin x, Fin y => Fin (fsub x y)
  | _, _ => add a (neg b)
  end.

(** [a * b]; zero times infinity is [NaN]. *)
Definition mul (a b : number F) : number F :=
  match a, b with
  | NaN, _ | _, NaN => NaN
  | Fin x, Fin y => Fin (fmul x y)
  | Fin x, PInf | PInf, Fin x => inf_of (sgn x)
  | Fin x, NInf | NInf, Fin x => inf_of (CompOpp (sgn x))
  | PInf, PInf | NInf, NInf => PInf
  | PInf, NInf | NInf, PInf => NInf
  end.

(** [a / b]; a finite zero divisor is read as [+0]. *)
Definition div (a b : number F) : number F :=
  match a, b with
  | NaN, _ | _, NaN => NaN
  | Fin x, Fin y =>
      match sgn y with
      | Eq => inf_of (sgn x)
      | _ => Fin (fdiv x y)
      end
  | Fin _, PInf | Fin _, NInf => Fin fzero
  | PInf, Fin y => match sgn y with Lt => NInf | _ => PInf end
  | NInf, Fin y => match sgn y with Lt => PInf | _ => NInf end
  | _, _ => NaN
  end.

(** The relational operators; every comparison with [NaN] is false. *)
Definition compare (a b : number F) : option comparison :=
  match a, b with
  | NaN, _ | _, NaN => None
  | NInf, NInf | PInf, PInf => Some Eq
  | NInf, _ | _, PInf => Some Lt
  | PInf, _ | _, NInf => Some Gt
  | Fin x, Fin y => Some (fcmp x y)
  end.

Definition ltb (a b : number F) : bool :=
  match compare a b with Some Lt => true | _ => false end.
Definition leb (a b : number F) : bool :=
  match compare a b with Some Lt | Some Eq => true | _ => false end.
Definition gtb (a b : number F) : bool := ltb b a.
Definition geb (a b : number F) : bool := leb b a.

(** [Math.min], [Math.max], [Math.abs] *)
Definition min (a b : number F) : number F :=
  match a, b with
  | NaN, _ | _, NaN => NaN
  | _, _ => if ltb b a then b else a
  end.

Definition max (a b : number F) : number F :=
  match a, b with
  | NaN, _ | _, NaN => NaN
  | _, _ => if ltb a b then b else a
  end.

Definition abs (a : number F) : number F :=
  match a with
  | NaN => NaN
  | NInf | PInf => PInf
  | Fin x => match sgn x with Lt => Fin (fopp x) | _ => Fin x end
  end.

(** [Math.ceil] and [Math.round] (a half rounds up). *)
Definition half : F := fdiv (fofZ 1) (fofZ 2).

Definition ceil (a : number F) : number F :=
  match a with Fin x => Fin (fofZ (- ffloor (fopp x))) | _ => a end.

Definition round (a : number F) : number F :=
  match a with Fin x => Fin (fofZ (ffloor (fadd x half))) | _ => a end.

(** Truthiness of a number: [0] and [NaN] are falsy. *)
Definition truthy (a : number F) : bool :=
  match a with
  | NaN => false
  | Fin x => match sgn x with Eq => false | _ => true end
  | NInf | PInf => true
  end.

Definition is_finite (a : number F) : Prop := exists x, a = Fin x.
Definition is_nan (a : number F) : bool :=
  match a with NaN => true | _ => false end.

End Operations.

(** The number a possibly absent property denotes in arithmetic:
    [undefined] is [NaN]. *)
Definition of_option {F} (o : option (number F)) : number F :=
  match o with Some a => a | None => NaN end.

End Js.

Import Js.

#[global] Instance QField : Field Q := {
  fzero := 0%Q;
  fadd := Qplus;
  fsub := Qminus;
  fmul := Qmult;
  fdiv := Qdiv;
  fopp := Qopp;
  fcmp := Qcompare;
  ffloor := Qfloor;
  fofZ := inject_Z
}.

#[global] Instance RField : Field R := {
  fzero := 0%R;
  fadd := Rplus;
  fsub := Rminus;
  fmul := Rmult;
  fdiv := Rdiv;
  fopp := Ropp;
  fcmp := Rcompare;
  ffloor := Zfloor;
  fofZ := IZR
}.

Declare Scope js_scope.
Delimit Scope js_scope with js.
Infix "+" := Js.add : js_scope.
Infix "-" := Js.sub : js_scope.
Infix "*" := Js.mul : js_scope.
Infix "/" := Js.div : js_scope.
Notation "- a" := (Js.neg a) : js_scope.
Infix "<?" := Js.ltb : js_scope.
Infix "<=?" := Js.leb : js_scope.
Infix ">?" := Js.gtb : js_scope.
Infix ">=?" := Js.geb : js_scope.

(** Numbers of the engine (exact rationals) and of the volatility module. *)
Definition qnum : Type := number Q.
Definition rnum : Type := number R.

(* ================================================================== *)
(** ** The volatility module ([src/lib/taScore.js], second half)       *)
(* ================================================================== *)

Module Volatility.

(** An argument as a caller passes it: a number, or nothing
    ([undefined] or [null]). *)
Inductive value : Type :=
  | Missing
  | Num (n : rnum).

(** [!v] *)
Definition falsy (v : value) : bool :=
  match v with
  | Missing => true
  | Num n => negb (truthy n)
  end.

(** The number an argument denotes in arithmetic. *)
Definition to_number (v : value) : rnum :=
  match v with
  | Missing => NaN
  | Num n => n
  end.

(** [Math.sqrt] *)
Definition sqrt (a : rnum) : rnum :=
  match a with
  | NaN | NInf => NaN
  | PInf => PInf
  | Fin x => match sgn x with Lt => NaN | _ => Fin (R_sqrt.sqrt x) end
  end.

(** [Math.exp] *)
Definition exp (a : rnum) : rnum :=
  match a with
  | NaN => NaN
  | NInf => Fin 0%R
  | PInf => PInf
  | Fin x => Fin (Rtrigo_def.exp x)
  end.

Record SigmaBand : Type := mkSigmaBand {
  upper : rnum;
  lower : rnum;
  move : rnum;
  percent : rnum;
  probability : rnum
}.

Record VolatilityRange : Type := mkVolatilityRange {
  currentPrice : rnum;
  iv : rnum;
  dte : rnum;
  oneSigma : SigmaBand;
  twoSigma : SigmaBand
}.

(** [Math.round(x * 100) / 100] *)
Definition round2 (x : rnum) : rnum :=
  (round (x * Fin 100%R) / Fin 100%R)%js.

(** [calculateVolatilityRange(currentPrice, iv, dte)]; [None] is [null].
    The [interpretation] string of the result is left out. *)
Definition calculateVolatilityRange (currentPrice iv dte : value)
  : option VolatilityRange :=
  if falsy currentPrice || falsy iv || falsy dte then None
  else
    let currentPrice := to_number currentPrice in
    let iv := to_number iv in
    let dte := to_number dte in
    let timeFactor := sqrt (dte / Fin 365%R)%js in
    let oneSigmaMove := (currentPrice * iv * timeFactor)%js in
    let oneSigmaUpper := (currentPrice + oneSigmaMove)%js in
    let oneSigmaLower := (currentPrice - oneSigmaMove)%js in
    let twoSigmaMove := (oneSigmaMove * Fin 2%R)%js in
    let twoSigmaUpper := (currentPrice + twoSigmaMove)%js in
    let twoSigmaLower := (currentPrice - twoSigmaMove)%js in
    let oneSigmaPercent := (oneSigmaMove / currentPrice * Fin 100%R)%js in
    let twoSigmaPercent := (twoSigmaMove / currentPrice * Fin 100%R)%js in
    Some {|
      currentPrice := currentPrice;
      iv := iv;
      dte := dte;
      oneSigma := {|
        upper := round2 oneSigmaUpper;
        lower := round2 oneSigmaLower;
        move := round2 oneSigmaMove;
        percent := round2 oneSigmaPercent;
        probability := Fin 68.2%R
  |};
      twoSigma := {|
        upper := round2 twoSigmaUpper;
        lower := round2 twoSigmaLower;
        move := round2 twoSigmaMove;
        percent := round2 twoSigmaPercent;
        probability := Fin 95.4%R
  |}
    |}.

(** [normalCDF(z)]: the fixed-coefficient approximation of the standard
    normal distribution function. *)
Definition normalCDF (z : rnum) : rnum :=
  let t := (Fin 1%R / (Fin 1%R + Fin 0.2316419%R * abs z))%js in
  let d := (Fin 0.3989423%R * exp (- z * z / Fin 2%R))%js in
  let prob :=
    (d * t * (Fin 0.3193815%R + t * (Fin (-0.3565638)%R + t *
       (Fin 1.781478%R + t * (Fin (-1.821256)%R + t * Fin 1.330274%R)))))%js in
  if (z >? Fin 0%R)%js then (Fin 1%R - prob)%js else prob.

(** [calculateProbabilityInRange(currentPrice, lowerBound, upperBound, iv, dte)];
    [None] is [null]. *)
Definition calculateProbabilityInRange
  (currentPrice lowerBound upperBound iv dte : value) : option rnum :=
  if falsy currentPrice || falsy lowerBound || falsy upperBound
     || falsy iv || falsy dte
  then None
  else
    let currentPrice := to_number currentPrice in
    let lowerBound := to_number lowerBound in
    let upperBound := to_number upperBound in
    let iv := to_number iv in
    let dte := to_number dte in
    let sigma := (currentPrice * iv * sqrt (dte / Fin 365%R))%js in
    let zLower := ((lowerBound - currentPrice) / sigma)%js in
    let zUpper := ((upperBound - currentPrice) / sigma)%js in
    let probLower := normalCDF zLower in
    let probUpper := normalCDF zUpper in
    let probability := (probUpper - probLower)%js in
    Some (Js.max (Fin 0%R) (Js.min (Fin 1%R) probability)).

End Volatility.

(* ================================================================== *)
(** ** The data model shared by the strategy engines                   *)
(* ================================================================== *)

(** [taScore.trend], and the [direction] of a candidate. *)
Inductive Trend : Type := bullish | bearish | neutral.

(** [gexData.gamma_environment] *)
Inductive GammaEnvironment : Type := positive | negative | gamma_neutral.

(** The [type] tag of a candidate; [credit_spread] is the tag the baseline
    engine and the scoring system use for the vertical spread. *)
Inductive StrategyType : Type :=
  | iron_condor
  | vertical_spread
  | butterfly
  | cash_secured_put
  | calendar_spread
  | diagonal_spread
  | credit_spread.

(** [strategyType]: ['seller'] or ['buyer']. *)
Inductive Side : Type := seller | buyer.

(** The tier markers: the three medals and the generic chart marker. *)
Inductive Medal : Type := gold | silver | bronze | chart.

Definition Trend_eqb (a b : Trend) : bool :=
  match a, b with
  | bullish, bullish | bearish, bearish | neutral, neutral => true
  | _, _ => false
  end.

Definition StrategyType_eqb (a b : StrategyType) : bool :=
  match a, b with
  | iron_condor, iron_condor
  | vertical_spread, vertical_spread
  | butterfly, butterfly
  | cash_secured_put, cash_secured_put
  | calendar_spread, calendar_spread
  | diagonal_spread, diagonal_spread
  | credit_spread, credit_spread => true
  | _, _ => false
  end.

Module IvRank.
Record t : Type := mk { ivRank : qnum }.
End IvRank.

Module Ta.
Record t : Type := mk { score : qnum; trend : Trend }.
End Ta.

Module Gex.
Record t : Type := mk {
  zero_gamma : qnum;
  gamma_environment : option GammaEnvironment;
  available : bool
}.
End Gex.

Module Earnings.
Record t : Type := mk { hasEarningsNear : bool }.
End Earnings.

(** [gexData.gamma_environment === env] *)
Definition gamma_is (g : Gex.t) (env : GammaEnvironment) : bool :=
  match Gex.gamma_environment g, env with
  | Some positive, positive
  | Some negative, negative
  | Some gamma_neutral, gamma_neutral => true
  | _, _ => false
  end.

(** A strategy candidate.  The properties a generator does not set are
    [None] ([undefined]). *)
Record Strategy : Type := mkStrategy {
  type : StrategyType;
  direction : option Trend;
  strikes : list (string * qnum);
  contracts : qnum;
  netCredit : option qnum;
  netDebit : option qnum;
  maxProfit : option qnum;
  maxRisk : qnum;
  winRate : qnum;
  roc : qnum;
  strategyType : option Side;
  usingRealPrices : option bool;
  score : option qnum;
  rank : option nat;
  medal : option Medal
}.

Definition set_score (s : Strategy) (x : qnum) : Strategy :=
  {| type := type s; direction := direction s; strikes := strikes s;
     contracts := contracts s; netCredit := netCredit s;
     netDebit := netDebit s; maxProfit := maxProfit s; maxRisk := maxRisk s;
     winRate := winRate s; roc := roc s; strategyType := strategyType s;
     usingRealPrices := usingRealPrices s;
     score := Some x; rank := rank s; medal := medal s |}.

Definition set_rank (s : Strategy) (r : nat) (m : Medal) : Strategy :=
  {| type := type s; direction := direction s; strikes := strikes s;
     contracts := contracts s; netCredit := netCredit s;
     netDebit := netDebit s; maxProfit := maxProfit s; maxRisk := maxRisk s;
     winRate := winRate s; roc := roc s; strategyType := strategyType s;
     usingRealPrices := usingRealPrices s;
     score := score s; rank := Some r; medal := Some m |}.

(* ================================================================== *)
(** ** The ranker                                                      *)
(* ================================================================== *)

(** The three closing statements of [generateAllStrategies] and of
    [generateStrategiesWithRealPrices]:
    [sort((a, b) => b.score - a.score)], the [forEach] that writes [rank] and
    [medal], and [slice(0, 3)]. *)
Module Ranker.

(** [(a, b) => b.score - a.score] *)
Definition comparator (a b : Strategy) : qnum :=
  (of_option (score b) - of_option (score a))%js.

(** [Array.prototype.sort] is stable: an element moves behind another one
    only when the comparator is positive on the pair. *)
Fixpoint insert (cmp : Strategy -> Strategy -> qnum) (x : Strategy)
  (l : list Strategy) : list Strategy :=
  match l with
  | [] => [x]
  | y :: l' =>
      if (cmp x y >? Fin 0%Q)%js then y :: insert cmp x l' else x :: l
  end.

Definition sort (cmp : Strategy -> Strategy -> qnum) (l : list Strategy)
  : list Strategy :=
  fold_right (insert cmp) [] l.

(** [['gold', 'silver', 'bronze'][i] || 'chart'] *)
Definition medal_of (i : nat) : Medal :=
  nth i [gold; silver; bronze] chart.

(** [forEach((s, i) => { s.rank = i + 1; s.medal = ... })], from index [i]. *)
Fixpoint assign_from (i : nat) (l : list Strategy) : list Strategy :=
  match l with
  | [] => []
  | s :: l' => set_rank s (i + 1) (medal_of i) :: assign_from (S i) l'
  end.

(** [slice(0, 3)] *)
Definition slice3 (l : list Strategy) : list Strategy := firstn 3 l.

Definition rank_top3 (l : list Strategy) : list Strategy :=
  slice3 (assign_from 0 (sort comparator l)).

End Ranker.

(* ================================================================== *)
(** ** The estimated-mode engine ([src/lib/enhancedStrategyEngine.js]) *)
(* ================================================================== *)

Module Enhanced.

Local Open Scope Q_scope.
Local Open Scope js_scope.

Record OneSigma : Type := mkOneSigma { lower : qnum; upper : qnum }.

Record VolatilityRange : Type := mkVolatilityRange { oneSigma : OneSigma }.

(** The [params] object ([symbol] is not read by the engine). *)
Record Params : Type := mkParams {
  currentPrice : qnum;
  atmIV : qnum;
  dte : qnum;
  volatilityRange : VolatilityRange;
  gexData : Gex.t;
  taScore : Ta.t;
  ivRank : IvRank.t
}.

(** [Math.round(x / 5) * 5] *)
Definition round5 (x : qnum) : qnum := round (x / Fin 5) * Fin 5.

(** 1. Iron condor, a seller strategy. *)
Definition generateIronCondor (params : Params) : Strategy :=
  let ivr := IvRank.ivRank (ivRank params) in
  let putSellStrike := round5 (lower (oneSigma (volatilityRange params))) in
  let putBuyStrike := putSellStrike - Fin 10 in
  let callSellStrike := round5 (upper (oneSigma (volatilityRange params))) in
  let callBuyStrike := callSellStrike + Fin 10 in
  let creditPerContract := atmIV params * currentPrice params * Fin 0.025 in
  let contracts := ceil (Fin 150 / creditPerContract) in
  let netCredit := round (creditPerContract * contracts) in
  let maxRisk := (Fin 10 * Fin 100 * contracts) - netCredit in
  {| type := iron_condor;
     direction := Some neutral;
     strikes := [("putBuy"%string, putBuyStrike);
                 ("putSell"%string, putSellStrike);
                 ("callSell"%string, callSellStrike);
                 ("callBuy"%string, callBuyStrike)];
     contracts := contracts;
     netCredit := Some netCredit;
     netDebit := None;
     maxProfit := None;
     maxRisk := maxRisk;
     winRate := Fin 68 + (if ivr >? Fin 70 then Fin 7
                         else if ivr >? Fin 50 then Fin 4 else Fin 0);
     roc := round ((netCredit / maxRisk) * Fin 100);
     strategyType := Some seller;
     usingRealPrices := None;
     score := None; rank := None; medal := None |}.

(** 2. Vertical spread, a directional seller strategy. *)
Definition generateVerticalSpread (params : Params) : Strategy :=
  let ivr := IvRank.ivRank (ivRank params) in
  let trend := Ta.trend (taScore params) in
  let isBullish := Trend_eqb trend bullish || Trend_eqb trend neutral in
  let spreadWidth := Fin 10 in
  let sellStrike :=
    if isBullish then round5 (lower (oneSigma (volatilityRange params)))
    else round5 (upper (oneSigma (volatilityRange params))) in
  let buyStrike :=
    if isBullish then sellStrike - spreadWidth else sellStrike + spreadWidth in
  let creditPerContract := atmIV params * currentPrice params * Fin 0.018 in
  let contracts := ceil (Fin 150 / creditPerContract) in
  let netCredit := round (creditPerContract * contracts) in
  let maxRisk := (spreadWidth * Fin 100 * contracts) - netCredit in
  {| type := vertical_spread;
     direction := Some (if isBullish then bullish else bearish);
     strikes := [("buy"%string, buyStrike); ("sell"%string, sellStrike)];
     contracts := contracts;
     netCredit := Some netCredit;
     netDebit := None;
     maxProfit := None;
     maxRisk := maxRisk;
     winRate := Fin 72 + (if ivr >? Fin 60 then Fin 5 else Fin 0);
     roc := round ((netCredit / maxRisk) * Fin 100);
     strategyType := Some seller;
     usingRealPrices := None;
     score := None; rank := None; medal := None |}.

(** 3. Butterfly, a buyer strategy. *)
Definition generateButterfly (params : Params) : Strategy :=
  let ivr := IvRank.ivRank (ivRank params) in
  let centerStrike := round5 (currentPrice params) in
  let wingWidth := Fin 10 in
  let lowerStrike := centerStrike - wingWidth in
  let upperStrike := centerStrike + wingWidth in
  let debitPerContract := atmIV params * currentPrice params * Fin 0.012 in
  let contracts :=
    ceil (Fin 150 / (wingWidth * Fin 100 - debitPerContract)) in
  let netDebit := round (debitPerContract * contracts) in
  let maxProfit := (wingWidth * Fin 100 * contracts) - netDebit in
  let maxRisk := netDebit in
  {| type := butterfly;
     direction := Some neutral;
     strikes := [("lower"%string, lowerStrike);
                 ("center"%string, centerStrike);
                 ("upper"%string, upperStrike)];
     contracts := contracts;
     netCredit := None;
     netDebit := Some netDebit;
     maxProfit := Some maxProfit;
     maxRisk := maxRisk;
     winRate := Fin 55 + (if ivr <? Fin 40 then Fin 10 else Fin 0);
     roc := round ((maxProfit / netDebit) * Fin 100);
     strategyType := Some buyer;
     usingRealPrices := None;
     score := None; rank := None; medal := None |}.

(** 4. Cash-secured put. *)
Definition generateCashSecuredPut (params : Params) : Strategy :=
  let sellStrike := round5 (currentPrice params * Fin 0.95) in
  let creditPerContract := atmIV params * currentPrice params * Fin 0.012 in
  let contracts := ceil (Fin 150 / creditPerContract) in
  let netCredit := round (creditPerContract * contracts) in
  let maxRisk := (sellStrike * Fin 100 * contracts) - netCredit in
  {| type := cash_secured_put;
     direction := Some bullish;
     strikes := [("sell"%string, sellStrike)];
     contracts := contracts;
     netCredit := Some netCredit;
     netDebit := None;
     maxProfit := None;
     maxRisk := maxRisk;
     winRate := Fin 76;
     roc := round ((netCredit / maxRisk) * Fin 100);
     strategyType := Some seller;
     usingRealPrices := None;
     score := None; rank := None; medal := None |}.

(** 5. Calendar spread. *)
Definition generateCalendarSpread (params : Params) : Strategy :=
  let strike := round5 (currentPrice params) in
  let shortDTE := dte params in
  let longDTE := dte params + Fin 7 in
  let shortCredit := atmIV params * currentPrice params * Fin 0.015 in
  let longDebit := atmIV params * currentPrice params * Fin 0.022 in
  let netDebit := longDebit - shortCredit in
  let contracts := ceil (Fin 150 / (shortCredit * Fin 0.7)) in
  let netDebitTotal := round (netDebit * contracts) in
  let maxProfit := round (shortCredit * Fin 0.7 * contracts) in
  let maxRisk := netDebitTotal in
  {| type := calendar_spread;
     direction := Some neutral;
     strikes := [("strike"%string, strike);
                 ("shortDTE"%string, shortDTE);
                 ("longDTE"%string, longDTE)];
     contracts := contracts;
     netCredit := None;
     netDebit := Some netDebitTotal;
     maxProfit := Some maxProfit;
     maxRisk := maxRisk;
     winRate := Fin 62;
     roc := round ((maxProfit / netDebitTotal) * Fin 100);
     strategyType := Some buyer;
     usingRealPrices := None;
     score := None; rank := None; medal := None |}.

(** 6. Diagonal spread. *)
Definition generateDiagonalSpread (params : Params) : Strategy :=
  let isBullish := Trend_eqb (Ta.trend (taScore params)) bullish in
  let shortStrike :=
    if isBullish then round5 (currentPrice params * Fin 1.03)
    else round5 (currentPrice params * Fin 0.97) in
  let longStrike :=
    if isBullish then round5 (currentPrice params * Fin 1.05)
    else round5 (currentPrice params * Fin 0.95) in
  let shortDTE := dte params in
  let longDTE := dte params + Fin 7 in
  let shortCredit := atmIV params * currentPrice params * Fin 0.014 in
  let longDebit := atmIV params * currentPrice params * Fin 0.020 in
  let netDebit := longDebit - shortCredit in
  let contracts := ceil (Fin 150 / (shortCredit * Fin 0.6)) in
  let netDebitTotal := round (netDebit * contracts) in
  let maxProfit := round (shortCredit * Fin 0.6 * contracts) in
  let maxRisk := netDebitTotal in
  {| type := diagonal_spread;
     direction := Some (if isBullish then bullish else bearish);
     strikes := [("shortStrike"%string, shortStrike);
                 ("longStrike"%string, longStrike);
                 ("shortDTE"%string, shortDTE);
                 ("longDTE"%string, longDTE)];
     contracts := contracts;
     netCredit := None;
     netDebit := Some netDebitTotal;
     maxProfit := Some maxProfit;
     maxRisk := maxRisk;
     winRate := Fin 58;
     roc := round ((maxProfit / netDebitTotal) * Fin 100);
     strategyType := Some buyer;
     usingRealPrices := None;
     score := None; rank := None; medal := None |}.

(** [calculateScore(strategy, ivRank, taScore, gexData)] *)
Definition calculateScore (strategy : Strategy) (ivRank : IvRank.t)
  (taScore : Ta.t) (gexData : Gex.t) : qnum :=
  let ivr := IvRank.ivRank ivRank in
  let score := Fin 0 in
  (* 1. win rate (25%) *)
  let score := score + (winRate strategy / Fin 100) * Fin 25 in
  (* 2. ROC (20%) *)
  let score := score + Js.min ((roc strategy / Fin 50) * Fin 20) (Fin 20) in
  (* 3. TA score (15%) *)
  let score := score + (Ta.score taScore / Fin 100) * Fin 15 in
  (* 4. IV rank fit (15%) *)
  let score :=
    match strategyType strategy with
    | Some seller =>
        score + (if ivr >=? Fin 70 then Fin 15
                 else if ivr >=? Fin 50 then Fin 12
                 else if ivr >=? Fin 30 then Fin 8 else Fin 4)
    | _ =>
        score + (if ivr <? Fin 30 then Fin 15
                 else if ivr <? Fin 50 then Fin 10 else Fin 5)
    end in
  (* 5. direction fit (10%) *)
  let score :=
    match direction strategy with
    | Some neutral => score + Fin 10
    | d =>
        let same :=
          match d with
          | Some t => Trend_eqb t (Ta.trend taScore)
          | None => false
          end in
        if same then score + Fin 10
        else if negb same && negb (Trend_eqb (Ta.trend taScore) neutral)
        then score + Fin 3
        else score + Fin 7
    end in
  (* 6. GEX fit (10%) *)
  let score :=
    if Gex.available gexData then
      if StrategyType_eqb (type strategy) iron_condor
         && gamma_is gexData positive
      then score + Fin 10
      else if (match strategyType strategy with
               | Some buyer => true | _ => false end)
              && gamma_is gexData negative
      then score + Fin 10
      else score + Fin 6
    else score + Fin 5 in
  (* 7. liquidity (5%) *)
  let score := score + Fin 5 in
  round (Js.max (Fin 0) (Js.min (Fin 100) score)).

(** The candidates [generateAllStrategies] pushes, in order, before it
    scores them. *)
Definition candidates (params : Params) : list Strategy :=
  let ivr := IvRank.ivRank (ivRank params) in
  let trend := Ta.trend (taScore params) in
  (if ivr >=? Fin 45 then [generateIronCondor params] else [])
  ++ [generateVerticalSpread params]
  ++ (if ivr <=? Fin 60 then [generateButterfly params] else [])
  ++ (if negb (Trend_eqb trend bearish)
      then [generateCashSecuredPut params] else [])
  ++ (if dte params >=? Fin 7 then [generateCalendarSpread params] else [])
  ++ (if (dte params >=? Fin 7) && negb (Trend_eqb trend neutral)
      then [generateDiagonalSpread params] else []).

(** [generateAllStrategies(params)] *)
Definition generateAllStrategies (params : Params) : list Strategy :=
  let strategies := candidates params in
  let strategies :=
    map (fun strategy =>
           set_score strategy
             (calculateScore strategy (ivRank params) (taScore params)
                (gexData params)))
        strategies in
  Ranker.rank_top3 strategies.

End Enhanced.

(* ================================================================== *)
(** ** The scoring system ([src/lib/scoringSystem.js])                 *)
(* ================================================================== *)

Module ScoringSystem.

Local Open Scope Q_scope.
Local Open Scope js_scope.

(** The [context] of a score; [gexData] and [earnings] may be absent. *)
Record Context : Type := mkContext {
  ivRank : IvRank.t;
  taScore : Ta.t;
  gexData : option Gex.t;
  earnings : option Earnings.t
}.

(** The test both fit scores use for a seller strategy. *)
Definition is_seller_type (t : StrategyType) : bool :=
  StrategyType_eqb t iron_condor
  || StrategyType_eqb t credit_spread
  || StrategyType_eqb t cash_secured_put.

(** [calculateIVRScore(strategy, ivRank)] *)
Definition calculateIVRScore (strategy : Strategy) (ivRank : IvRank.t)
  : qnum :=
  let ivr := IvRank.ivRank ivRank in
  if is_seller_type (type strategy) then
    if ivr >=? Fin 75 then Fin 15
    else if ivr >=? Fin 50 then Fin 12
    else if ivr >=? Fin 25 then Fin 8
    else Fin 4
  else if ivr <? Fin 25 then Fin 15
  else if ivr <? Fin 50 then Fin 10
  else Fin 5.

(** [calculateGEXScore(strategy, gexData)] *)
Definition calculateGEXScore (strategy : Strategy) (gexData : option Gex.t)
  : qnum :=
  match gexData with
  | None => Fin 5
  | Some g =>
  match Gex.gamma_environment g with
  | None => Fin 5
  | Some gamma_environment =>
          if is_seller_type (type strategy) then
            match gamma_environment with
            | positive => Fin 10
            | _ => Fin 6
            end
          else
            match gamma_environment with
            | negative => Fin 10
            | _ => Fin 6
            end
  end
  end.

(** [context.earnings?.hasEarningsNear] *)
Definition hasEarningsNear (context : Context) : bool :=
  match earnings context with
  | Some e => Earnings.hasEarningsNear e
  | None => false
  end.

(** The sum [calculateStrategyScore] accumulates before it clamps. *)
Definition rawScore (strategy : Strategy) (context : Context) : qnum :=
  let score := Fin 0 in
  let winRateScore := (winRate strategy / Fin 100) * Fin 25 in
  let score := score + winRateScore in
  let rocScore := Js.min ((roc strategy / Fin 50) * Fin 20) (Fin 20) in
  let score := score + rocScore in
  let taScore := (Ta.score (taScore context) / Fin 100) * Fin 15 in
  let score := score + taScore in
  let ivrScore := calculateIVRScore strategy (ivRank context) in
  let score := score + ivrScore in
  let gexScore := calculateGEXScore strategy (gexData context) in
  let score := score + gexScore in
  let liquidityScore := Fin 10 in
  let score := score + liquidityScore in
  let greeksScore := Fin 5 in
  let score := score + greeksScore in
  if hasEarningsNear context then score - Fin 10 else score.

(** [calculateStrategyScore(strategy, context)] *)
Definition calculateStrategyScore (strategy : Strategy) (context : Context)
  : qnum :=
  Js.max (Fin 0) (Js.min (Fin 100) (rawScore strategy context)).

(** The first statement of [scoreAndRankStrategies]: each strategy is
    copied with [score: Math.round(score)]. *)
Definition scored (strategy : Strategy) (marketData : Context) : Strategy :=
  set_score strategy (round (calculateStrategyScore strategy marketData)).

(** [scoreAndRankStrategies(strategies, marketData)] *)
Definition scoreAndRankStrategies (strategies : list Strategy)
  (marketData : Context) : list Strategy :=
  let scoredStrategies := map (fun s => scored s marketData) strategies in
  Ranker.sort Ranker.comparator scoredStrategies.

End ScoringSystem.

(* ================================================================== *)
(** ** The real-price aggregator (V4)                                  *)
(* ================================================================== *)

Module RealPrice.

Local Open Scope Q_scope.
Local Open Scope js_scope.

(** A parsed contract of the chain, as [parseOptionsChain] builds it. *)
Record OptionQuote : Type := mkOptionQuote {
  strike : qnum;
  bid : qnum;
  ask : qnum;
  last : qnum;
  mid : qnum;
  iv : qnum;
  delta : qnum;
  gamma : qnum;
  theta : qnum;
  vega : qnum;
  volume : qnum;
  openInterest : qnum;
  expiration : string;
  daysToExp : qnum
}.

Record OptionsChain : Type := mkOptionsChain {
  calls : list OptionQuote;
  puts : list OptionQuote
}.

Record Params : Type := mkParams {
  currentPrice : qnum;
  atmIV : qnum;
  dte : qnum;
  volatilityRange : Enhanced.VolatilityRange;
  taScore : Ta.t;
  ivRank : IvRank.t;
  gexData : Gex.t;
  optionsChain : OptionsChain
}.

(** The callback of the [reduce] in [findOptionByStrike]. *)
Definition closer (targetStrike : qnum) (closest option : OptionQuote)
  : OptionQuote :=
  let closestDiff := abs (strike closest - targetStrike) in
  let optionDiff := abs (strike option - targetStrike) in
  if optionDiff <? closestDiff then option else closest.

(** [findOptionByStrike(options, targetStrike)]; [None] is [null].  A
    [reduce] without an initial value starts from the first element. *)
Definition findOptionByStrike (options : list OptionQuote)
  (targetStrike : qnum) : option OptionQuote :=
  match options with
  | [] => None
  | first :: rest => Some (fold_left (closer targetStrike) rest first)
  end.

Definition lowerOf (params : Params) : qnum :=
  Enhanced.lower (Enhanced.oneSigma (volatilityRange params)).

Definition upperOf (params : Params) : qnum :=
  Enhanced.upper (Enhanced.oneSigma (volatilityRange params)).

(** [generateFallbackStrategy(params)] *)
Definition generateFallbackStrategy (params : Params) : Strategy :=
  let putSell := Enhanced.round5 (lowerOf params) in
  let credit := atmIV params * currentPrice params * Fin 0.025 in
  let contracts := ceil (Fin 150 / credit) in
  let netCredit := round (credit * contracts) in
  let maxRisk := (Fin 10 * Fin 100 * contracts) - netCredit in
  {| type := iron_condor;
     direction := None;
     strikes := [("putBuy"%string, putSell - Fin 10);
                 ("putSell"%string, putSell);
                 ("callSell"%string, Enhanced.round5 (upperOf params));
                 ("callBuy"%string,
                   Enhanced.round5 (upperOf params) + Fin 10)];
     contracts := contracts;
     netCredit := Some netCredit;
     netDebit := None;
     maxProfit := None;
     maxRisk := maxRisk;
     winRate := Fin 68;
     roc := round ((netCredit / maxRisk) * Fin 100);
     strategyType := None;
     usingRealPrices := Some false;
     score := None; rank := None; medal := None |}.

(** [calcScore(s, ivr, ta, gex)] *)
Definition calcScore (s : Strategy) (ivr : IvRank.t) (ta : Ta.t)
  (gex : Gex.t) : qnum :=
  let r := IvRank.ivRank ivr in
  let score := (winRate s / Fin 100) * Fin 25 in
  let score := score + Js.min ((roc s / Fin 50) * Fin 20) (Fin 20) in
  let score := score + (Ta.score ta / Fin 100) * Fin 15 in
  let isSeller :=
    StrategyType_eqb (type s) iron_condor
    || StrategyType_eqb (type s) vertical_spread
    || StrategyType_eqb (type s) cash_secured_put in
  let score :=
    score + (if isSeller
             then (if r >=? Fin 70 then Fin 15
                   else if r >=? Fin 50 then Fin 12 else Fin 8)
             else (if r <? Fin 30 then Fin 15
                   else if r <? Fin 50 then Fin 10 else Fin 5)) in
  let score := score + Fin 10 in
  let score :=
    score + (if Gex.available gex
                && StrategyType_eqb (type s) iron_condor
                && gamma_is gex positive
             then Fin 10 else Fin 6) in
  let score :=
    score + (match usingRealPrices s with
             | Some true => Fin 5
             | _ => Fin 3
             end) in
  round (Js.max (Fin 0) (Js.min (Fin 100) score)).

(** The iron condor block, entered when [ivRank >= 45 && hasOptions]. *)
Definition realIronCondor (params : Params) : list Strategy :=
  let r := IvRank.ivRank (ivRank params) in
  let chain := optionsChain params in
  let putSellStrike := Enhanced.round5 (lowerOf params) in
  let putBuyStrike := putSellStrike - Fin 10 in
  let callSellStrike := Enhanced.round5 (upperOf params) in
  let callBuyStrike := callSellStrike + Fin 10 in
  match findOptionByStrike (puts chain) putSellStrike,
        findOptionByStrike (puts chain) putBuyStrike,
        findOptionByStrike (calls chain) callSellStrike,
        findOptionByStrike (calls chain) callBuyStrike with
  | Some putSellOpt, Some putBuyOpt, Some callSellOpt, Some callBuyOpt =>
      let creditPerContract :=
        (mid putSellOpt - mid putBuyOpt + mid callSellOpt - mid callBuyOpt)
        * Fin 100 in
      let contracts := Js.max (Fin 1) (ceil (Fin 150 / creditPerContract)) in
      let netCredit := round (creditPerContract * contracts) in
      let maxRisk :=
        round (((putSellStrike - putBuyStrike) * Fin 100 * contracts)
               - netCredit) in
      [{| type := iron_condor;
          direction := None;
          strikes := [("putBuy"%string, strike putBuyOpt);
                      ("putSell"%string, strike putSellOpt);
                      ("callSell"%string, strike callSellOpt);
                      ("callBuy"%string, strike callBuyOpt)];
          contracts := contracts;
          netCredit := Some netCredit;
          netDebit := None;
          maxProfit := None;
          maxRisk := maxRisk;
          winRate := Fin 68 + (if r >? Fin 70 then Fin 7 else Fin 4);
          roc := round ((netCredit / maxRisk) * Fin 100);
          strategyType := None;
          usingRealPrices := Some true;
          score := None; rank := None; medal := None |}]
  | _, _, _, _ => []
  end.

(** The vertical spread block, entered when [hasOptions]. *)
Definition realVerticalSpread (params : Params) : list Strategy :=
  let r := IvRank.ivRank (ivRank params) in
  let chain := optionsChain params in
  let trend := Ta.trend (taScore params) in
  let isBullish := Trend_eqb trend bullish || Trend_eqb trend neutral in
  let sellStrike :=
    if isBullish then Enhanced.round5 (lowerOf params)
    else Enhanced.round5 (upperOf params) in
  let buyStrike :=
    if isBullish then sellStrike - Fin 10 else sellStrike + Fin 10 in
  let sellOpt :=
    if isBullish then findOptionByStrike (puts chain) sellStrike
    else findOptionByStrike (calls chain) sellStrike in
  let buyOpt :=
    if isBullish then findOptionByStrike (puts chain) buyStrike
    else findOptionByStrike (calls chain) buyStrike in
  match sellOpt, buyOpt with
  | Some sellOpt, Some buyOpt =>
      let creditPerContract := (mid sellOpt - mid buyOpt) * Fin 100 in
      let contracts := Js.max (Fin 1) (ceil (Fin 150 / creditPerContract)) in
      let netCredit := round (creditPerContract * contracts) in
      let maxRisk :=
        round ((abs (sellStrike - buyStrike) * Fin 100 * contracts)
               - netCredit) in
      [{| type := vertical_spread;
          direction := None;
          strikes := [("sell"%string, strike sellOpt);
                      ("buy"%string, strike buyOpt)];
          contracts := contracts;
          netCredit := Some netCredit;
          netDebit := None;
          maxProfit := None;
          maxRisk := maxRisk;
          winRate := Fin 72 + (if r >? Fin 60 then Fin 8 else Fin 0);
          roc := round ((netCredit / maxRisk) * Fin 100);
          strategyType := None;
          usingRealPrices := Some true;
          score := None; rank := None; medal := None |}]
  | _, _ => []
  end.

(** The cash-secured put block, entered when
    [taScore.trend !== 'bearish' && hasOptions]. *)
Definition realCashSecuredPut (params : Params) : list Strategy :=
  let chain := optionsChain params in
  let sellStrike := Enhanced.round5 (currentPrice params * Fin 0.95) in
  match findOptionByStrike (puts chain) sellStrike with
  | Some sellOpt =>
      let creditPerContract := mid sellOpt * Fin 100 in
      let contracts := Js.max (Fin 1) (ceil (Fin 150 / creditPerContract)) in
      let netCredit := round (creditPerContract * contracts) in
      let maxRisk :=
        round ((strike sellOpt * Fin 100 * contracts) - netCredit) in
      [{| type := cash_secured_put;
          direction := None;
          strikes := [("sell"%string, strike sellOpt)];
          contracts := contracts;
          netCredit := Some netCredit;
          netDebit := None;
          maxProfit := None;
          maxRisk := maxRisk;
          winRate := Fin 76;
          roc := round ((netCredit / maxRisk) * Fin 100);
          strategyType := None;
          usingRealPrices := Some true;
          score := None; rank := None; medal := None |}]
  | None => []
  end.

(** [optionsChain.calls.length > 0 && optionsChain.puts.length > 0] *)
Definition hasOptions (params : Params) : bool :=
  match calls (optionsChain params), puts (optionsChain params) with
  | _ :: _, _ :: _ => true
  | _, _ => false
  end.

(** The candidates [generateStrategiesWithRealPrices] holds when it starts
    to score: the three real-price blocks, and the estimated iron condor
    when they pushed nothing. *)
Definition candidates (params : Params) : list Strategy :=
  let r := IvRank.ivRank (ivRank params) in
  let strategies :=
    (if (r >=? Fin 45) && hasOptions params
     then realIronCondor params else [])
    ++ (if hasOptions params then realVerticalSpread params else [])
    ++ (if negb (Trend_eqb (Ta.trend (taScore params)) bearish)
           && hasOptions params
        then realCashSecuredPut params else []) in
  match strategies with
  | [] => [generateFallbackStrategy params]
  | _ => strategies
  end.

(** [generateStrategiesWithRealPrices(params)] *)
Definition generateStrategiesWithRealPrices (params : Params)
  : list Strategy :=
  let strategies := candidates params in
  let strategies :=
    map (fun s =>
           set_score s
             (calcScore s (ivRank params) (taScore params) (gexData params)))
        strategies in
  Ranker.rank_top3 strategies.

End RealPrice.

(* ================================================================== *)
(** ** The baseline engine (the first strategy recommender)            *)
(* ================================================================== *)

(** The baseline recommender prices its three seller strategies from the
    volatility module, so its numbers are those of that module. *)
Module Baseline.

Local Open Scope R_scope.
Local Open Scope js_scope.

(** The [direction] of a credit spread: ['put'] or ['call']. *)
Inductive OptionSide : Type := put | call.

(** The fields of [marketData] the generators compute with. *)
Record MarketData : Type := mkMarketData {
  currentPrice : rnum;
  iv : rnum;
  dte : rnum;
  ivRank : IvRank.t;
  taScore : Ta.t
}.

(** A candidate of the baseline engine ([score] is [null] in all of them). *)
Record Strategy : Type := mkStrategy {
  type : StrategyType;
  direction : option OptionSide;
  strikes : list (string * rnum);
  contracts : rnum;
  netCredit : rnum;
  maxRisk : rnum;
  winRate : rnum;
  roc : rnum;
  breakevens : list (string * rnum)
}.

(** [roundToStrike(price)] *)
Definition roundToStrike (price : rnum) : rnum :=
  let interval :=
    if price <? Fin 50 then Fin 1
    else if price <? Fin 100 then Fin 2.5
    else if price <? Fin 200 then Fin 5
    else Fin 10 in
  round (price / interval) * interval.

(** [getWingWidth(currentPrice)] *)
Definition getWingWidth (currentPrice : rnum) : rnum :=
  if currentPrice <? Fin 50 then Fin 5
  else if currentPrice <? Fin 100 then Fin 10
  else if currentPrice <? Fin 300 then Fin 15
  else Fin 20.

(** [estimateCredit(currentPrice, iv, dte, strategyType)] *)
Definition estimateCredit (currentPrice iv dte : rnum)
  (strategyType : StrategyType) : rnum :=
  let timeFactor := Volatility.sqrt (dte / Fin 365) in
  let volFactor := iv * currentPrice * timeFactor in
  let credit :=
    match strategyType with
    | iron_condor => volFactor * Fin 0.15
    | credit_spread => volFactor * Fin 0.10
    | cash_secured_put => volFactor * Fin 0.12
    | _ => volFactor * Fin 0.10
    end in
  Js.max (Fin 50) (round credit).

(** A probability in arithmetic: [null] counts as [0]. *)
Definition of_nullable (p : option rnum) : rnum :=
  match p with
  | Some x => x
  | None => Fin 0
  end.

(** [generateIronCondor(marketData, volRange)] *)
Definition generateIronCondor (marketData : MarketData)
  (volRange : Volatility.VolatilityRange) : Strategy :=
  let currentPrice := currentPrice marketData in
  let oneSigma := Volatility.oneSigma volRange in
  let putSellStrike := roundToStrike (Volatility.lower oneSigma * Fin 1.05) in
  let putBuyStrike := roundToStrike (putSellStrike - getWingWidth currentPrice) in
  let callSellStrike := roundToStrike (Volatility.upper oneSigma * Fin 0.95) in
  let callBuyStrike :=
    roundToStrike (callSellStrike + getWingWidth currentPrice) in
  let creditPerContract :=
    estimateCredit currentPrice (iv marketData) (dte marketData) iron_condor in
  let minCredit := Fin 150 in
  let contracts := ceil (minCredit / creditPerContract) in
  let netCredit := creditPerContract * contracts in
  let wingWidth := callBuyStrike - callSellStrike in
  let maxRisk := (wingWidth * Fin 100 - creditPerContract) * contracts in
  let winProbability :=
    of_nullable
      (Volatility.calculateProbabilityInRange
         (Volatility.Num currentPrice) (Volatility.Num putSellStrike)
         (Volatility.Num callSellStrike) (Volatility.Num (iv marketData))
         (Volatility.Num (dte marketData))) in
  {| type := iron_condor;
     direction := None;
     strikes := [("putBuy"%string, putBuyStrike);
                 ("putSell"%string, putSellStrike);
                 ("callSell"%string, callSellStrike);
                 ("callBuy"%string, callBuyStrike)];
     contracts := contracts;
     netCredit := round netCredit;
     maxRisk := round maxRisk;
     winRate := round (winProbability * Fin 100);
     roc := round ((netCredit / maxRisk) * Fin 100);
     breakevens :=
       [("lower"%string, putSellStrike - creditPerContract / Fin 100);
        ("upper"%string, callSellStrike + creditPerContract / Fin 100)] |}.

(** [generateCreditSpread(marketData, volRange)] *)
Definition generateCreditSpread (marketData : MarketData)
  (volRange : Volatility.VolatilityRange) : Strategy :=
  let currentPrice := currentPrice marketData in
  let oneSigma := Volatility.oneSigma volRange in
  let direction :=
    if Trend_eqb (Ta.trend (taScore marketData)) bullish then put else call in
  let sellStrike :=
    match direction with
    | put => roundToStrike (Volatility.lower oneSigma * Fin 1.05)
    | call => roundToStrike (Volatility.upper oneSigma * Fin 0.95)
    end in
  let buyStrike :=
    match direction with
    | put => roundToStrike (sellStrike - getWingWidth currentPrice)
    | call => roundToStrike (sellStrike + getWingWidth currentPrice)
    end in
  let creditPerContract :=
    estimateCredit currentPrice (iv marketData) (dte marketData)
      credit_spread in
  let minCredit := Fin 150 in
  let contracts := ceil (minCredit / creditPerContract) in
  let netCredit := creditPerContract * contracts in
  let spreadWidth := abs (buyStrike - sellStrike) in
  let maxRisk := (spreadWidth * Fin 100 - creditPerContract) * contracts in
  let winProbability :=
    of_nullable
  match direction with
  | put =>
          Volatility.calculateProbabilityInRange
            (Volatility.Num currentPrice) (Volatility.Num sellStrike)
            (Volatility.Num PInf) (Volatility.Num (iv marketData))
            (Volatility.Num (dte marketData))
  | call =>
          Volatility.calculateProbabilityInRange
            (Volatility.Num currentPrice) (Volatility.Num NInf)
            (Volatility.Num sellStrike) (Volatility.Num (iv marketData))
            (Volatility.Num (dte marketData))
  end in
  {| type := credit_spread;
     direction := Some direction;
     strikes := [("sell"%string, sellStrike); ("buy"%string, buyStrike)];
     contracts := contracts;
     netCredit := round netCredit;
     maxRisk := round maxRisk;
     winRate := round (winProbability * Fin 100);
     roc := round ((netCredit / maxRisk) * Fin 100);
     breakevens :=
       [("breakeven"%string,
          match direction with
          | put => sellStrike - creditPerContract / Fin 100
          | call => sellStrike + creditPerContract / Fin 100
          end)] |}.

(** [generateCashSecuredPut(marketData, volRange)] *)
Definition generateCashSecuredPut (marketData : MarketData)
  (volRange : Volatility.VolatilityRange) : Strategy :=
  let currentPrice := currentPrice marketData in
  let oneSigma := Volatility.oneSigma volRange in
  let sellStrike := roundToStrike (Volatility.lower oneSigma * Fin 1.1) in
  let creditPerContract :=
    estimateCredit currentPrice (iv marketData) (dte marketData)
      cash_secured_put in
  let minCredit := Fin 150 in
  let contracts := ceil (minCredit / creditPerContract) in
  let netCredit := creditPerContract * contracts in
  let maxRisk := (sellStrike * Fin 100 - creditPerContract) * contracts in
  let winProbability :=
    of_nullable
      (Volatility.calculateProbabilityInRange
         (Volatility.Num currentPrice) (Volatility.Num sellStrike)
         (Volatility.Num PInf) (Volatility.Num (iv marketData))
         (Volatility.Num (dte marketData))) in
  {| type := cash_secured_put;
     direction := None;
     strikes := [("sell"%string, sellStrike)];
     contracts := contracts;
     netCredit := round netCredit;
     maxRisk := round maxRisk;
     winRate := round (winProbability * Fin 100);
     roc := round ((netCredit / maxRisk) * Fin 100);
     breakevens :=
       [("breakeven"%string, sellStrike - creditPerContract / Fin 100)] |}.

(** [generateStrategies(marketData)].  [None] is the [TypeError] of reading
    [volRange.oneSigma] when [calculateVolatilityRange] returned [null]: the
    credit spread reads it on every call. *)
Definition generateStrategies (marketData : MarketData)
  : option (list Strategy) :=
  match
    Volatility.calculateVolatilityRange
      (Volatility.Num (currentPrice marketData))
      (Volatility.Num (iv marketData)) (Volatility.Num (dte marketData))
  with
  | None => None
  | Some volRange =>
      Some
        ((if Js.geb (IvRank.ivRank (ivRank marketData)) (Fin 40%Q)
          then [generateIronCondor marketData volRange] else [])
         ++ [generateCreditSpread marketData volRange]
         ++ (if negb (Trend_eqb (Ta.trend (taScore marketData)) bearish)
             then [generateCashSecuredPut marketData volRange] else []))
  end.

End Baseline.

(* ================================================================== *)
(** ** Auxiliary definitions of the statements                         *)
(* ================================================================== *)

Module Spec.

Import Volatility.
Local Open Scope R_scope.

(** The value of [Math.round(x * 100) / 100] at a finite [x]. *)
Definition cents (x : R) : R := IZR (Zfloor (x * 100 + 1 / 2)) / 100.

(** The exact one-sigma move [price * iv * sqrt(dte / 365)]. *)
Definition sigma_move (price iv dte : R) : R :=
  price * iv * R_sqrt.sqrt (dte / 365).

(** The returned figure [a] lies within [tolerance] of the quantity [x]. *)
Definition within (tolerance a x : R) : Prop := Rabs (a - x) <= tolerance.

(** The band, as the claim words it: strict bounds around the price, the
    two-sigma band strictly around the one-sigma band, and the exact moves. *)
Definition strict_band (price iv dte : R) (b : VolatilityRange) : Prop :=
  Js.ltb (lower (oneSigma b)) (Fin price) = true /\
  Js.ltb (Fin price) (upper (oneSigma b)) = true /\
  Js.ltb (lower (twoSigma b)) (lower (oneSigma b)) = true /\
  Js.ltb (upper (oneSigma b)) (upper (twoSigma b)) = true /\
  move (oneSigma b) = Fin (sigma_move price iv dte) /\
  move (twoSigma b) = Fin (2 * sigma_move price iv dte).

(** The claim on the band at one input. *)
Definition band_claim (price iv dte : R) : Prop :=
  exists b,
    calculateVolatilityRange (Num (Fin price)) (Num (Fin iv)) (Num (Fin dte))
    = Some b /\ strict_band price iv dte b.

(** An argument that is missing, zero or negative. *)
Definition missing_zero_or_negative (v : value) : Prop :=
  match v with
  | Missing => True
  | Num a => Js.leb a (Fin 0) = true
  end.

(** The claim on refused inputs at one input. *)
Definition refusal_claim (price iv dte : value) : Prop :=
  missing_zero_or_negative price \/ missing_zero_or_negative iv
  \/ missing_zero_or_negative dte ->
  calculateVolatilityRange price iv dte = None.

(** An argument the guard [!v] rejects: missing, [NaN] or zero. *)
Definition absent_or_zero (v : value) : Prop :=
  v = Missing \/ v = Num NaN \/ v = Num (Fin 0).

(** The polynomial part of [normalCDF]: [t * (b1 + t * (b2 + ...))]. *)
Definition tail_poly (t : R) : R :=
  t * (0.3193815 + t * (-0.3565638 + t * (1.781478 + t *
        (-1.821256 + t * 1.330274)))).

(** The two factors of the divided difference of [tail_poly], in
    [u = s + t]. *)
Definition slope0 (u : R) : R :=
  0.3193815 + -0.3565638 * u + 1.3361085 * (u * u)
  + -0.910628 * (u * u * u) + 0.415710625 * (u * u * u * u).

Definition slope1 (u : R) : R :=
  0.4453695 + -0.910628 * u + 0.83142125 * (u * u).

(** The variable [t] of [normalCDF] at a finite [z]. *)
Definition tvar (z : R) : R := 1 / (1 + 0.2316419 * Rabs z).

(** [prob] of [normalCDF] at a finite [z], as the source multiplies it. *)
Definition tail (z : R) : R :=
  0.3989423 * Rtrigo_def.exp (- z * z / 2) * tvar z *
  (0.3193815 + tvar z * (-0.3565638 + tvar z * (1.781478 + tvar z *
     (-1.821256 + tvar z * 1.330274)))).

(** The value of [normalCDF] at a finite [z]. *)
Definition cdf (z : R) : R :=
  if Rlt_dec 0 z then 1 - tail z else tail z.

(** The value of [normalCDF] at a number other than [NaN]. *)
Definition cdfx (a : rnum) : R :=
  match a with
  | NaN => 0
  | NInf => 0
  | Fin z => cdf z
  | PInf => 1
  end.

(** [Math.max(0, Math.min(1, x))] at a finite [x]. *)
Definition clamp01 (x : R) : R := Rmax 0 (Rmin 1 x).

(** The standard score of a bound. *)
Definition zscore (price sigma : R) (bound : rnum) : rnum :=
  ((bound - Fin price) / Fin sigma)%js.

(** The value of a guarded call of [calculateProbabilityInRange]. *)
Definition probability_value (price iv dte : R) (lo hi : rnum) : R :=
  let sigma := sigma_move price iv dte in
  clamp01 (cdfx (zscore price sigma hi) - cdfx (zscore price sigma lo)).



End Spec.

Module EngineSpec.

Local Open Scope Q_scope.

(** The finite value of a number ([0] for the others). *)
Definition value_of (a : qnum) : Q :=
  match a with Fin q => q | _ => 0 end.

(** *** The nearest contract *)

(** The distance of a contract's strike to the target. *)
Definition distance (target : Q) (o : RealPrice.OptionQuote) : Q :=
  Qabs (value_of (RealPrice.strike o) - target).

Definition finite_strike (o : RealPrice.OptionQuote) : Prop :=
  is_finite (RealPrice.strike o).

(** [o] is the first contract of [l] at the least distance to [target]. *)
Definition first_nearest (target : Q) (l : list RealPrice.OptionQuote)
  (o : RealPrice.OptionQuote) : Prop :=
  exists before after,
    l = before ++ o :: after /\
    Forall (fun x => distance target o < distance target x) before /\
    Forall (fun x => distance target o <= distance target x) after.

(** A contract with the given strike and mid price, for examples. *)
Definition sample_quote (k m : Q) : RealPrice.OptionQuote :=
  {| RealPrice.strike := Fin k;
     RealPrice.bid := Fin m; RealPrice.ask := Fin m; RealPrice.last := Fin m;
     RealPrice.mid := Fin m; RealPrice.iv := Fin 0.3;
     RealPrice.delta := Fin 0; RealPrice.gamma := Fin 0;
     RealPrice.theta := Fin 0; RealPrice.vega := Fin 0;
     RealPrice.volume := Fin 10; RealPrice.openInterest := Fin 100;
     RealPrice.expiration := "2025-01-17"%string;
     RealPrice.daysToExp := Fin 7 |}.

(** *** The ranker *)

(** A scored candidate: its [score] is a finite number. *)
Definition finite_score (s : Strategy) : Prop :=
  is_finite (of_option (score s)).

Definition score_value (s : Strategy) : Q := value_of (of_option (score s)).

Definition has_score (q : Q) (s : Strategy) : bool :=
  Qeq_bool (score_value s) q.

(** Scores do not increase along the list. *)
Definition descending (l : list Strategy) : Prop :=
  StronglySorted (fun a b => score_value b <= score_value a) l.

(** [sorted] is the stable sort of [l] by score, descending: a permutation
    in descending order in which the candidates of any one score keep the
    order they have in [l]. *)
Definition stable_descending (l sorted : list Strategy) : Prop :=
  Permutation sorted l /\
  descending sorted /\
  forall q, filter (has_score q) sorted = filter (has_score q) l.

(** The marker of the ranks 1 to 3, by index. *)
Definition podium (i : nat) : Medal :=
  match i with
  | O => gold
  | S O => silver
  | _ => bronze
  end.

(** A candidate with the given score, for examples. *)
Definition sample_scored (t : StrategyType) (x : Q) : Strategy :=
  {| type := t; direction := None; strikes := [];
     contracts := Fin 1; netCredit := Some (Fin 150); netDebit := None;
     maxProfit := None; maxRisk := Fin 850; winRate := Fin 70;
     roc := Fin 18; strategyType := None; usingRealPrices := None;
     score := Some (Fin x); rank := None; medal := None |}.

(** *** The catalog and the sizing rule *)

(** A market snapshot, for examples: price 250.50, volatility 0.35, a week
    to expiry, the band of that week in cents. *)
Definition sample_params (ivr : Q) (trend : Trend) (dte : Q)
  : Enhanced.Params :=
  {| Enhanced.currentPrice := Fin 250.5;
     Enhanced.atmIV := Fin 0.35;
     Enhanced.dte := Fin dte;
     Enhanced.volatilityRange :=
       {| Enhanced.oneSigma :=
            {| Enhanced.lower := Fin 238.36; Enhanced.upper := Fin 262.64 |}
       |};
     Enhanced.gexData :=
       {| Gex.zero_gamma := Fin 250; Gex.gamma_environment := Some positive;
          Gex.available := true |};
     Enhanced.taScore := {| Ta.score := Fin 65; Ta.trend := trend |};
     Enhanced.ivRank := {| IvRank.ivRank := Fin ivr |} |}.

(** The estimated-mode engine pushes a candidate of type [t]. *)
Definition generated (params : Enhanced.Params) (t : StrategyType) : Prop :=
  In t (map type (Enhanced.candidates params)).

(** The count follows the ceiling rule on the amount [perUnit] of one
    contract: it is an integer of at least 1, the least that brings the
    total to 150, up to a thousandth on the total:
    [150 - 0.001 <= perUnit * count < 150 + perUnit + 0.001]. *)
Definition counted_by (perUnit : Q) (count : qnum) : Prop :=
  exists n : Z,
    count = Fin (inject_Z n) /\ (1 <= n)%Z /\
    150 - (1 # 1000) <= perUnit * inject_Z n /\
    perUnit * inject_Z n < 150 + perUnit + (1 # 1000).

(** The sizing rule of the claim: the count follows the ceiling rule on the
    premium [perContract] of one contract, and the total premium is an
    integer of at least 150. *)
Definition sized_by (perContract : Q) (count : qnum) (premium : option qnum)
  : Prop :=
  counted_by perContract count /\
  exists m : Z, premium = Some (Fin (inject_Z m)) /\ (150 <= m)%Z.

(** *** The score *)

(** A number that is finite or minus infinity. *)
Definition bounded_above (a : qnum) : Prop :=
  match a with
  | Fin _ | NInf => True
  | NaN | PInf => False
  end.

(** [Math.max(0, Math.min(100, r))] at a finite [r]. *)
Definition clamp100 (r : Q) : Q := Qmax 0 (Qmin 100 r).

(** The score of a candidate is an integer of [[0, 100]]. *)
Definition score_in_0_100 (s : Strategy) : Prop :=
  exists z : Z, score s = Some (Fin (inject_Z z)) /\ (0 <= z <= 100)%Z.

(** What the scoring system needs of a candidate and of the context: a
    finite win rate and technical score, a return on capital other than
    [NaN]. *)
Definition valid_for_score (s : Strategy) (c : ScoringSystem.Context)
  : Prop :=
  is_finite (winRate s) /\ is_nan (roc s) = false /\
  is_finite (Ta.score (ScoringSystem.taScore c)).

(** What [calculateScore] needs of a candidate: a finite win rate and a
    return on capital other than [NaN]. *)
Definition scorable (s : Strategy) : Prop :=
  is_finite (winRate s) /\ is_nan (roc s) = false.

(** A scoring context, for examples. *)
Definition sample_context : ScoringSystem.Context :=
  {| ScoringSystem.ivRank := {| IvRank.ivRank := Fin 65 |};
     ScoringSystem.taScore := {| Ta.score := Fin 65; Ta.trend := bullish |};
     ScoringSystem.gexData :=
       Some {| Gex.zero_gamma := Fin 250;
               Gex.gamma_environment := Some positive;
               Gex.available := true |};
     ScoringSystem.earnings := Some {| Earnings.hasEarningsNear := true |} |}.

(** *** The fallback of the real-price engine *)

(** Some leg of the real-price generators cannot be resolved. *)
Definition unresolved_leg (params : RealPrice.Params) : Prop :=
  exists target,
    RealPrice.findOptionByStrike
      (RealPrice.puts (RealPrice.optionsChain params)) target = None \/
    RealPrice.findOptionByStrike
      (RealPrice.calls (RealPrice.optionsChain params)) target = None.

(** The engine holds an estimated candidate of type [t]. *)
Definition estimated_in_place (params : RealPrice.Params) (t : StrategyType)
  : Prop :=
  exists s,
    In s (RealPrice.candidates params) /\ type s = t /\
    usingRealPrices s = Some false.

(** The claim on the fallback at one input: with an unresolved leg, every
    strategy whose gate is open still has its candidate, estimated. *)
Definition fallback_claim (params : RealPrice.Params) : Prop :=
  unresolved_leg params ->
  estimated_in_place params vertical_spread /\
  (Ta.trend (RealPrice.taScore params) <> bearish ->
   estimated_in_place params cash_secured_put) /\
  ((IvRank.ivRank (RealPrice.ivRank params) >=? Fin 45)%js = true ->
   estimated_in_place params iron_condor).

(** The snapshot of [sample_params] with a chain. *)
Definition sample_real_params (ivr : Q) (trend : Trend)
  (chain : RealPrice.OptionsChain) : RealPrice.Params :=
  {| RealPrice.currentPrice := Fin 250.5;
     RealPrice.atmIV := Fin 0.35;
     RealPrice.dte := Fin 7;
     RealPrice.volatilityRange :=
       {| Enhanced.oneSigma :=
            {| Enhanced.lower := Fin 238.36; Enhanced.upper := Fin 262.64 |}
       |};
     RealPrice.taScore := {| Ta.score := Fin 65; Ta.trend := trend |};
     RealPrice.ivRank := {| IvRank.ivRank := Fin ivr |};
     RealPrice.gexData :=
       {| Gex.zero_gamma := Fin 250; Gex.gamma_environment := Some positive;
          Gex.available := true |};
     RealPrice.optionsChain := chain |}.

Definition empty_chain : RealPrice.OptionsChain :=
  {| RealPrice.calls := []; RealPrice.puts := [] |}.

Definition sample_chain : RealPrice.OptionsChain :=
  {| RealPrice.calls :=
       [sample_quote 250 4.1; sample_quote 260 1.3; sample_quote 270 0.4];
     RealPrice.puts :=
       [sample_quote 230 0.5; sample_quote 240 1.6; sample_quote 250 3.9] |}.

End EngineSpec.

(* ================================================================== *)
(** ** Further modules of the repository                               *)
(* ================================================================== *)

(** Next to the engines: the technical score and the IV rank that feed
    them ([src/lib/taScore.js], first half, and [src/lib/ivRank.js]), the
    gamma adjustment of the band ([adjustVolatilityWithGEX]), the response
    cache, [generateRecommendationSummary] of the scoring system, and
    [parseOptionsChain] of the real-price aggregator.  Strings that only
    carry a message are modelled by enumerations. *)

(* ================================================================== *)
(** ** Arrays                                                          *)
(* ================================================================== *)

(** [Array.prototype.sort] with a comparator, at any element type: the
    stable sort of the ranker. *)
Module JsArray.

Section Sorting.
Context {A : Type}.

Fixpoint insert_by (cmp : A -> A -> qnum) (x : A) (l : list A) : list A :=
  match l with
  | [] => [x]
  | y :: l' =>
      if (cmp x y >? Fin 0%Q)%js then y :: insert_by cmp x l'
      else x :: l
  end.

Definition sort_by (cmp : A -> A -> qnum) (l : list A) : list A :=
  fold_right (insert_by cmp) [] l.

End Sorting.

(** [array.length] as a number. *)
Definition length_of {A : Type} (l : list A) : qnum :=
  Fin (inject_Z (Z.of_nat (List.length l))).

(** [Math.min(...xs)] and [Math.max(...xs)]. *)
Definition min_of (xs : list qnum) : qnum := fold_left Js.min xs PInf.
Definition max_of (xs : list qnum) : qnum := fold_left Js.max xs NInf.

(** [a === b] on numbers. *)
Definition strict_eq (a b : qnum) : bool :=
  match Js.compare a b with
  | Some Eq => true
  | _ => false
  end.

(** [a || 0] on a number. *)
Definition or_zero (a : qnum) : qnum := if truthy a then a else Fin 0%Q.

End JsArray.

(* ================================================================== *)
(** ** The technical score ([src/lib/taScore.js], first half)          *)
(* ================================================================== *)

(** The indicator values are numbers; a value that is not there compares as
    [NaN].  A period, or one of its three indicators, may be absent. *)
Module TaScore.

Local Open Scope Q_scope.
Local Open Scope js_scope.

Module Macd.
Record t : Type := mk { hist : qnum; macd : qnum; signal : qnum }.
End Macd.

Module Rsi.
Record t : Type := mk { value : qnum }.
End Rsi.

Module Stoch.
Record t : Type := mk { k : qnum; d : qnum }.
End Stoch.

Module Period.
Record t : Type := mk {
  macd : option Macd.t;
  rsi : option Rsi.t;
  stoch : option Stoch.t
}.
End Period.

Record Indicators : Type := mkIndicators {
  daily : option Period.t;
  hourly1 : option Period.t;
  hourly2 : option Period.t
}.

(** The messages an evaluation pushes on [signals]. *)
Inductive Signal : Type :=
  | macd_hist_positive | macd_hist_negative
  | macd_above_signal | macd_below_signal
  | rsi_overbought | rsi_strong | rsi_mid_bullish
  | rsi_mid_bearish | rsi_weak | rsi_oversold
  | kd_overbought | kd_strong | kd_weak | kd_oversold
  | k_above_d | k_below_d.

Record Evaluation : Type := mkEvaluation {
  adjustment : qnum;
  signals : list Signal
}.

(** [evaluateMACD(macd)] *)
Definition evaluateMACD (macd : Macd.t) : Evaluation :=
  let signals := [] in
  let adjustment := Fin 0 in
  let '(adjustment, signals) :=
    if Macd.hist macd >? Fin 0
    then (adjustment + Fin 15, signals ++ [macd_hist_positive])
    else (adjustment - Fin 15, signals ++ [macd_hist_negative]) in
  let '(adjustment, signals) :=
    if Macd.macd macd >? Macd.signal macd
    then (adjustment + Fin 5, signals ++ [macd_above_signal])
    else (adjustment - Fin 5, signals ++ [macd_below_signal]) in
  {| adjustment := adjustment; signals := signals |}.

(** [evaluateRSI(rsi)] *)
Definition evaluateRSI (rsi : Rsi.t) : Evaluation :=
  let signals := [] in
  let adjustment := Fin 0 in
  let '(adjustment, signals) :=
    if Rsi.value rsi >? Fin 70
    then (adjustment - Fin 10, signals ++ [rsi_overbought])
    else if Rsi.value rsi >? Fin 60
    then (adjustment + Fin 5, signals ++ [rsi_strong])
    else if Rsi.value rsi >? Fin 50
    then (adjustment + Fin 10, signals ++ [rsi_mid_bullish])
    else if Rsi.value rsi >? Fin 40
    then (adjustment - Fin 10, signals ++ [rsi_mid_bearish])
    else if Rsi.value rsi >? Fin 30
    then (adjustment - Fin 5, signals ++ [rsi_weak])
    else (adjustment + Fin 10, signals ++ [rsi_oversold]) in
  {| adjustment := adjustment; signals := signals |}.

(** [evaluateSTOCH(stoch)] *)
Definition evaluateSTOCH (stoch : Stoch.t) : Evaluation :=
  let signals := [] in
  let adjustment := Fin 0 in
  let '(adjustment, signals) :=
    if Stoch.k stoch >? Fin 80
    then (adjustment - Fin 10, signals ++ [kd_overbought])
    else if Stoch.k stoch >? Fin 50
    then (adjustment + Fin 10, signals ++ [kd_strong])
    else if Stoch.k stoch >? Fin 20
    then (adjustment - Fin 10, signals ++ [kd_weak])
    else (adjustment + Fin 10, signals ++ [kd_oversold]) in
  let '(adjustment, signals) :=
    if Stoch.k stoch >? Stoch.d stoch
    then (adjustment + Fin 5, signals ++ [k_above_d])
    else (adjustment - Fin 5, signals ++ [k_below_d]) in
  {| adjustment := adjustment; signals := signals |}.

Record PeriodScore : Type := mkPeriodScore {
  score : qnum;
  trend : Trend;
  period_signals : list Signal
}.

(** The sum [calculatePeriodScore] holds before it clamps it. *)
Definition periodSum (macd : Macd.t) (rsi : Rsi.t) (stoch : Stoch.t)
  : qnum :=
  let score := Fin 50 in
  let score := score + adjustment (evaluateMACD macd) in
  let score := score + adjustment (evaluateRSI rsi) in
  let score := score + adjustment (evaluateSTOCH stoch) in
  score.

(** [calculatePeriodScore(periodData)] *)
Definition calculatePeriodScore (periodData : option Period.t)
  : PeriodScore :=
  match periodData with
  | Some {| Period.macd := Some macd; Period.rsi := Some rsi;
            Period.stoch := Some stoch |} =>
      let signals :=
        [] ++ signals (evaluateMACD macd) ++ signals (evaluateRSI rsi)
           ++ signals (evaluateSTOCH stoch) in
      let score := periodSum macd rsi stoch in
      let score := Js.max (Fin 0) (Js.min (Fin 100) score) in
      let trend :=
        if score >=? Fin 60 then bullish
        else if score <=? Fin 40 then bearish
        else neutral in
      {| score := round score; trend := trend; period_signals := signals |}
  | _ => {| score := Fin 50; trend := neutral; period_signals := [] |}
  end.

Inductive Strength : Type :=
  very_strong | strong | moderate | weak | very_weak.

(** [getStrength(score)] *)
Definition getStrength (score : qnum) : Strength :=
  if score >=? Fin 75 then very_strong
  else if score >=? Fin 60 then strong
  else if score >=? Fin 40 then moderate
  else if score >=? Fin 25 then weak
  else very_weak.

(** The seven sentences of [getInterpretation]. *)
Inductive Interpretation : Type :=
  | bull_very_strong | bull_clear | bull_mild
  | bear_very_strong | bear_clear | bear_mild
  | no_direction.

(** [getInterpretation(score, trend)] *)
Definition getInterpretation (score : qnum) (trend : Trend)
  : Interpretation :=
  match trend with
  | bullish =>
      if score >=? Fin 75 then bull_very_strong
      else if score >=? Fin 60 then bull_clear
      else bull_mild
  | bearish =>
      if score <=? Fin 25 then bear_very_strong
      else if score <=? Fin 40 then bear_clear
      else bear_mild
  | neutral => no_direction
  end.

Record Details : Type := mkDetails {
  d_daily : PeriodScore;
  d_hourly1 : PeriodScore;
  d_hourly2 : PeriodScore
}.

Record TAScore : Type := mkTAScore {
  ta_score : qnum;
  ta_trend : Trend;
  strength : Strength;
  details : Details;
  interpretation : Interpretation
}.

(** [trends.filter(t => t === x).length] *)
Definition count_trend (x : Trend) (trends : list Trend) : nat :=
  List.length (filter (fun t => Trend_eqb t x) trends).

(** The weighted sum [calculateTAScore] rounds. *)
Definition totalScore (scores : Details) : qnum :=
  score (d_daily scores) * Fin 0.5
  + score (d_hourly1 scores) * Fin 0.25
  + score (d_hourly2 scores) * Fin 0.25.

(** [calculateTAScore(indicators)] *)
Definition calculateTAScore (indicators : Indicators) : TAScore :=
  let scores :=
    {| d_daily := calculatePeriodScore (daily indicators);
       d_hourly1 := calculatePeriodScore (hourly1 indicators);
       d_hourly2 := calculatePeriodScore (hourly2 indicators) |} in
  let totalScore := totalScore scores in
  let trends :=
    [trend (d_daily scores); trend (d_hourly1 scores);
     trend (d_hourly2 scores)] in
  let bullishCount := count_trend bullish trends in
  let bearishCount := count_trend bearish trends in
  let overallTrend :=
    if (2 <=? bullishCount)%nat then bullish
    else if (2 <=? bearishCount)%nat then bearish
    else neutral in
  {| ta_score := round totalScore;
     ta_trend := overallTrend;
     strength := getStrength totalScore;
     details := scores;
     interpretation := getInterpretation totalScore overallTrend |}.

(** The part of the result the strategy engines read as [taScore]. *)
Definition to_ta (r : TAScore) : Ta.t :=
  {| Ta.score := ta_score r; Ta.trend := ta_trend r |}.

End TaScore.

(* ================================================================== *)
(** ** The IV rank ([src/lib/ivRank.js])                               *)
(* ================================================================== *)

Module IvRankCalc.

Local Open Scope Q_scope.
Local Open Scope js_scope.

Inductive Level : Type := unknown | very_high | high | medium | low.

Inductive Recommendation : Type :=
  insufficient_data | sell_premium | neutral | buy_options.

(** The result of [calculateIVRank]; [ivRank] is [null] without data, and
    the three copied numbers are only there in the last [return]. *)
Record Result : Type := mkResult {
  ivRank : option qnum;
  currentIV : option qnum;
  minIV : option qnum;
  maxIV : option qnum;
  level : Level;
  recommendation : Recommendation;
  interpretation : option Level
}.

(** The sentence of [getIVRankInterpretation(ivRank)], named by the level
    it speaks of. *)
Definition getIVRankInterpretation (ivRank : qnum) : Level :=
  if ivRank >=? Fin 75 then very_high
  else if ivRank >=? Fin 50 then high
  else if ivRank >=? Fin 25 then medium
  else low.

(** The rank before it is rounded. *)
Definition rawRank (currentIV minIV maxIV : qnum) : qnum :=
  ((currentIV - minIV) / (maxIV - minIV)) * Fin 100.

(** [calculateIVRank(currentIV, historicalIVs)]; a history of [None] is
    [null] or [undefined]. *)
Definition calculateIVRank (currentIV : qnum)
  (historicalIVs : option (list qnum)) : Result :=
  match historicalIVs with
  | Some (iv0 :: ivs) =>
      if negb (truthy currentIV) then
        {| ivRank := None; currentIV := None; minIV := None; maxIV := None;
           level := unknown; recommendation := insufficient_data;
           interpretation := None |}
      else
        let minIV := JsArray.min_of (iv0 :: ivs) in
        let maxIV := JsArray.max_of (iv0 :: ivs) in
        if JsArray.strict_eq maxIV minIV then
          {| ivRank := Some (Fin 50); currentIV := None; minIV := None;
             maxIV := None; level := medium; recommendation := neutral;
             interpretation := None |}
        else
          let ivRank := rawRank currentIV minIV maxIV in
          let '(level, recommendation) :=
            if ivRank >=? Fin 75 then (very_high, sell_premium)
            else if ivRank >=? Fin 50 then (high, sell_premium)
            else if ivRank >=? Fin 25 then (medium, neutral)
            else (low, buy_options) in
          {| ivRank := Some (round (ivRank * Fin 10) / Fin 10);
             currentIV := Some currentIV;
             minIV := Some minIV;
             maxIV := Some maxIV;
             level := level;
             recommendation := recommendation;
             interpretation := Some (getIVRankInterpretation ivRank) |}
  | _ =>
      {| ivRank := None; currentIV := None; minIV := None; maxIV := None;
         level := unknown; recommendation := insufficient_data;
         interpretation := None |}
  end.

(** [calculateIVPercentile(currentIV, historicalIVs)]; [None] is [null]. *)
Definition calculateIVPercentile (currentIV : qnum)
  (historicalIVs : option (list qnum)) : option qnum :=
  match historicalIVs with
  | Some (iv0 :: ivs) =>
      if negb (truthy currentIV) then None
      else
        let sorted := JsArray.sort_by (fun a b => a - b) (iv0 :: ivs) in
        let lowerCount :=
          JsArray.length_of (filter (fun iv => iv <? currentIV) sorted) in
        Some (round ((lowerCount / JsArray.length_of sorted) * Fin 100))
  | _ => None
  end.

End IvRankCalc.

(* ================================================================== *)
(** ** The gamma adjustment of the band ([adjustVolatilityWithGEX])    *)
(* ================================================================== *)

Module VolatilityGex.

Import Volatility.
Local Open Scope R_scope.
Local Open Scope js_scope.

(** The two properties of [gexData] the adjustment reads; an environment
    that is neither ['positive'] nor ['negative'] is [gamma_neutral] or
    absent. *)
Record GexData : Type := mkGexData {
  zero_gamma : value;
  gamma_environment : option GammaEnvironment
}.

Inductive GexNote : Type := note_positive | note_negative | note_none.

(** The result: the range, and the two properties an adjustment adds. *)
Record Adjusted : Type := mkAdjusted {
  range : VolatilityRange;
  gexAdjustment : option rnum;
  gexNote : option GexNote
}.

(** The factor of the gamma environment. *)
Definition environmentFactor (env : option GammaEnvironment) : rnum :=
  match env with
  | Some positive => Fin 0.85%R
  | Some negative => Fin 1.15%R
  | _ => Fin 1.0%R
  end.

(** The factor [adjustVolatilityWithGEX] ends with. *)
Definition adjustmentFactor (currentPrice zero_gamma : rnum)
  (env : option GammaEnvironment) : rnum :=
  let adjustmentFactor := environmentFactor env in
  let distanceToZeroGamma := abs (currentPrice - zero_gamma) in
  let distancePercent := distanceToZeroGamma / currentPrice in
  if distancePercent <? Fin 0.02%R then adjustmentFactor * Fin 1.1%R
  else adjustmentFactor.

(** [adjustVolatilityWithGEX(volatilityRange, gexData)]; [None] is [null]
    (or [undefined]). *)
Definition adjustVolatilityWithGEX (volatilityRange : option VolatilityRange)
  (gexData : option GexData) : option Adjusted :=
  match volatilityRange, gexData with
  | Some vr, Some gex =>
      if falsy (zero_gamma gex) then
        Some {| range := vr; gexAdjustment := None; gexNote := None |}
      else
        let factor :=
          adjustmentFactor (currentPrice vr) (to_number (zero_gamma gex))
            (gamma_environment gex) in
        Some
          {| range :=
               {| currentPrice := currentPrice vr;
                  iv := iv vr;
                  dte := dte vr;
                  oneSigma :=
                    {| upper :=
                         round (upper (oneSigma vr) * factor * Fin 100%R)
                         / Fin 100%R;
                       lower :=
                         round (lower (oneSigma vr) * factor * Fin 100%R)
                         / Fin 100%R;
                       move := move (oneSigma vr);
                       percent := percent (oneSigma vr);
                       probability := probability (oneSigma vr) |};
                  twoSigma := twoSigma vr |};
             gexAdjustment := Some factor;
             gexNote :=
               Some
                 match gamma_environment gex with
                 | Some positive => note_positive
                 | Some negative => note_negative
                 | _ => note_none
                 end |}
  | Some vr, None =>
      Some {| range := vr; gexAdjustment := None; gexNote := None |}
  | None, _ => None
  end.

End VolatilityGex.

(* ================================================================== *)
(** ** The response cache                                              *)
(* ================================================================== *)

(** The module-level [Map] of the cache, threaded through the four
    functions; [Date.now()] is an argument, in milliseconds.  Times and the
    [ttl] are integers.  A [Map] keeps its keys in insertion order and holds
    each key once; the cached data are not [null]. *)
Module Cache.

Section WithData.
Variable Data : Type.

Record Item : Type := mkItem { data : Data; expiry : Z }.

Definition t : Type := list (string * Item).

(** [cache.get(key)] *)
Fixpoint get (key : string) (cache : t) : option Item :=
  match cache with
  | [] => None
  | (k, item) :: rest =>
      if String.eqb k key then Some item else get key rest
  end.

(** [cache.set(key, item)]: a key that is there keeps its place. *)
Fixpoint set (key : string) (item : Item) (cache : t) : t :=
  match cache with
  | [] => [(key, item)]
  | (k, old) :: rest =>
      if String.eqb k key then (k, item) :: rest
      else (k, old) :: set key item rest
  end.

(** [cache.delete(key)] *)
Fixpoint delete (key : string) (cache : t) : t :=
  match cache with
  | [] => []
  | (k, item) :: rest =>
      if String.eqb k key then rest else (k, item) :: delete key rest
  end.

(** [getCache(key)] at the time [now]: the value returned ([None] is
    [null]) and the cache it leaves. *)
Definition getCache (now : Z) (key : string) (cache : t)
  : option Data * t :=
  match get key cache with
  | None => (None, cache)
  | Some item =>
      if (now >? expiry item)%Z then (None, delete key cache)
      else (Some (data item), cache)
  end.

(** [setCache(key, data, ttl)] at the time [now], [ttl] in seconds. *)
Definition setCache (now : Z) (key : string) (data : Data) (ttl : Z)
  (cache : t) : t :=
  let expiry := (now + ttl * 1000)%Z in
  set key {| data := data; expiry := expiry |} cache.

(** The default [ttl] of [setCache]. *)
Definition default_ttl : Z := 300.

(** [clearCache(key)]; a key of [None] is [undefined].  The empty string is
    falsy. *)
Definition clearCache (key : option string) (cache : t) : t :=
  match key with
  | Some k => if String.eqb k "" then [] else delete k cache
  | None => []
  end.

(** [cleanExpiredCache()] at the time [now]. *)
Definition cleanExpiredCache (now : Z) (cache : t) : t :=
  filter (fun entry => negb (now >? expiry (snd entry))%Z) cache.

End WithData.

Arguments data {Data} i.
Arguments expiry {Data} i.
Arguments mkItem {Data} data expiry.
Arguments get {Data} key cache.
Arguments set {Data} key item cache.
Arguments delete {Data} key cache.
Arguments getCache {Data} now key cache.
Arguments setCache {Data} now key data ttl cache.
Arguments clearCache {Data} key cache.
Arguments cleanExpiredCache {Data} now cache.

End Cache.

(* ================================================================== *)
(** ** The recommendation summary ([generateRecommendationSummary])    *)
(* ================================================================== *)

Module Summary.

(** [medals[rank - 1] || chart], at a rank that is a natural number. *)
Definition medal_at (rank : nat) : Medal :=
  match rank with
  | O => chart
  | S i => Ranker.medal_of i
  end.

(** [generateRecommendationSummary(strategy, rank)]; the [summary] sentence
    is left out. *)
Definition generateRecommendationSummary (strategy : Strategy) (rank : nat)
  : Strategy :=
  set_rank strategy rank (medal_at rank).

End Summary.

(* ================================================================== *)
(** ** The parser of the option chain ([parseOptionsChain])            *)
(* ================================================================== *)

(** A contract of the provider, after [parseFloat], [parseInt] and the
    [Date] subtraction: each numeric property is the number the parse gives
    ([NaN] when it fails), [msToExp] is [expiration - today] in
    milliseconds. *)
Module ChainParser.

Local Open Scope Q_scope.
Local Open Scope js_scope.

Record RawOption : Type := mkRawOption {
  strike : qnum;
  bid : qnum;
  ask : qnum;
  last : qnum;
  implied_volatility : qnum;
  delta : qnum;
  gamma : qnum;
  theta : qnum;
  vega : qnum;
  volume : qnum;
  open_interest : qnum;
  expiration : string;
  is_call : bool;
  msToExp : qnum
}.

(** [Math.round((expiration - today) / (1000 * 60 * 60 * 24))] *)
Definition daysToExp (option : RawOption) : qnum :=
  round (msToExp option / (Fin 1000 * Fin 60 * Fin 60 * Fin 24)).

(** [Math.abs(daysToExp - targetDTE) <= 3] *)
Definition inWindow (targetDTE : qnum) (option : RawOption) : bool :=
  abs (daysToExp option - targetDTE) <=? Fin 3.

(** The [optionData] object of a contract. *)
Definition optionData (option : RawOption) : RealPrice.OptionQuote :=
  {| RealPrice.strike := strike option;
     RealPrice.bid := JsArray.or_zero (bid option);
     RealPrice.ask := JsArray.or_zero (ask option);
     RealPrice.last := JsArray.or_zero (last option);
     RealPrice.mid :=
       (JsArray.or_zero (bid option) + JsArray.or_zero (ask option)) / Fin 2;
     RealPrice.iv := JsArray.or_zero (implied_volatility option);
     RealPrice.delta := JsArray.or_zero (delta option);
     RealPrice.gamma := JsArray.or_zero (gamma option);
     RealPrice.theta := JsArray.or_zero (theta option);
     RealPrice.vega := JsArray.or_zero (vega option);
     RealPrice.volume := JsArray.or_zero (volume option);
     RealPrice.openInterest := JsArray.or_zero (open_interest option);
     RealPrice.expiration := expiration option;
     RealPrice.daysToExp := daysToExp option |}.

(** [(a, b) => a.strike - b.strike] *)
Definition byStrike (a b : RealPrice.OptionQuote) : qnum :=
  RealPrice.strike a - RealPrice.strike b.

(** [parseOptionsChain(data, targetDTE)] *)
Definition parseOptionsChain (data : list RawOption) (targetDTE : qnum)
  : RealPrice.OptionsChain :=
  let kept := filter (inWindow targetDTE) data in
  let calls := map optionData (filter is_call kept) in
  let puts := map optionData (filter (fun o => negb (is_call o)) kept) in
  {| RealPrice.calls := JsArray.sort_by byStrike calls;
     RealPrice.puts := JsArray.sort_by byStrike puts |}.

End ChainParser.

(* ================================================================== *)
(** ** Auxiliary definitions of the statements on the libraries        *)
(* ================================================================== *)

Module LibSpec.

Import EngineSpec.
Local Open Scope Q_scope.

(** *** The technical score *)

(** The trend of a period score. *)
Definition trend_of (z : Z) : Trend :=
  if (60 <=? z)%Z then bullish
  else if (z <=? 40)%Z then bearish
  else neutral.

(** A period score: a multiple of 5 between 5 and 95, and its trend. *)
Definition period_shape (s : TaScore.PeriodScore) : Prop :=
  exists z : Z,
    TaScore.score s = Fin (inject_Z z) /\
    (5 <= z <= 95)%Z /\ (z mod 5 = 0)%Z /\
    TaScore.trend s = trend_of z.

(** A period with its three indicators. *)
Definition complete (p : option TaScore.Period.t) : Prop :=
  exists m r s,
    p = Some {| TaScore.Period.macd := Some m; TaScore.Period.rsi := Some r;
                TaScore.Period.stoch := Some s |}.

(** Indicator values for examples. *)
Definition sample_period (h r k : Q) : option TaScore.Period.t :=
  Some {| TaScore.Period.macd :=
            Some {| TaScore.Macd.hist := Fin h; TaScore.Macd.macd := Fin h;
                    TaScore.Macd.signal := Fin 0 |};
          TaScore.Period.rsi := Some {| TaScore.Rsi.value := Fin r |};
          TaScore.Period.stoch :=
            Some {| TaScore.Stoch.k := Fin k; TaScore.Stoch.d := Fin 50 |} |}.

(** *** The IV rank *)

(** The rank before rounding, at finite numbers. *)
Definition rank_value (c lo hi : Q) : Q := (c - lo) / (hi - lo) * 100.

(** The ranks a level is given at: the thresholds 75, 50 and 25 of the
    source, each with a margin of a thousandth on both sides. *)
Definition level_band (l : IvRankCalc.Level) (v : Q) : Prop :=
  match l with
  | IvRankCalc.very_high => 75 - (1 # 1000) <= v
  | IvRankCalc.high => 50 - (1 # 1000) <= v <= 75 + (1 # 1000)
  | IvRankCalc.medium => 25 - (1 # 1000) <= v <= 50 + (1 # 1000)
  | IvRankCalc.low => v <= 25 + (1 # 1000)
  | IvRankCalc.unknown => False
  end.

(** The recommendation that goes with a level. *)
Definition advice (l : IvRankCalc.Level) : IvRankCalc.Recommendation :=
  match l with
  | IvRankCalc.very_high | IvRankCalc.high => IvRankCalc.sell_premium
  | IvRankCalc.medium => IvRankCalc.neutral
  | IvRankCalc.low => IvRankCalc.buy_options
  | IvRankCalc.unknown => IvRankCalc.insufficient_data
  end.

(** The number of entries of a history below a value. *)
Definition below (c : Q) (h : list qnum) : nat :=
  List.length (filter (fun iv => Js.ltb iv (Fin c)) h).

(** The percentile of a count among [n] entries, before rounding. *)
Definition percent_of (k n : nat) : Q :=
  inject_Z (Z.of_nat k) / inject_Z (Z.of_nat n) * 100.

(** *** The cache *)

(** The invariant of a [Map]: every key is held once. *)
Definition unique_keys {Data : Type} (cache : Cache.t Data) : Prop :=
  NoDup (map fst cache).

(** What a caller reads under [key] at the time [now]. *)
Definition reads {Data : Type} (now : Z) (key : string)
  (cache : Cache.t Data) : option Data :=
  fst (Cache.getCache now key cache).

(** *** The risk of a credit generator *)

(** The maximal risk and the return on capital of a credit candidate with a
    wing of 10, on the credit per contract [c]: the risk is
    [1000 * contracts - netCredit], positive while [c] is at most 999 and
    not positive from 1000 on; the return is an integer of its sign, and
    [Infinity] at a risk of zero. *)
Definition risk_profile (c : Q) (s : Strategy) : Prop :=
  exists (n N : Z) (q : Q),
    contracts s = Fin (inject_Z n) /\
    netCredit s = Some (Fin (inject_Z N)) /\
    maxRisk s = Fin q /\ q == inject_Z (1000 * n - N) /\
    (1 <= n)%Z /\ (150 <= N)%Z /\
    (c <= 999 -> (0 < 1000 * n - N)%Z) /\
    (1000 <= c -> (1000 * n - N <= 0)%Z) /\
    ((0 < 1000 * n - N)%Z ->
     exists r : Z, roc s = Fin (inject_Z r) /\ (0 <= r)%Z) /\
    ((1000 * n - N = 0)%Z -> roc s = PInf) /\
    ((1000 * n - N < 0)%Z ->
     exists r : Z, roc s = Fin (inject_Z r) /\ (r <= 0)%Z).

(** *** The real-price blocks *)

(** Every contract of the chain has a finite mid price. *)
Definition finite_mids (chain : RealPrice.OptionsChain) : Prop :=
  Forall (fun o => is_finite (RealPrice.mid o)) (RealPrice.calls chain) /\
  Forall (fun o => is_finite (RealPrice.mid o)) (RealPrice.puts chain).

(** How a real-price block sizes a candidate on the credit per contract
    [c] its legs quote: by the ceiling rule on a positive credit; without
    bound, and without a number for the credit, the return and the score, on
    a credit of zero; by one contract, at a net credit that is not positive,
    on a negative credit. *)
Definition real_sized (c : Q) (s : Strategy) : Prop :=
  (0 < c -> sized_by c (contracts s) (netCredit s)) /\
  (c == 0 ->
   contracts s = PInf /\ netCredit s = Some NaN /\ roc s = NaN /\
   forall ivr ta gex, RealPrice.calcScore s ivr ta gex = NaN) /\
  (c < 0 ->
   contracts s = Fin 1 /\
   exists z : Z, netCredit s = Some (Fin (inject_Z z)) /\ (z <= 0)%Z).

(** The credit of four legs is a sum of four terms, which a double only
    holds up to its last bit: it is compared with zero at a margin of a
    cent. *)
Definition apart_from_zero (c : Q) : Prop := 1 # 100 <= Qabs c.

(** A contract without quotes: the parser gives it a mid price of 0. *)
Definition unquoted (k : Q) : RealPrice.OptionQuote :=
  {| RealPrice.strike := Fin k;
     RealPrice.bid := Fin 0; RealPrice.ask := Fin 0; RealPrice.last := Fin 0;
     RealPrice.mid := Fin 0; RealPrice.iv := Fin 0;
     RealPrice.delta := Fin 0; RealPrice.gamma := Fin 0;
     RealPrice.theta := Fin 0; RealPrice.vega := Fin 0;
     RealPrice.volume := Fin 0; RealPrice.openInterest := Fin 0;
     RealPrice.expiration := "2025-01-17"%string;
     RealPrice.daysToExp := Fin 7 |}.

(** A chain of two contracts without quotes. *)
Definition unquoted_chain : RealPrice.OptionsChain :=
  {| RealPrice.calls := [unquoted 260]; RealPrice.puts := [unquoted 240] |}.

(** The contracts of a chain, puts first. *)
Definition legs (chain : RealPrice.OptionsChain)
  : list RealPrice.OptionQuote :=
  RealPrice.puts chain ++ RealPrice.calls chain.

(** The mid price of a contract of the chain. *)
Definition quoted (chain : RealPrice.OptionsChain) (m : Q) : Prop :=
  exists o, In o (legs chain) /\ RealPrice.mid o = Fin m.

(** *** The parser of the chain *)

(** What [parseFloat] gives on a decimal string: a finite number, or [NaN]
    when there is none. *)
Definition parsed_number (a : qnum) : Prop := a = NaN \/ is_finite a.

(** The quotes of a contract were parsed from decimal strings. *)
Definition parsed_quotes (raw : ChainParser.RawOption) : Prop :=
  parsed_number (ChainParser.bid raw) /\ parsed_number (ChainParser.ask raw).

(** Strikes do not decrease along the list. *)
Definition ascending (l : list RealPrice.OptionQuote) : Prop :=
  StronglySorted
    (fun a b => value_of (RealPrice.strike a) <= value_of (RealPrice.strike b))
    l.

(** The contracts of the provider [parseOptionsChain] keeps on one side. *)
Definition kept (targetDTE : qnum) (call : bool)
  (data : list ChainParser.RawOption) : list ChainParser.RawOption :=
  filter (fun raw => ChainParser.inWindow targetDTE raw
                     && Bool.eqb (ChainParser.is_call raw) call) data.

(** A contract of the provider with the given strike, quotes and time to
    expiry in days, for examples. *)
Definition sample_raw (call : bool) (k : Q) (b a : qnum) (days : Q)
  : ChainParser.RawOption :=
  {| ChainParser.strike := Fin k;
     ChainParser.bid := b; ChainParser.ask := a; ChainParser.last := NaN;
     ChainParser.implied_volatility := Fin 0.3;
     ChainParser.delta := NaN; ChainParser.gamma := NaN;
     ChainParser.theta := NaN; ChainParser.vega := NaN;
     ChainParser.volume := Fin 10; ChainParser.open_interest := Fin 100;
     ChainParser.expiration := "2025-01-17"%string;
     ChainParser.is_call := call;
     ChainParser.msToExp := Fin (days * 86400000) |}.

End LibSpec.

(* ================================================================== *)
(** ** Facts about the volatility module                               *)
(* ================================================================== *)

Section VolatilityFacts.

Import Volatility Spec.
Local Open Scope R_scope.

(** *** Signs and comparisons at [R] *)

Lemma Rsgn_pos (x : R) : 0 < x -> sgn x = Gt.
Proof.
  intros Hx. unfold sgn. simpl.
  destruct (Rcompare_spec x 0); [lra | lra | reflexivity].
Qed.

Lemma Rsgn_neg (x : R) : x < 0 -> sgn x = Lt.
Proof.
  intros Hx. unfold sgn. simpl.
  destruct (Rcompare_spec x 0); [lra | reflexivity | lra].
Qed.

Lemma Rsgn_zero : sgn 0 = Eq.
Proof.
  unfold sgn. simpl.
  destruct (Rcompare_spec 0 0); [reflexivity | lra | lra].
Qed.

Lemma Rsgn_Eq (x : R) : sgn x = Eq <-> x = 0.
Proof.
  unfold sgn. simpl.
  destruct (Rcompare_spec x 0); split; intros; try discriminate; try lra;
    reflexivity.
Qed.

Lemma Rltb_fin (x y : R) : Js.ltb (Fin x) (Fin y) = true <-> x < y.
Proof.
  unfold Js.ltb. simpl.
  destruct (Rcompare_spec x y); split; intros; try discriminate; try lra;
    reflexivity.
Qed.

Lemma Rltb_fin_false (x y : R) : Js.ltb (Fin x) (Fin y) = false <-> y <= x.
Proof.
  unfold Js.ltb. simpl.
  destruct (Rcompare_spec x y); split; intros; try discriminate; try lra;
    reflexivity.
Qed.

Lemma Rleb_fin (x y : R) : Js.leb (Fin x) (Fin y) = true <-> x <= y.
Proof.
  unfold Js.leb. simpl.
  destruct (Rcompare_spec x y); split; intros; try discriminate; try lra;
    reflexivity.
Qed.

Lemma Rdiv_fin (x y : R) : y <> 0 -> (Fin x / Fin y)%js = Fin (x / y).
Proof.
  intros Hy. unfold Js.div.
  destruct (sgn y) eqn:E; try reflexivity.
  apply Rsgn_Eq in E. contradiction.
Qed.

Lemma Rsqrt_fin (x : R) : 0 <= x -> Volatility.sqrt (Fin x) = Fin (R_sqrt.sqrt x).
Proof.
  intros Hx. unfold Volatility.sqrt.
  destruct (sgn x) eqn:E; try reflexivity.
  unfold sgn in E. simpl in E.
  destruct (Rcompare_spec x 0); try discriminate. lra.
Qed.

Lemma Rtruthy_fin (x : R) : truthy (Fin x) = true <-> x <> 0.
Proof.
  unfold truthy. destruct (sgn x) eqn:E.
  - apply Rsgn_Eq in E. split; [discriminate | contradiction].
  - split; [|reflexivity]. intros _ Hx. apply Rsgn_Eq in Hx. congruence.
  - split; [|reflexivity]. intros _ Hx. apply Rsgn_Eq in Hx. congruence.
Qed.

Lemma falsy_fin (x : R) : falsy (Num (Fin x)) = false <-> x <> 0.
Proof.
  unfold falsy. rewrite negb_false_iff. apply Rtruthy_fin.
Qed.

(** *** Rounding to cents *)

Lemma round2_fin (x : R) : round2 (Fin x) = Fin (cents x).
Proof.
  unfold round2. cbn [Js.mul Js.round].
  rewrite Rdiv_fin by lra. reflexivity.
Qed.

Lemma cents_le (x y : R) : x <= y -> cents x <= cents y.
Proof.
  intros Hxy. unfold cents.
  assert (H : (Zfloor (x * 100 + 1 / 2) <= Zfloor (y * 100 + 1 / 2))%Z)
    by (apply Zfloor_le; lra).
  apply IZR_le in H. lra.
Qed.

Lemma cents_bound (x : R) : x - 1 / 200 < cents x <= x + 1 / 200.
Proof.
  unfold cents.
  pose proof (Zfloor_bound (x * 100 + 1 / 2)) as [H1 H2]. lra.
Qed.

Lemma cents_step (x y : R) : x + 1 / 100 <= y -> cents x < cents y.
Proof.
  intros Hxy. unfold cents.
  assert (H : (Zfloor (x * 100 + 1 / 2) + 1 <= Zfloor (y * 100 + 1 / 2))%Z).
  { rewrite <- Zfloor_addz. apply Zfloor_le. lra. }
  apply IZR_le in H. rewrite plus_IZR in H. lra.
Qed.

(** *** The band *)

Lemma sigma_move_pos (price iv dte : R) :
  0 < price -> 0 < iv -> 0 < dte -> 0 < sigma_move price iv dte.
Proof.
  intros Hp Hv Hd. unfold sigma_move.
  assert (Hs : 0 < R_sqrt.sqrt (dte / 365)).
  { apply sqrt_lt_R0. apply Rdiv_lt_0_compat; lra. }
  apply Rmult_lt_0_compat; [apply Rmult_lt_0_compat|]; assumption.
Qed.

(** The band of a guarded call on finite, non-zero price and volatility and a
    positive horizon. *)
Lemma calculateVolatilityRange_fin (price iv dte : R) :
  price <> 0 -> iv <> 0 -> 0 < dte ->
  let m := sigma_move price iv dte in
  calculateVolatilityRange (Num (Fin price)) (Num (Fin iv)) (Num (Fin dte)) =
  Some {|
    currentPrice := Fin price;
    Volatility.iv := Fin iv;
    Volatility.dte := Fin dte;
    oneSigma := {|
      upper := Fin (cents (price + m));
      lower := Fin (cents (price - m));
      move := Fin (cents m);
      percent := Fin (cents (m / price * 100));
      probability := Fin 68.2
    |};
    twoSigma := {|
      upper := Fin (cents (price + m * 2));
      lower := Fin (cents (price - m * 2));
      move := Fin (cents (m * 2));
      percent := Fin (cents (m * 2 / price * 100));
      probability := Fin 95.4
    |}
  |}.
Proof.
  intros Hp Hv Hd m. unfold calculateVolatilityRange.
  assert (Fp : falsy (Num (Fin price)) = false) by (apply falsy_fin; lra).
  assert (Fv : falsy (Num (Fin iv)) = false) by (apply falsy_fin; lra).
  assert (Fd : falsy (Num (Fin dte)) = false) by (apply falsy_fin; lra).
  rewrite Fp, Fv, Fd. cbn [orb to_number].
  rewrite Rdiv_fin by lra.
  rewrite Rsqrt_fin by (apply Rlt_le, Rdiv_lt_0_compat; lra).
  cbn [Js.mul Js.add Js.sub].
  rewrite !(Rdiv_fin _ _ Hp).
  cbn [Js.mul]. rewrite !round2_fin. reflexivity.
Qed.

(** C6 (as amended).  For positive price, volatility and horizon the band
    is returned, and each of its figures lies within a cent of the exact
    quantity: the one-sigma move of [price * iv * sqrt (dte / 365)], the
    two-sigma move of twice that, the bounds of [price -+ move].  The exact
    move is positive and the returned bounds are ordered weakly, the
    two-sigma band around the one-sigma band.  The one-sigma band lies
    strictly around the price as soon as the exact move is at least one
    cent, and strictly inside the two-sigma band as soon as it is at least
    two cents. *)
Theorem computeBand_rounded (price iv dte : R) :
  0 < price -> 0 < iv -> 0 < dte ->
  let m := sigma_move price iv dte in
  exists (b : VolatilityRange) (m1 m2 l1 u1 l2 u2 : R),
    calculateVolatilityRange (Num (Fin price)) (Num (Fin iv)) (Num (Fin dte))
    = Some b /\
    0 < m /\
    move (oneSigma b) = Fin m1 /\ move (twoSigma b) = Fin m2 /\
    lower (oneSigma b) = Fin l1 /\ upper (oneSigma b) = Fin u1 /\
    lower (twoSigma b) = Fin l2 /\ upper (twoSigma b) = Fin u2 /\
    within (1 / 100) m1 m /\ within (1 / 100) m2 (2 * m) /\
    within (1 / 100) l1 (price - m) /\ within (1 / 100) u1 (price + m) /\
    within (1 / 100) l2 (price - 2 * m) /\
    within (1 / 100) u2 (price + 2 * m) /\
    (0 <= m1 <= m2 /\ l2 <= l1 <= u1 /\ u1 <= u2) /\
    (1 / 100 <= m -> l1 < price < u1) /\
    (1 / 50 <= m -> l2 < l1 /\ u1 < u2).
Proof.
  intros Hp Hv Hd m.
  pose proof (sigma_move_pos price iv dte Hp Hv Hd) as Hm. fold m in Hm.
  pose proof (calculateVolatilityRange_fin price iv dte
                ltac:(lra) ltac:(lra) Hd) as Eb.
  cbv zeta in Eb. fold m in Eb.
  eexists. exists (cents m), (cents (m * 2)).
  exists (cents (price - m)), (cents (price + m)).
  exists (cents (price - m * 2)), (cents (price + m * 2)).
  split; [exact Eb|].
  cbn [oneSigma twoSigma move lower upper].
  split; [exact Hm|]. do 6 (split; [reflexivity|]).
  pose proof (cents_bound m) as Bm1.
  pose proof (cents_bound (m * 2)) as Bm2.
  pose proof (cents_bound (price - m)) as Bl1.
  pose proof (cents_bound (price + m)) as Bu1.
  pose proof (cents_bound (price - m * 2)) as Bl2.
  pose proof (cents_bound (price + m * 2)) as Bu2.
  assert (Z0 : cents 0 = 0).
  { unfold cents. rewrite (Zfloor_eq 0); simpl; lra. }
  unfold within.
  repeat split; try (apply Rabs_le; lra); intros;
    try (rewrite <- Z0; apply cents_le; lra);
    try (apply cents_le; lra); try (apply cents_step; lra); lra.
Qed.

Lemma computeBand_rounded_witness :
  exists (b : VolatilityRange) (l1 u1 : R),
    calculateVolatilityRange (Num (Fin 100)) (Num (Fin 0.2)) (Num (Fin 365))
    = Some b /\
    lower (oneSigma b) = Fin l1 /\ upper (oneSigma b) = Fin u1 /\
    within (1 / 100) l1 (100 - sigma_move 100 0.2 365) /\
    within (1 / 100) u1 (100 + sigma_move 100 0.2 365).
Proof.
  destruct (computeBand_rounded 100 0.2 365)
    as (b & m1 & m2 & l1 & u1 & l2 & u2 & Hb & _ & _ & _ & Hl & Hu & _ & _
        & _ & _ & Wl & Wu & _);
    try lra.
  exists b, l1, u1. repeat split; assumption.
Defined.

(** C6, as stated, fails: at price 1, volatility 5% and one day to expiry
    the move is below half a cent and the returned upper bound is the price
    itself. *)
Lemma computeBand_strict_counterexample :
  ~ band_claim 1 0.05 1.
Proof.
  intros (b & Hb & _ & Hup & _).
  rewrite calculateVolatilityRange_fin in Hb by lra.
  injection Hb as <-. cbn [oneSigma upper] in Hup.
  apply Rltb_fin in Hup.
  assert (Hs : 0 <= R_sqrt.sqrt (1 / 365) < 1 / 10).
  { split; [apply sqrt_pos|].
    replace (1 / 10) with (R_sqrt.sqrt (1 / 10 * (1 / 10)))
      by (apply sqrt_square; lra).
    apply sqrt_lt_1; lra. }
  unfold sigma_move, cents in Hup.
  rewrite (Zfloor_eq 100) in Hup by (split; simpl; lra). lra.
Qed.

(** *** The guards *)

Lemma falsy_absent_or_zero (v : value) :
  falsy v = true <-> absent_or_zero v.
Proof.
  unfold absent_or_zero. destruct v as [|[| |x|]]; cbn [falsy truthy negb].
  - split; auto.
  - split; auto.
  - split; [discriminate|]. intros [H|[H|H]]; discriminate.
  - destruct (sgn x) eqn:E; cbn [negb].
    + apply Rsgn_Eq in E. subst x. split; auto.
    + split; [discriminate|]. intros [H|[H|H]]; try discriminate.
      injection H as ->. rewrite Rsgn_zero in E. discriminate.
    + split; [discriminate|]. intros [H|[H|H]]; try discriminate.
      injection H as ->. rewrite Rsgn_zero in E. discriminate.
  - split; [discriminate|]. intros [H|[H|H]]; discriminate.
Qed.

(** C7 (as amended).  The band is refused exactly when the price, the
    volatility or the horizon is missing, [NaN] or zero; every other input,
    a negative one included, gets a band, and so does every strictly
    positive input. *)
Theorem computeBand_refuses_absent_or_zero (price iv dte : value) :
  (calculateVolatilityRange price iv dte = None <->
   absent_or_zero price \/ absent_or_zero iv \/ absent_or_zero dte) /\
  (forall x y z : R,
      price = Num (Fin x) -> iv = Num (Fin y) -> dte = Num (Fin z) ->
      0 < x -> 0 < y -> 0 < z ->
      exists b, calculateVolatilityRange price iv dte = Some b).
Proof.
  split.
  - rewrite <- !falsy_absent_or_zero. unfold calculateVolatilityRange.
    destruct (falsy price), (falsy iv), (falsy dte); cbn [orb];
      split; auto; try discriminate;
      intros [H|[H|H]]; discriminate.
  - intros x y z -> -> -> Hx Hy Hz.
    rewrite calculateVolatilityRange_fin by lra. eexists. reflexivity.
Qed.

Lemma computeBand_refuses_absent_or_zero_witness :
  calculateVolatilityRange (Num (Fin 0)) (Num (Fin 0.2)) (Num (Fin 7)) = None
  /\ exists b,
      calculateVolatilityRange (Num (Fin 250.5)) (Num (Fin 0.35)) (Num (Fin 7))
      = Some b.
Proof.
  split.
  - apply (computeBand_refuses_absent_or_zero
             (Num (Fin 0)) (Num (Fin 0.2)) (Num (Fin 7))).
    left. right. right. reflexivity.
  - apply (proj2 (computeBand_refuses_absent_or_zero
             (Num (Fin 250.5)) (Num (Fin 0.35)) (Num (Fin 7)))
             250.5 0.35 7); try reflexivity; lra.
Defined.

(** C7, as stated, fails: a negative price is not refused. *)
Lemma computeBand_negative_counterexample :
  ~ refusal_claim (Num (Fin (-100))) (Num (Fin 0.2)) (Num (Fin 365)).
Proof.
  intros H.
  assert (Hneg : missing_zero_or_negative (Num (Fin (-100)))).
  { cbn [missing_zero_or_negative]. apply Rleb_fin. lra. }
  specialize (H (or_introl Hneg)).
  rewrite calculateVolatilityRange_fin in H by lra. discriminate.
Qed.


(** C10.  Whatever the other arguments are, a lower or an upper bound that is
    exactly [0] makes [calculateProbabilityInRange] return [null]. *)
Theorem probabilityInRange_zero_bound (price other iv dte : value) :
  calculateProbabilityInRange price (Num (Fin 0)) other iv dte = None /\
  calculateProbabilityInRange price other (Num (Fin 0)) iv dte = None.
Proof.
  assert (F0 : falsy (Num (Fin 0)) = true).
  { apply falsy_absent_or_zero. right. right. reflexivity. }
  unfold calculateProbabilityInRange. rewrite F0.
  split.
  - destruct (falsy price); reflexivity.
  - destruct (falsy price), (falsy other); reflexivity.
Qed.

(** *** The distribution function *)

(** Decimal literals of [R] as quotients of integers, for [field]. *)
Ltac decimals := unfold Q2R; cbn [QArith_base.Qnum QArith_base.Qden].

Lemma quad_pos (a b c u : R) :
  0 < a -> b * b < 4 * a * c -> 0 < a * (u * u) + b * u + c.
Proof.
  intros Ha Hd.
  pose proof (Rle_0_sqr (2 * a * u + b)) as H. unfold Rsqr in H.
  assert (H4 : 0 < 4 * a * (a * (u * u) + b * u + c)) by nra.
  nra.
Qed.

Lemma slope0_pos (u : R) : 0 < slope0 u.
Proof.
  unfold slope0.
  assert (H1 : 0 < 0.4 * (u * u) + -0.3565638 * u + 0.3193815)
    by (apply quad_pos; lra).
  assert (H2 : 0 < 0.415710625 * (u * u) + -0.910628 * u + 0.9361085)
    by (apply quad_pos; lra).
  pose proof (Rle_0_sqr u) as Hu. unfold Rsqr in Hu.
  nra.
Qed.

Lemma slope1_pos (u : R) : 0 < slope1 u.
Proof.
  unfold slope1.
  pose proof (quad_pos 0.83142125 (-0.910628) 0.4453695 u). lra.
Qed.

Lemma tail_poly_diff (s t : R) :
  tail_poly t - tail_poly s =
  (t - s) * (slope0 (s + t) + (s - t) * (s - t) * slope1 (s + t)
             + 0.083142125 * ((s - t) * (s - t) * ((s - t) * (s - t)))).
Proof. unfold tail_poly, slope0, slope1. decimals. field. Qed.

Lemma tail_poly_incr (s t : R) : s <= t -> tail_poly s <= tail_poly t.
Proof.
  intros Hst.
  pose proof (tail_poly_diff s t) as Hd.
  pose proof (slope0_pos (s + t)). pose proof (slope1_pos (s + t)).
  pose proof (Rle_0_sqr (s - t)) as Hw. unfold Rsqr in Hw.
  assert (0 <= (s - t) * (s - t) * slope1 (s + t))
    by (apply Rmult_le_pos; lra).
  assert (0 <= (s - t) * (s - t) * ((s - t) * (s - t)))
    by (apply Rmult_le_pos; lra).
  assert (0 <= (t - s) *
               (slope0 (s + t) + (s - t) * (s - t) * slope1 (s + t)
                + 0.083142125 * ((s - t) * (s - t) * ((s - t) * (s - t)))))
    by (apply Rmult_le_pos; lra).
  lra.
Qed.

Lemma tail_poly_0 : tail_poly 0 = 0.
Proof. unfold tail_poly. lra. Qed.

Lemma tail_poly_1 : tail_poly 1 = 1.2533137.
Proof. unfold tail_poly. lra. Qed.

Lemma tvar_range (z : R) : 0 < tvar z <= 1.
Proof.
  unfold tvar. pose proof (Rabs_pos z) as Hz.
  assert (Hd : 1 <= 1 + 0.2316419 * Rabs z) by nra.
  split.
  - apply Rdiv_lt_0_compat; lra.
  - unfold Rdiv. rewrite Rmult_1_l. rewrite <- Rinv_1 at 2.
    apply Rinv_le_contravar; lra.
Qed.

Lemma tvar_decr (a b : R) : Rabs a <= Rabs b -> tvar b <= tvar a.
Proof.
  intros Hab. unfold tvar. pose proof (Rabs_pos a) as Ha.
  unfold Rdiv. rewrite !Rmult_1_l.
  apply Rinv_le_contravar; nra.
Qed.

Lemma tail_alt (z : R) :
  tail z = 0.3989423 * Rtrigo_def.exp (- z * z / 2) * tail_poly (tvar z).
Proof. unfold tail, tail_poly. ring. Qed.

Lemma exp_decr (a b : R) :
  Rabs a <= Rabs b ->
  Rtrigo_def.exp (- b * b / 2) <= Rtrigo_def.exp (- a * a / 2).
Proof.
  intros Hab.
  assert (Hsq : a * a <= b * b).
  { pose proof (Rabs_pos a). 
    replace (a * a) with (Rabs a * Rabs a).
    2:{ fold (Rsqr (Rabs a)). rewrite <- Rsqr_abs. reflexivity. }
    replace (b * b) with (Rabs b * Rabs b).
    2:{ fold (Rsqr (Rabs b)). rewrite <- Rsqr_abs. reflexivity. }
    nra. }
  destruct (Req_dec (- b * b / 2) (- a * a / 2)) as [-> | Hne].
  - lra.
  - left. apply exp_increasing. lra.
Qed.

(** [prob] is non-negative and shrinks as [|z|] grows. *)
Lemma tail_nonneg (z : R) : 0 <= tail z.
Proof.
  rewrite tail_alt.
  pose proof (exp_pos (- z * z / 2)).
  pose proof (tvar_range z) as [Ht _].
  pose proof (tail_poly_incr 0 (tvar z) (Rlt_le _ _ Ht)) as Hq.
  rewrite tail_poly_0 in Hq.
  apply Rmult_le_pos; [apply Rmult_le_pos|]; lra.
Qed.

Lemma tail_decr (a b : R) : Rabs a <= Rabs b -> tail b <= tail a.
Proof.
  intros Hab. rewrite !tail_alt.
  pose proof (exp_pos (- b * b / 2)) as Heb.
  pose proof (exp_decr a b Hab) as He.
  pose proof (tail_poly_incr _ _ (tvar_decr a b Hab)) as Hq.
  pose proof (tvar_range b) as [Htb _].
  pose proof (tail_poly_incr 0 (tvar b) (Rlt_le _ _ Htb)) as Hqb.
  rewrite tail_poly_0 in Hqb.
  rewrite !Rmult_assoc. apply Rmult_le_compat_l; [lra|].
  apply Rmult_le_compat; lra.
Qed.

Lemma tail_at_0 : tail 0 <= 1 / 2.
Proof.
  rewrite tail_alt. unfold tvar. rewrite Rabs_R0.
  replace (- 0 * 0 / 2) with 0 by lra. rewrite exp_0.
  replace (1 / (1 + 0.2316419 * 0)) with 1 by lra.
  rewrite tail_poly_1. lra.
Qed.

Lemma tail_le_half (z : R) : tail z <= 1 / 2.
Proof.
  apply Rle_trans with (tail 0); [|apply tail_at_0].
  apply tail_decr. rewrite Rabs_R0. apply Rabs_pos.
Qed.

Lemma cdf_range (z : R) : 0 <= cdf z <= 1.
Proof.
  unfold cdf. pose proof (tail_nonneg z). pose proof (tail_le_half z).
  destruct (Rlt_dec 0 z); lra.
Qed.


(** *** [normalCDF] on numbers *)

Lemma Rabs_fin (z : R) : Js.abs (Fin z) = Fin (Rabs z).
Proof.
  unfold Js.abs, sgn. simpl.
  destruct (Rcompare_spec z 0) as [-> | Hz | Hz].
  - rewrite Rabs_R0. reflexivity.
  - rewrite Rabs_left by lra. reflexivity.
  - rewrite Rabs_right by lra. reflexivity.
Qed.

Lemma normalCDF_fin (z : R) : normalCDF (Fin z) = Fin (cdf z).
Proof.
  unfold normalCDF. rewrite Rabs_fin.
  cbn [Js.mul Js.add Js.neg fadd fmul fopp RField].
  pose proof (Rabs_pos z) as Hz.
  rewrite !Rdiv_fin by nra.
  cbn [Volatility.exp Js.mul Js.add fadd fmul RField].
  unfold Js.gtb, cdf, tail, tvar.
  destruct (Rlt_dec 0 z) as [Hpos | Hneg].
  - apply Rltb_fin in Hpos. rewrite Hpos. reflexivity.
  - assert (Hf : Js.ltb (Fin 0) (Fin z) = false) by (apply Rltb_fin_false; lra).
    rewrite Hf. reflexivity.
Qed.

Lemma normalCDF_PInf : normalCDF PInf = Fin 1.
Proof.
  unfold normalCDF. cbn [Js.abs Js.neg Js.mul].
  rewrite !Rsgn_pos by lra.
  cbn [inf_of Js.add Js.div Js.mul Volatility.exp].
  rewrite !Rsgn_pos by lra.
  cbn [Volatility.exp Js.mul Js.add Js.gtb Js.ltb Js.compare Js.sub]. 
  f_equal. simpl. lra.
Qed.

Lemma normalCDF_NInf : normalCDF NInf = Fin 0.
Proof.
  unfold normalCDF. cbn [Js.abs Js.neg Js.mul].
  rewrite !Rsgn_pos by lra.
  cbn [inf_of Js.add Js.div Js.mul Volatility.exp].
  rewrite !Rsgn_pos by lra.
  cbn [Volatility.exp Js.mul Js.add Js.gtb Js.ltb Js.compare Js.sub]. 
  f_equal. simpl. lra.
Qed.

Lemma normalCDF_value (a : rnum) :
  is_nan a = false -> normalCDF a = Fin (cdfx a).
Proof.
  destruct a as [| |z|]; cbn [is_nan cdfx]; intros Hn.
  - discriminate.
  - apply normalCDF_NInf.
  - apply normalCDF_fin.
  - apply normalCDF_PInf.
Qed.



(** *** Standard scores *)

Lemma zscore_fin (price sigma x : R) :
  0 < sigma -> zscore price sigma (Fin x) = Fin ((x - price) / sigma).
Proof.
  intros Hs. unfold zscore. cbn [Js.sub]. apply Rdiv_fin. lra.
Qed.

Lemma zscore_PInf (price sigma : R) :
  0 < sigma -> zscore price sigma PInf = PInf.
Proof.
  intros Hs. unfold zscore. cbn [Js.sub Js.neg Js.add Js.div].
  rewrite Rsgn_pos by lra. reflexivity.
Qed.

Lemma zscore_NInf (price sigma : R) :
  0 < sigma -> zscore price sigma NInf = NInf.
Proof.
  intros Hs. unfold zscore. cbn [Js.sub Js.neg Js.add Js.div].
  rewrite Rsgn_pos by lra. reflexivity.
Qed.

Lemma zscore_not_nan (price sigma : R) (a : rnum) :
  0 < sigma -> is_nan a = false -> is_nan (zscore price sigma a) = false.
Proof.
  intros Hs. destruct a as [| |x|]; intros Hn; try discriminate.
  - rewrite zscore_NInf by assumption. reflexivity.
  - rewrite zscore_fin by assumption. reflexivity.
  - rewrite zscore_PInf by assumption. reflexivity.
Qed.


(** *** The probability of a range *)

Lemma clamp01_fin (x : R) :
  Js.max (Fin 0) (Js.min (Fin 1) (Fin x)) = Fin (clamp01 x).
Proof.
  unfold clamp01. cbn [Js.min].
  destruct (Js.ltb (Fin x) (Fin 1)) eqn:E1.
  - apply Rltb_fin in E1. rewrite Rmin_right by lra. cbn [Js.max].
    destruct (Js.ltb (Fin 0) (Fin x)) eqn:E0.
    + apply Rltb_fin in E0. rewrite Rmax_right by lra. reflexivity.
    + apply Rltb_fin_false in E0. rewrite Rmax_left by lra. reflexivity.
  - apply Rltb_fin_false in E1. rewrite Rmin_left by lra. cbn [Js.max].
    assert (E0 : Js.ltb (Fin 0) (Fin 1) = true) by (apply Rltb_fin; lra).
    rewrite E0. rewrite Rmax_right by lra. reflexivity.
Qed.

Lemma clamp01_range (x : R) : 0 <= clamp01 x <= 1.
Proof.
  unfold clamp01. split.
  - apply Rmax_l.
  - apply Rmax_lub; [lra | apply Rmin_l].
Qed.


Lemma truthy_not_nan (a : rnum) : truthy a = true -> is_nan a = false.
Proof. destruct a; [discriminate | reflexivity ..]. Qed.

(** A guarded call on positive price, volatility and horizon and on two
    bounds that are neither zero nor [NaN]. *)
Lemma calculateProbabilityInRange_value (price iv dte : R) (lo hi : rnum) :
  0 < price -> 0 < iv -> 0 < dte ->
  truthy lo = true -> truthy hi = true ->
  calculateProbabilityInRange (Num (Fin price)) (Num lo) (Num hi)
    (Num (Fin iv)) (Num (Fin dte))
  = Some (Fin (probability_value price iv dte lo hi)).
Proof.
  intros Hp Hv Hd Hlo Hhi. unfold calculateProbabilityInRange.
  assert (Fp : falsy (Num (Fin price)) = false) by (apply falsy_fin; lra).
  assert (Fv : falsy (Num (Fin iv)) = false) by (apply falsy_fin; lra).
  assert (Fd : falsy (Num (Fin dte)) = false) by (apply falsy_fin; lra).
  rewrite Fp, Fv, Fd. cbn [falsy]. rewrite Hlo, Hhi. cbn [negb orb to_number].
  rewrite Rdiv_fin by lra.
  rewrite Rsqrt_fin by (apply Rlt_le, Rdiv_lt_0_compat; lra).
  cbn [Js.mul]. fold (sigma_move price iv dte).
  pose proof (sigma_move_pos price iv dte Hp Hv Hd) as Hs.
  fold (zscore price (sigma_move price iv dte) lo).
  fold (zscore price (sigma_move price iv dte) hi).
  rewrite !normalCDF_value
    by (apply zscore_not_nan; [assumption | apply truthy_not_nan; assumption]).
  cbn [Js.sub]. rewrite clamp01_fin. reflexivity.
Qed.




End VolatilityFacts.

(* ================================================================== *)
(** ** Facts about the engines                                         *)
(* ================================================================== *)

Section EngineFacts.

Import EngineSpec.
Local Open Scope Q_scope.

(** Linear and non-linear arithmetic over [Q]. *)
Ltac qlra := Lqa.lra.
Ltac qnra := Lqa.nra.

(** The integers injected into [Q], taken as unknowns of [Q]. *)
Ltac forget_inject :=
  repeat match goal with
         | |- context [inject_Z ?z] =>
             generalize dependent (inject_Z z); intros
         | H : context [inject_Z ?z] |- _ =>
             generalize dependent (inject_Z z); intros
         end.

(** *** Signs and comparisons at [Q] *)

Lemma Qsgn_pos (x : Q) : 0 < x -> sgn x = Gt.
Proof.
  intros Hx. unfold sgn. simpl. apply Qgt_alt. exact Hx.
Qed.

Lemma Qsgn_neg (x : Q) : x < 0 -> sgn x = Lt.
Proof.
  intros Hx. unfold sgn. simpl. apply Qlt_alt. exact Hx.
Qed.

Lemma Qsgn_Eq (x : Q) : sgn x = Eq <-> x == 0.
Proof. unfold sgn. simpl. symmetry. apply Qeq_alt. Qed.

Lemma Qltb_fin (x y : Q) : Js.ltb (Fin x) (Fin y) = true <-> x < y.
Proof.
  unfold Js.ltb. simpl. rewrite Qlt_alt.
  destruct (x ?= y); split; intros; try discriminate; reflexivity.
Qed.

Lemma Qltb_fin_false (x y : Q) : Js.ltb (Fin x) (Fin y) = false <-> y <= x.
Proof.
  rewrite <- not_true_iff_false, Qltb_fin. split.
  - apply Qnot_lt_le.
  - apply Qle_not_lt.
Qed.

Lemma Qleb_fin (x y : Q) : Js.leb (Fin x) (Fin y) = true <-> x <= y.
Proof.
  unfold Js.leb. simpl. rewrite Qle_alt.
  destruct (x ?= y); split; intros; try discriminate; try reflexivity;
    congruence.
Qed.

Lemma Qdiv_fin (x y : Q) : ~ y == 0 -> (Fin x / Fin y)%js = Fin (x / y).
Proof.
  intros Hy. unfold Js.div.
  destruct (sgn y) eqn:E; try reflexivity.
  apply Qsgn_Eq in E. contradiction.
Qed.

Lemma Qabs_fin (x : Q) :
  exists y, Js.abs (Fin x) = Fin y /\ y == Qabs x.
Proof.
  unfold Js.abs. destruct (sgn x) eqn:E.
  - exists x. split; [reflexivity|].
    apply Qsgn_Eq in E. rewrite E. reflexivity.
  - exists (- x). split; [reflexivity|].
    unfold sgn in E. simpl in E. apply Qlt_alt in E.
    symmetry. apply Qabs_neg. qlra.
  - exists x. split; [reflexivity|].
    unfold sgn in E. simpl in E. apply Qgt_alt in E.
    symmetry. apply Qabs_pos. qlra.
Qed.

(** *** The nearest contract *)

(** The test of the [reduce] callback, on finite strikes. *)
Lemma closer_spec (t : Q) (c o : RealPrice.OptionQuote) :
  finite_strike c -> finite_strike o ->
  RealPrice.closer (Fin t) c o =
  if Qlt_le_dec (distance t o) (distance t c) then o else c.
Proof.
  intros [sc Hc] [so Ho]. unfold RealPrice.closer, distance.
  rewrite Hc, Ho. cbn [Js.sub value_of fsub QField].
  destruct (Qabs_fin (so - t)) as (yo & -> & Hyo).
  destruct (Qabs_fin (sc - t)) as (yc & -> & Hyc).
  destruct (Qlt_le_dec (Qabs (so - t)) (Qabs (sc - t))) as [Hlt | Hle].
  - assert (H : Js.ltb (Fin yo) (Fin yc) = true).
    { apply Qltb_fin. rewrite Hyo, Hyc. exact Hlt. }
    rewrite H. reflexivity.
  - assert (H : Js.ltb (Fin yo) (Fin yc) = false).
    { apply Qltb_fin_false. rewrite Hyo, Hyc. exact Hle. }
    rewrite H. reflexivity.
Qed.

(** The invariant of the reduction: the accumulator is the first nearest
    contract of the part already visited. *)
Lemma reduce_first_nearest (t : Q) (rest : list RealPrice.OptionQuote) :
  forall (visited : list RealPrice.OptionQuote) (c : RealPrice.OptionQuote),
    Forall finite_strike rest -> finite_strike c ->
    first_nearest t visited c ->
    first_nearest t (visited ++ rest)
      (fold_left (RealPrice.closer (Fin t)) rest c).
Proof.
  induction rest as [|o rest IH]; intros visited c Hrest Hc Hinv.
  - rewrite app_nil_r. exact Hinv.
  - inversion Hrest as [|? ? Ho Hrest']; subst.
    cbn [fold_left]. rewrite closer_spec by assumption.
    replace (visited ++ o :: rest) with ((visited ++ [o]) ++ rest)
      by (rewrite <- app_assoc; reflexivity).
    destruct Hinv as (before & after & Hv & Hb & Ha).
    destruct (Qlt_le_dec (distance t o) (distance t c)) as [Hlt | Hle].
    + apply IH; [assumption | assumption |].
      exists visited, []. split; [reflexivity|]. split; [|constructor].
      subst visited. apply Forall_app. split.
      * eapply Forall_impl; [|exact Hb]. cbv beta. intros x Hx. qlra.
      * constructor.
        -- exact Hlt.
        -- eapply Forall_impl; [|exact Ha]. cbv beta. intros x Hx. qlra.
    + apply IH; [assumption | assumption |].
      exists before, (after ++ [o]). split; [|split].
      * subst visited. rewrite <- app_assoc. reflexivity.
      * exact Hb.
      * apply Forall_app. split; [exact Ha|]. constructor; [exact Hle|constructor].
Qed.

(** C9.  On an empty side [findOptionByStrike] returns [null]; on a
    non-empty side of contracts with finite strikes it returns a contract of
    the side whose strike is at the least distance to the target, and among
    those the first one: every contract before it is strictly farther. *)
Theorem findOptionByStrike_nearest (l : list RealPrice.OptionQuote) (t : Q) :
  Forall finite_strike l ->
  match l with
  | [] => RealPrice.findOptionByStrike l (Fin t) = None
  | _ :: _ =>
      exists o,
        RealPrice.findOptionByStrike l (Fin t) = Some o /\
        In o l /\
        (forall x, In x l -> distance t o <= distance t x) /\
        first_nearest t l o
  end.
Proof.
  intros Hfin. destruct l as [|first rest]; [reflexivity|].
  inversion Hfin as [|? ? Hf Hrest]; subst.
  pose proof (reduce_first_nearest t rest [first] first Hrest Hf) as H.
  cbn [app] in H.
  assert (H0 : first_nearest t [first] first).
  { exists [], []. repeat split; constructor. }
  specialize (H H0).
  set (o := fold_left (RealPrice.closer (Fin t)) rest first) in *.
  exists o. split; [reflexivity|].
  destruct H as (before & after & Hl & Hb & Ha).
  split; [|split].
  - rewrite Hl. apply in_or_app. right. left. reflexivity.
  - intros x Hx. rewrite Hl in Hx. apply in_app_or in Hx.
    destruct Hx as [Hx | [<- | Hx]].
    + rewrite Forall_forall in Hb. specialize (Hb x Hx). cbv beta in Hb. qlra.
    + qlra.
    + rewrite Forall_forall in Ha. apply (Ha x Hx).
  - exists before, after. repeat split; assumption.
Qed.

Lemma findOptionByStrike_nearest_witness :
  exists o,
    RealPrice.findOptionByStrike
      [sample_quote 95 1.2; sample_quote 105 0.9; sample_quote 100 2.5]
      (Fin 101) = Some o /\
    first_nearest 101
      [sample_quote 95 1.2; sample_quote 105 0.9; sample_quote 100 2.5] o.
Proof.
  destruct (findOptionByStrike_nearest
              [sample_quote 95 1.2; sample_quote 105 0.9; sample_quote 100 2.5]
              101) as (o & Ho & _ & _ & Hn).
  - repeat constructor; eexists; reflexivity.
  - exists o. split; assumption.
Defined.

(** A tie goes to the contract met first. *)
Example findOptionByStrike_tie :
  RealPrice.findOptionByStrike [sample_quote 95 1.2; sample_quote 105 0.9]
    (Fin 100) = Some (sample_quote 95 1.2).
Proof. reflexivity. Qed.

(** *** The ranker *)

Lemma finite_score_value (s : Strategy) :
  finite_score s -> of_option (score s) = Fin (score_value s).
Proof. intros [q Hq]. unfold score_value. rewrite Hq. reflexivity. Qed.

(** The comparator is positive exactly when its first argument has the
    smaller score. *)
Lemma comparator_pos (x y : Strategy) :
  finite_score x -> finite_score y ->
  ((Ranker.comparator x y >? Fin 0)%js = true <->
   score_value x < score_value y).
Proof.
  intros Hx Hy. unfold Ranker.comparator, Js.gtb.
  rewrite (finite_score_value x Hx), (finite_score_value y Hy).
  cbn [Js.sub fsub QField]. rewrite Qltb_fin. split; intros; qlra.
Qed.

Lemma insert_perm (cmp : Strategy -> Strategy -> qnum) (x : Strategy)
  (l : list Strategy) : Permutation (Ranker.insert cmp x l) (x :: l).
Proof.
  induction l as [|y l IH]; cbn [Ranker.insert].
  - reflexivity.
  - destruct (cmp x y >? Fin 0)%js.
    + rewrite IH. apply perm_swap.
    + reflexivity.
Qed.

Lemma sort_perm (cmp : Strategy -> Strategy -> qnum) (l : list Strategy) :
  Permutation (Ranker.sort cmp l) l.
Proof.
  induction l as [|x l IH]; cbn [Ranker.sort fold_right].
  - reflexivity.
  - fold (Ranker.sort cmp l). rewrite insert_perm. constructor. exact IH.
Qed.

Lemma sort_length (cmp : Strategy -> Strategy -> qnum) (l : list Strategy) :
  List.length (Ranker.sort cmp l) = List.length l.
Proof. apply Permutation_length, sort_perm. Qed.

Lemma insert_descending (x : Strategy) (l : list Strategy) :
  finite_score x -> Forall finite_score l -> descending l ->
  descending (Ranker.insert Ranker.comparator x l).
Proof.
  intros Hx Hl Hs. induction l as [|y l IH]; cbn [Ranker.insert].
  - repeat constructor.
  - inversion Hl as [|? ? Hy Hl']; subst.
    inversion Hs as [|? ? Hs' Hhd]; subst.
    destruct (Ranker.comparator x y >? Fin 0)%js eqn:E.
    + apply comparator_pos in E; [|assumption..].
      constructor; [apply IH; assumption|].
      eapply Permutation_Forall.
      * symmetry. apply insert_perm.
      * constructor; [qlra | exact Hhd].
    + assert (Hle : score_value y <= score_value x).
      { apply Qnot_lt_le. intros Hlt.
        apply (comparator_pos x y Hx Hy) in Hlt. congruence. }
      constructor; [exact Hs|].
      constructor; [exact Hle|].
      eapply Forall_impl; [|exact Hhd]. cbv beta. intros z Hz. qlra.
Qed.

Lemma sort_descending (l : list Strategy) :
  Forall finite_score l -> descending (Ranker.sort Ranker.comparator l).
Proof.
  induction l as [|x l IH]; intros Hl; cbn [Ranker.sort fold_right].
  - constructor.
  - inversion Hl; subst. fold (Ranker.sort Ranker.comparator l).
    apply insert_descending; [assumption | | apply IH; assumption].
    eapply Permutation_Forall; [symmetry; apply sort_perm | assumption].
Qed.

(** Insertion never moves a candidate across one of the same score. *)
Lemma insert_filter (q : Q) (x : Strategy) (l : list Strategy) :
  finite_score x -> Forall finite_score l ->
  filter (has_score q) (Ranker.insert Ranker.comparator x l) =
  filter (has_score q) (x :: l).
Proof.
  intros Hx Hl. induction l as [|y l IH]; cbn [Ranker.insert].
  - reflexivity.
  - inversion Hl as [|? ? Hy Hl']; subst.
    destruct (Ranker.comparator x y >? Fin 0)%js eqn:E; [|reflexivity].
    apply comparator_pos in E; [|assumption..].
    cbn [filter]. rewrite (IH Hl'). cbn [filter]. unfold has_score.
    destruct (Qeq_bool (score_value y) q) eqn:Ey,
             (Qeq_bool (score_value x) q) eqn:Ex; try reflexivity.
    apply Qeq_bool_iff in Ey, Ex. qlra.
Qed.

Lemma sort_filter (q : Q) (l : list Strategy) :
  Forall finite_score l ->
  filter (has_score q) (Ranker.sort Ranker.comparator l) =
  filter (has_score q) l.
Proof.
  induction l as [|x l IH]; intros Hl; cbn [Ranker.sort fold_right].
  - reflexivity.
  - inversion Hl; subst. fold (Ranker.sort Ranker.comparator l).
    rewrite insert_filter.
    + cbn [filter]. rewrite IH by assumption. reflexivity.
    + assumption.
    + eapply Permutation_Forall; [symmetry; apply sort_perm | assumption].
Qed.

Lemma sort_stable_descending (l : list Strategy) :
  Forall finite_score l ->
  stable_descending l (Ranker.sort Ranker.comparator l).
Proof.
  intros Hl. split; [|split].
  - apply sort_perm.
  - apply sort_descending. exact Hl.
  - intros q. apply sort_filter. exact Hl.
Qed.

Lemma assign_from_length (i : nat) (l : list Strategy) :
  List.length (Ranker.assign_from i l) = List.length l.
Proof.
  revert i. induction l as [|s l IH]; intros i; cbn; [|rewrite IH]; reflexivity.
Qed.

Lemma assign_from_nth (l : list Strategy) :
  forall i k,
    nth_error (Ranker.assign_from i l) k =
    option_map (fun s => set_rank s (S (i + k)) (Ranker.medal_of (i + k)))
               (nth_error l k).
Proof.
  induction l as [|s l IH]; intros i k.
  - destruct k; reflexivity.
  - destruct k as [|k]; cbn [Ranker.assign_from nth_error option_map].
    + rewrite Nat.add_0_r, Nat.add_1_r. reflexivity.
    + rewrite IH. cbn [Nat.add]. rewrite Nat.add_succ_r. reflexivity.
Qed.

Lemma nth_error_firstn_Some (A : Type) (n k : nat) (l : list A) (a : A) :
  nth_error (firstn n l) k = Some a ->
  (k < n)%nat /\ nth_error l k = Some a.
Proof.
  revert k l. induction n as [|n IH]; intros k l H.
  - destruct k; discriminate.
  - destruct l as [|x l]; [destruct k; discriminate|].
    destruct k as [|k]; cbn in H.
    + split; [lia | exact H].
    + apply IH in H. destruct H. split; [lia | assumption].
Qed.

Lemma descending_nth (l : list Strategy) :
  descending l ->
  forall i a b,
    nth_error l i = Some a -> nth_error l (S i) = Some b ->
    score_value b <= score_value a.
Proof.
  induction 1 as [|x l Hs IH Hhd]; intros i a b Ha Hb.
  - destruct i; discriminate.
  - destruct i as [|i]; cbn [nth_error] in Ha, Hb.
    + injection Ha as <-. rewrite Forall_forall in Hhd.
      apply Hhd. apply (nth_error_In l 0). exact Hb.
    + eapply IH; eassumption.
Qed.

(** C1.  On scored candidates the ranker returns [min 3 N] candidates; they
    are, in order, the first candidates of the stable descending sort of the
    input, each with its rank (its position, from 1) and the gold, silver or
    bronze marker written into it; so the scores do not increase and the
    ranks are 1, 2, 3. *)
Theorem ranker_top3 (l : list Strategy) :
  Forall finite_score l ->
  exists sorted,
    stable_descending l sorted /\
    List.length (Ranker.rank_top3 l) = Nat.min 3 (List.length l) /\
    (forall i a,
        nth_error (Ranker.rank_top3 l) i = Some a ->
        exists s,
          nth_error sorted i = Some s /\
          a = set_rank s (S i) (podium i) /\
          rank a = Some (S i) /\ medal a = Some (podium i) /\
          score a = score s) /\
    (forall i a b,
        nth_error (Ranker.rank_top3 l) i = Some a ->
        nth_error (Ranker.rank_top3 l) (S i) = Some b ->
        score_value b <= score_value a).
Proof.
  intros Hl. exists (Ranker.sort Ranker.comparator l).
  pose proof (sort_stable_descending l Hl) as Hst.
  assert (Hnth : forall i a,
             nth_error (Ranker.rank_top3 l) i = Some a ->
             exists s,
               nth_error (Ranker.sort Ranker.comparator l) i = Some s /\
               a = set_rank s (S i) (podium i) /\
               rank a = Some (S i) /\ medal a = Some (podium i) /\
               score a = score s).
  { intros i a Ha. unfold Ranker.rank_top3, Ranker.slice3 in Ha.
    apply nth_error_firstn_Some in Ha. destruct Ha as [Hi Ha].
    rewrite assign_from_nth in Ha. cbn [Nat.add] in Ha.
    destruct (nth_error (Ranker.sort Ranker.comparator l) i) as [s|] eqn:Es;
      [|discriminate].
    cbn [option_map] in Ha. injection Ha as <-.
    exists s. split; [reflexivity|].
    assert (Hm : Ranker.medal_of i = podium i).
    { destruct i as [|[|[|i]]]; try reflexivity. lia. }
    rewrite Hm. repeat split. }
  split; [exact Hst|]. split; [|split].
  - unfold Ranker.rank_top3, Ranker.slice3.
    rewrite length_firstn, assign_from_length, sort_length. reflexivity.
  - exact Hnth.
  - intros i a b Ha Hb.
    destruct (Hnth _ _ Ha) as (sa & Hsa & _ & _ & _ & Ea).
    destruct (Hnth _ _ Hb) as (sb & Hsb & _ & _ & _ & Eb).
    unfold score_value. rewrite Ea, Eb.
    destruct Hst as (_ & Hd & _).
    apply (descending_nth _ Hd i sa sb Hsa Hsb).
Qed.

Lemma ranker_top3_witness :
  exists sorted,
    stable_descending
      [sample_scored vertical_spread 61; sample_scored iron_condor 74;
       sample_scored butterfly 61; sample_scored cash_secured_put 80]
      sorted /\
    List.length
      (Ranker.rank_top3
         [sample_scored vertical_spread 61; sample_scored iron_condor 74;
          sample_scored butterfly 61; sample_scored cash_secured_put 80])
    = 3%nat.
Proof.
  destruct (ranker_top3
              [sample_scored vertical_spread 61; sample_scored iron_condor 74;
               sample_scored butterfly 61; sample_scored cash_secured_put 80])
    as (sorted & Hst & Hlen & _).
  - repeat constructor; eexists; reflexivity.
  - exists sorted. split; assumption.
Defined.

(** The ranker on four candidates, two of them tied. *)
Example rank_top3_example :
  map (fun s => (type s, rank s, medal s))
      (Ranker.rank_top3
         [sample_scored vertical_spread 61; sample_scored iron_condor 74;
          sample_scored butterfly 61; sample_scored cash_secured_put 80])
  = [(cash_secured_put, Some 1%nat, Some gold);
     (iron_condor, Some 2%nat, Some silver);
     (vertical_spread, Some 3%nat, Some bronze)].
Proof. reflexivity. Qed.

(** *** The eligibility gates *)

Lemma Trend_eqb_eq (a b : Trend) : Trend_eqb a b = true <-> a = b.
Proof. destruct a, b; cbn; split; intros; try discriminate; reflexivity. Qed.

Lemma Trend_neqb (a b : Trend) : negb (Trend_eqb a b) = true <-> a <> b.
Proof.
  rewrite negb_true_iff, <- not_true_iff_false, Trend_eqb_eq. reflexivity.
Qed.

Lemma Qgeb_fin (x y : Q) : (Fin x >=? Fin y)%js = true <-> y <= x.
Proof. unfold Js.geb. apply Qleb_fin. Qed.

(** The types [generateAllStrategies] pushes, by the outcome of its tests. *)
Lemma candidates_types (params : Enhanced.Params) :
  let ivr := IvRank.ivRank (Enhanced.ivRank params) in
  let trend := Ta.trend (Enhanced.taScore params) in
  map type (Enhanced.candidates params) =
  (if (ivr >=? Fin 45)%js then [iron_condor] else [])
  ++ [vertical_spread]
  ++ (if (ivr <=? Fin 60)%js then [butterfly] else [])
  ++ (if negb (Trend_eqb trend bearish) then [cash_secured_put] else [])
  ++ (if (Enhanced.dte params >=? Fin 7)%js then [calendar_spread] else [])
  ++ (if (Enhanced.dte params >=? Fin 7)%js && negb (Trend_eqb trend neutral)
      then [diagonal_spread] else []).
Proof.
  cbv zeta. unfold Enhanced.candidates. rewrite !map_app.
  destruct (IvRank.ivRank (Enhanced.ivRank params) >=? Fin 45)%js,
           (IvRank.ivRank (Enhanced.ivRank params) <=? Fin 60)%js,
           (negb (Trend_eqb (Ta.trend (Enhanced.taScore params)) bearish)),
           (Enhanced.dte params >=? Fin 7)%js,
           (negb (Trend_eqb (Ta.trend (Enhanced.taScore params)) neutral));
    reflexivity.
Qed.

(** C5.  Before scoring and truncation [generateAllStrategies] holds an iron
    condor iff the IV rank is at least 45, a vertical spread always, a
    butterfly iff the IV rank is at most 60, a cash-secured put iff the trend
    is not bearish, a calendar spread iff at least 7 days remain, and a
    diagonal spread iff at least 7 days remain and the trend is not neutral;
    the list is built by a total function, a closed gate only leaves its
    candidate out. *)
Theorem catalog_gates (params : Enhanced.Params) (r d : Q) :
  IvRank.ivRank (Enhanced.ivRank params) = Fin r ->
  Enhanced.dte params = Fin d ->
  let trend := Ta.trend (Enhanced.taScore params) in
  (generated params iron_condor <-> 45 <= r) /\
  generated params vertical_spread /\
  (generated params butterfly <-> r <= 60) /\
  (generated params cash_secured_put <-> trend <> bearish) /\
  (generated params calendar_spread <-> 7 <= d) /\
  (generated params diagonal_spread <-> 7 <= d /\ trend <> neutral) /\
  ~ generated params credit_spread.
Proof.
  intros Hr Hd trend. unfold generated.
  rewrite candidates_types. cbv zeta. rewrite Hr, Hd. fold trend.
  rewrite <- (Qgeb_fin r 45), <- (Qleb_fin r 60), <- (Qgeb_fin d 7).
  rewrite <- !Trend_neqb.
  destruct (Fin r >=? Fin 45)%js, (Fin r <=? Fin 60)%js,
           (negb (Trend_eqb trend bearish)), (Fin d >=? Fin 7)%js,
           (negb (Trend_eqb trend neutral));
    cbn [app In andb];
    repeat split; intros; intuition (discriminate || congruence).
Qed.

Lemma catalog_gates_witness :
  (generated (sample_params 65 bullish 7) iron_condor <-> 45 <= 65) /\
  generated (sample_params 65 bullish 7) vertical_spread.
Proof.
  destruct (catalog_gates (sample_params 65 bullish 7) 65 7
              eq_refl eq_refl) as (H1 & H2 & _).
  split; assumption.
Defined.

(** Scenario B (IV rank 20) and scenario C (3 days to expiry). *)
Example catalog_low_iv_rank :
  map type (Enhanced.candidates (sample_params 20 bullish 7)) =
  [vertical_spread; butterfly; cash_secured_put; calendar_spread;
   diagonal_spread].
Proof. reflexivity. Qed.

Example catalog_short_dte :
  map type (Enhanced.candidates (sample_params 65 bullish 3)) =
  [iron_condor; vertical_spread; cash_secured_put].
Proof. reflexivity. Qed.

(** *** The sizing rule *)

Lemma ceil_fin (x : Q) : Js.ceil (Fin x) = Fin (inject_Z (Qceiling x)).
Proof. reflexivity. Qed.

Lemma round_fin (x : Q) :
  Js.round (Fin x) = Fin (inject_Z (Qfloor (x + (1 # 2)))).
Proof. reflexivity. Qed.

(** The count of the ceiling rule on a positive amount per contract, and
    the total it reaches. *)
Lemma ceiling_rule (c : Q) :
  0 < c ->
  (1 <= Qceiling (150 / c))%Z /\
  150 <= c * inject_Z (Qceiling (150 / c)).
Proof.
  intros Hc.
  assert (Hq : 0 < 150 / c) by (apply Qlt_shift_div_l; qlra).
  pose proof (Qle_ceiling (150 / c)) as Hn.
  split.
  - assert (H0 : (0 < Qceiling (150 / c))%Z).
    { rewrite Zlt_Qlt. change (inject_Z 0) with 0. qlra. }
    lia.
  - assert (He : 150 == c * (150 / c)) by (field; qlra).
    rewrite He at 1. apply Qmult_le_l; assumption.
Qed.

Lemma round_at_least (x : Q) (k : Z) :
  inject_Z k <= x -> (k <= Qfloor (x + (1 # 2)))%Z.
Proof.
  intros Hx. rewrite <- (Qfloor_Z k). apply Qfloor_resp_le.
  generalize dependent (inject_Z k). intros kq Hx. qlra.
Qed.

(** The count of the ceiling rule is the least that reaches 150. *)
Lemma ceiling_rule_spare (c : Q) :
  0 < c -> c * inject_Z (Qceiling (150 / c)) < 150 + c.
Proof.
  intros Hc.
  pose proof (Qceiling_lt (150 / c)) as Hup.
  unfold Z.sub in Hup. rewrite inject_Z_plus, inject_Z_opp in Hup.
  change (inject_Z 1) with 1 in Hup.
  assert (E : 150 / c * c == 150) by (field; qlra).
  set (x := 150 / c) in *. set (nq := inject_Z (Qceiling x)) in *. qnra.
Qed.

(** A credit generator: [contracts = ceil(150 / credit)] and
    [netCredit = round(credit * contracts)]. *)
Lemma credit_sized (c : Q) :
  0 < c ->
  sized_by c (Js.ceil (Fin 150 / Fin c)%js)
    (Some (Js.round (Fin c * Js.ceil (Fin 150 / Fin c))%js)).
Proof.
  intros Hc. destruct (ceiling_rule c Hc) as [Hn Ht].
  pose proof (ceiling_rule_spare c Hc) as Hs.
  rewrite Qdiv_fin by qlra. rewrite ceil_fin. cbn [Js.mul]. rewrite round_fin.
  split.
  - exists (Qceiling (150 / c)).
    split; [reflexivity|]. split; [exact Hn|]. split; qlra.
  - eexists. split; [reflexivity|].
    apply round_at_least. exact Ht.
Qed.

Lemma counted (c : Q) :
  0 < c -> counted_by c (Js.ceil (Fin 150 / Fin c)%js).
Proof. intros Hc. apply (credit_sized c Hc). Qed.

(** C2 (as amended).  With a positive price and volatility the credit
    generators of estimated mode (iron condor, vertical spread, cash-secured
    put) size by the ceiling rule on the credit per contract: the count is
    an integer of at least 1, the least that brings the credit to 150 (up
    to a thousandth on the total), and the net credit is an integer of at
    least 150.  The debit generators apply the same rule to the profit they
    expect per contract, not to the debit: the butterfly to
    [1000 - debitPerContract] (stated while the debit per contract is at
    most 999), the calendar and the diagonal spread to 70% and 60% of the
    short credit; their count is at least 1, their net debit is not bounded
    below by 150. *)
Theorem ceiling_sizing (params : Enhanced.Params) (p v : Q) :
  Enhanced.currentPrice params = Fin p ->
  Enhanced.atmIV params = Fin v ->
  0 < p -> 0 < v ->
  sized_by (v * p * 0.025)
    (contracts (Enhanced.generateIronCondor params))
    (netCredit (Enhanced.generateIronCondor params)) /\
  sized_by (v * p * 0.018)
    (contracts (Enhanced.generateVerticalSpread params))
    (netCredit (Enhanced.generateVerticalSpread params)) /\
  sized_by (v * p * 0.012)
    (contracts (Enhanced.generateCashSecuredPut params))
    (netCredit (Enhanced.generateCashSecuredPut params)) /\
  (v * p * 0.012 <= 999 ->
   counted_by (10 * 100 - v * p * 0.012)
     (contracts (Enhanced.generateButterfly params))) /\
  counted_by (v * p * 0.015 * 0.7)
    (contracts (Enhanced.generateCalendarSpread params)) /\
  counted_by (v * p * 0.014 * 0.6)
    (contracts (Enhanced.generateDiagonalSpread params)).
Proof.
  intros Hp Hv Hp0 Hv0.
  assert (Hvp : 0 < v * p) by qnra.
  unfold Enhanced.generateIronCondor, Enhanced.generateVerticalSpread,
    Enhanced.generateCashSecuredPut, Enhanced.generateButterfly,
    Enhanced.generateCalendarSpread, Enhanced.generateDiagonalSpread.
  cbn [contracts netCredit]. rewrite Hp, Hv.
  split; [|split; [|split; [|split; [|split]]]].
  - apply credit_sized. qnra.
  - apply credit_sized. qnra.
  - apply credit_sized. qnra.
  - intros Hd. apply counted. qnra.
  - apply counted. qnra.
  - apply counted. qnra.
Qed.

Lemma ceiling_sizing_witness :
  sized_by (0.35 * 250.5 * 0.025)
    (contracts (Enhanced.generateIronCondor (sample_params 65 bullish 7)))
    (netCredit (Enhanced.generateIronCondor (sample_params 65 bullish 7))).
Proof.
  apply (ceiling_sizing (sample_params 65 bullish 7) 250.5 0.35
           eq_refl eq_refl);
    reflexivity.
Defined.

(** The estimated iron condor of the real-price engine is sized the same
    way. *)
Lemma fallback_sized (params : RealPrice.Params) (p v : Q) :
  RealPrice.currentPrice params = Fin p ->
  RealPrice.atmIV params = Fin v ->
  0 < p -> 0 < v ->
  sized_by (v * p * 0.025)
    (contracts (RealPrice.generateFallbackStrategy params))
    (netCredit (RealPrice.generateFallbackStrategy params)).
Proof.
  intros Hp Hv Hp0 Hv0. unfold RealPrice.generateFallbackStrategy.
  cbn [contracts netCredit]. rewrite Hp, Hv.
  apply credit_sized. qnra.
Qed.

(** C2, as stated, fails on the butterfly: one contract at a debit of 1.05
    per contract is far from the count of the ceiling rule on the debit,
    and the net debit is below 150. *)
Lemma butterfly_sizing_counterexample :
  ~ sized_by (0.35 * 250.5 * 0.012)
      (contracts (Enhanced.generateButterfly (sample_params 20 neutral 7)))
      (netDebit (Enhanced.generateButterfly (sample_params 20 neutral 7))).
Proof.
  intros [_ (m & Hm & Hle)].
  vm_compute in Hm. injection Hm as Hm. lia.
Qed.

(** The butterfly of the sample snapshot: one contract, a net debit of 1. *)
Example butterfly_sample :
  let s := Enhanced.generateButterfly (sample_params 20 neutral 7) in
  contracts s = Fin 1 /\ netDebit s = Some (Fin 1)
  /\ maxProfit s = Some (Fin 999)
  /\ Qceiling (150 / (0.35 * 250.5 * 0.012)) = 143%Z.
Proof. vm_compute. repeat split. Qed.

(** *** The score *)

Lemma bounded_add (a b : qnum) :
  bounded_above a -> bounded_above b -> bounded_above (a + b)%js.
Proof. destruct a, b; cbn; tauto. Qed.

Lemma bounded_sub_fin (a : qnum) (c : Q) :
  bounded_above a -> bounded_above (a - Fin c)%js.
Proof. destruct a; cbn; tauto. Qed.

Lemma bounded_fin (x : Q) : bounded_above (Fin x).
Proof. exact I. Qed.

(** The ROC term: a number other than [NaN], capped at 20. *)
Lemma rocScore_bounded (roc : qnum) :
  is_nan roc = false ->
  bounded_above (Js.min (roc / Fin 50 * Fin 20)%js (Fin 20)).
Proof.
  destruct roc as [| |x|]; intros Hn; try discriminate; try exact I.
  cbn [Js.div]. change (sgn 50) with Gt. cbn [Js.mul Js.min].
  destruct (Js.ltb _ _); exact I.
Qed.

Lemma calculateIVRScore_fin (s : Strategy) (r : IvRank.t) :
  bounded_above (ScoringSystem.calculateIVRScore s r).
Proof.
  unfold ScoringSystem.calculateIVRScore.
  repeat match goal with |- context [if ?b then _ else _] => destruct b end;
    exact I.
Qed.

Lemma calculateGEXScore_fin (s : Strategy) (g : option Gex.t) :
  bounded_above (ScoringSystem.calculateGEXScore s g).
Proof.
  unfold ScoringSystem.calculateGEXScore.
  destruct g as [g|]; [|exact I].
  destruct (Gex.gamma_environment g) as [[| |]|];
    destruct (ScoringSystem.is_seller_type (type s)); exact I.
Qed.

Lemma rawScore_bounded (s : Strategy) (c : ScoringSystem.Context) :
  is_finite (winRate s) -> is_nan (roc s) = false ->
  is_finite (Ta.score (ScoringSystem.taScore c)) ->
  bounded_above (ScoringSystem.rawScore s c).
Proof.
  intros [w Hw] Hroc [t Ht]. unfold ScoringSystem.rawScore.
  rewrite Hw, Ht.
  assert (H : bounded_above
                (Fin 0 + Fin w / Fin 100 * Fin 25
                 + Js.min (roc s / Fin 50 * Fin 20) (Fin 20)
                 + Fin t / Fin 100 * Fin 15
                 + ScoringSystem.calculateIVRScore s (ScoringSystem.ivRank c)
                 + ScoringSystem.calculateGEXScore s (ScoringSystem.gexData c)
                 + Fin 10 + Fin 5)%js).
  { repeat apply bounded_add; try exact I.
    - apply rocScore_bounded. exact Hroc.
    - apply calculateIVRScore_fin.
    - apply calculateGEXScore_fin. }
  destruct (ScoringSystem.hasEarningsNear c).
  - apply bounded_sub_fin. exact H.
  - exact H.
Qed.

(** The clamp of a number that is finite or minus infinity. *)
Lemma clamp_bounded (a : qnum) :
  bounded_above a ->
  exists x,
    Js.max (Fin 0) (Js.min (Fin 100) a) = Fin x /\ 0 <= x <= 100 /\
    match a with
    | Fin r => x == clamp100 r
    | _ => x == 0
    end.
Proof.
  destruct a as [| |r|]; cbn [bounded_above]; intros H; try contradiction.
  - exists 0. repeat split; try reflexivity; qlra.
  - unfold clamp100. cbn [Js.min].
    destruct (Js.ltb (Fin r) (Fin 100)) eqn:E1.
    + apply Qltb_fin in E1. cbn [Js.max].
      destruct (Js.ltb (Fin 0) (Fin r)) eqn:E0.
      * apply Qltb_fin in E0. exists r. repeat split; try qlra.
        rewrite Q.min_r by qlra. rewrite Q.max_r by qlra. reflexivity.
      * apply Qltb_fin_false in E0. exists 0. repeat split; try qlra.
        rewrite Q.min_r by qlra. rewrite Q.max_l by qlra. reflexivity.
    + apply Qltb_fin_false in E1. cbn [Js.max].
      change (Js.ltb (Fin 0) (Fin 100)) with true. cbv iota.
      exists 100. repeat split; try qlra.
      rewrite Q.min_l by qlra. rewrite Q.max_r by qlra. reflexivity.
Qed.

Lemma round_range (x : Q) :
  0 <= x <= 100 -> (0 <= Qfloor (x + (1 # 2)) <= 100)%Z.
Proof.
  intros [H0 H1]. split.
  - apply (round_at_least x 0). exact H0.
  - apply Z.le_trans with (Qfloor (100 + (1 # 2))).
    + apply Qfloor_resp_le. qlra.
    + vm_compute. discriminate.
Qed.

Lemma scored_score_in_0_100 (strategy : Strategy)
  (context : ScoringSystem.Context) :
  valid_for_score strategy context ->
  score_in_0_100 (ScoringSystem.scored strategy context).
Proof.
  intros (Hw & Hroc & Ht).
  pose proof (rawScore_bounded strategy context Hw Hroc Ht) as Hb.
  destruct (clamp_bounded _ Hb) as (x & Hx & Hrange & _).
  unfold ScoringSystem.scored, ScoringSystem.calculateStrategyScore.
  rewrite Hx. exists (Qfloor (x + (1 # 2))).
  split; [reflexivity | apply round_range; exact Hrange].
Qed.

(** C3.  For a candidate with a finite win rate and a return on capital
    other than [NaN], in a context with a finite technical score, the
    scoring system clamps the sum of its terms (less the earnings penalty)
    to [[0, 100]] and writes the nearest integer into the candidate: the
    score is an integer of [[0, 100]]. *)
Theorem score_in_range (strategy : Strategy)
  (context : ScoringSystem.Context) :
  valid_for_score strategy context ->
  exists (x : Q) (z : Z),
    ScoringSystem.calculateStrategyScore strategy context = Fin x /\
    0 <= x <= 100 /\
    match ScoringSystem.rawScore strategy context with
    | Fin r => x == clamp100 r
    | _ => x == 0
    end /\
    score (ScoringSystem.scored strategy context)
    = Some (Fin (inject_Z z)) /\
    z = Qfloor (x + (1 # 2)) /\ (0 <= z <= 100)%Z.
Proof.
  intros (Hw & Hroc & Ht).
  pose proof (rawScore_bounded strategy context Hw Hroc Ht) as Hb.
  destruct (clamp_bounded _ Hb) as (x & Hx & Hrange & Hclamp).
  exists x, (Qfloor (x + (1 # 2))).
  unfold ScoringSystem.scored, ScoringSystem.calculateStrategyScore.
  rewrite Hx. cbn [set_score score]. rewrite round_fin.
  repeat split; try tauto.
  - apply round_range. exact Hrange.
  - apply round_range. exact Hrange.
Qed.

Lemma score_in_range_witness :
  exists (x : Q) (z : Z),
    ScoringSystem.calculateStrategyScore
      (sample_scored iron_condor 0) sample_context = Fin x /\
    score (ScoringSystem.scored (sample_scored iron_condor 0) sample_context)
    = Some (Fin (inject_Z z)) /\ (0 <= z <= 100)%Z.
Proof.
  destruct (score_in_range (sample_scored iron_condor 0) sample_context)
    as (x & z & Hx & _ & _ & Hs & _ & Hz).
  - split; [|split]; [eexists; reflexivity | reflexivity
                      | eexists; reflexivity].
  - exists x, z. repeat split; tauto.
Defined.

(** Every score [scoreAndRankStrategies] returns is an integer of
    [[0, 100]]. *)
Lemma scoreAndRankStrategies_scores (strategies : list Strategy)
  (marketData : ScoringSystem.Context) :
  Forall (fun s => valid_for_score s marketData) strategies ->
  Forall score_in_0_100
    (ScoringSystem.scoreAndRankStrategies strategies marketData).
Proof.
  intros Hv. unfold ScoringSystem.scoreAndRankStrategies.
  eapply Permutation_Forall; [symmetry; apply sort_perm|].
  apply Forall_map. eapply Forall_impl; [|exact Hv]. cbv beta.
  intros s Hs. apply scored_score_in_0_100. exact Hs.
Qed.

(** The sample iron condor in the sample context scores 61. *)
Example scored_sample :
  score (ScoringSystem.scored (sample_scored iron_condor 0) sample_context)
  = Some (Fin 61).
Proof. reflexivity. Qed.

(** *** The scores the estimated-mode engine hands to its ranker *)

(** A ratio of a non-zero amount, as a percentage, is never [NaN]. *)
Lemma percentage_not_nan (x y : Q) :
  ~ x == 0 -> is_nan (Js.round (Fin x / Fin y * Fin 100)%js) = false.
Proof.
  intros Hx. unfold Js.div.
  destruct (sgn y); try reflexivity.
  destruct (sgn x) eqn:E; try reflexivity.
  apply Qsgn_Eq in E. contradiction.
Qed.

Lemma rounded_credit_nonzero (c n : Q) :
  150 <= c * n -> ~ inject_Z (Qfloor (c * n + (1 # 2))) == 0.
Proof.
  intros H Hz.
  pose proof (round_at_least (c * n) 150 H) as Hr.
  change 0 with (inject_Z 0) in Hz.
  apply (proj1 (inject_Z_injective _ _)) in Hz. lia.
Qed.

(** The three credit generators and the two time spreads. *)
Lemma credit_scorable (c w : Q) :
  0 < c ->
  is_nan
    (Js.round
       (Js.round (Fin c * Js.ceil (Fin 150 / Fin c))
        / (Fin w * Js.ceil (Fin 150 / Fin c)
           - Js.round (Fin c * Js.ceil (Fin 150 / Fin c)))
        * Fin 100)%js) = false.
Proof.
  intros Hc. destruct (ceiling_rule c Hc) as [_ Ht].
  rewrite Qdiv_fin by qlra. rewrite ceil_fin.
  cbn [Js.mul Js.sub]. rewrite round_fin. cbn [Js.sub].
  apply percentage_not_nan. apply rounded_credit_nonzero. exact Ht.
Qed.

Lemma spread_scorable (short net f : Q) :
  0 < short * f ->
  is_nan
    (Js.round
       (Js.round (Fin short * Fin f * Js.ceil (Fin 150 / (Fin short * Fin f)))
        / Js.round (Fin net * Js.ceil (Fin 150 / (Fin short * Fin f)))
        * Fin 100)%js) = false.
Proof.
  intros Hc. destruct (ceiling_rule (short * f) Hc) as [_ Ht].
  cbn [Js.mul fmul QField]. rewrite Qdiv_fin by qlra. rewrite ceil_fin.
  cbn [Js.mul fmul QField]. rewrite !round_fin.
  apply percentage_not_nan. apply rounded_credit_nonzero. exact Ht.
Qed.

(** The butterfly, while the debit per contract stays below the wing. *)
Lemma butterfly_scorable (d : Q) :
  0 < d -> d < 1000 ->
  is_nan
    (Js.round
       ((Fin 10 * Fin 100 * Js.ceil (Fin 150 / (Fin 10 * Fin 100 - Fin d))
         - Js.round (Fin d * Js.ceil (Fin 150 / (Fin 10 * Fin 100 - Fin d))))
        / Js.round (Fin d * Js.ceil (Fin 150 / (Fin 10 * Fin 100 - Fin d)))
        * Fin 100)%js) = false.
Proof.
  intros Hd Hd'. cbn [Js.mul Js.sub fmul fsub QField].
  assert (Hw : 0 < 10 * 100 - d) by qlra.
  destruct (ceiling_rule (10 * 100 - d) Hw) as [Hn Ht].
  rewrite Qdiv_fin by qlra. rewrite ceil_fin.
  cbn [Js.mul fmul QField]. rewrite round_fin. cbn [Js.sub fsub QField].
  apply percentage_not_nan.
  set (n := Qceiling (150 / (10 * 100 - d))) in *.
  set (m := Qfloor (d * inject_Z n + (1 # 2))).
  assert (Hm : inject_Z m <= d * inject_Z n + (1 # 2)) by apply Qfloor_le.
  assert (H1 : 1 <= inject_Z n).
  { change 1 with (inject_Z 1). rewrite <- Zle_Qle. exact Hn. }
  intros Hz. forget_inject. qnra.
Qed.

Lemma generators_scorable (params : Enhanced.Params) (p v : Q) :
  Enhanced.currentPrice params = Fin p ->
  Enhanced.atmIV params = Fin v ->
  0 < p -> 0 < v -> v * p * 0.012 < 1000 ->
  Forall scorable (Enhanced.candidates params).
Proof.
  intros Hp Hv Hp0 Hv0 Hd.
  assert (Hvp : 0 < v * p) by qnra.
  assert (HIC : scorable (Enhanced.generateIronCondor params)).
  { unfold scorable, Enhanced.generateIronCondor. cbn [winRate roc].
    rewrite Hp, Hv. split.
    - repeat match goal with
             | |- context [if ?b then _ else _] => destruct b
             end; eexists; reflexivity.
    - cbn [Js.mul]. apply (credit_scorable (v * p * 0.025)). qnra. }
  assert (HVS : scorable (Enhanced.generateVerticalSpread params)).
  { unfold scorable, Enhanced.generateVerticalSpread. cbn [winRate roc].
    rewrite Hp, Hv. split.
    - repeat match goal with
             | |- context [if ?b then _ else _] => destruct b
             end; eexists; reflexivity.
    - cbn [Js.mul]. apply (credit_scorable (v * p * 0.018)). qnra. }
  assert (HBF : scorable (Enhanced.generateButterfly params)).
  { unfold scorable, Enhanced.generateButterfly. cbn [winRate roc].
    rewrite Hp, Hv. split.
    - repeat match goal with
             | |- context [if ?b then _ else _] => destruct b
             end; eexists; reflexivity.
    - cbn [Js.mul]. apply (butterfly_scorable (v * p * 0.012)); qnra. }
  assert (HCSP : scorable (Enhanced.generateCashSecuredPut params)).
  { unfold scorable, Enhanced.generateCashSecuredPut, Enhanced.round5.
    cbn [winRate roc]. rewrite Hp, Hv. split.
    - eexists; reflexivity.
    - cbn [Js.mul].
      rewrite (Qdiv_fin _ 5) by (intros H; discriminate H).
      cbn [Js.round Js.mul]. apply (credit_scorable (v * p * 0.012)). qnra. }
  assert (HCAL : scorable (Enhanced.generateCalendarSpread params)).
  { unfold scorable, Enhanced.generateCalendarSpread. cbn [winRate roc].
    rewrite Hp, Hv. split.
    - eexists; reflexivity.
    - cbn [Js.mul Js.sub].
      apply (spread_scorable (v * p * 0.015) _ 0.7). qnra. }
  assert (HDG : scorable (Enhanced.generateDiagonalSpread params)).
  { unfold scorable, Enhanced.generateDiagonalSpread. cbn [winRate roc].
    rewrite Hp, Hv. split.
    - eexists; reflexivity.
    - cbn [Js.mul Js.sub].
      apply (spread_scorable (v * p * 0.014) _ 0.6). qnra. }
  unfold Enhanced.candidates.
  repeat (apply Forall_app; split);
    try match goal with
        | |- Forall _ (if ?b then _ else _) => destruct b
        end;
    repeat (apply Forall_cons || apply Forall_nil); assumption.
Qed.

(** The score of the estimated-mode engine is an integer of [[0, 100]]. *)
Lemma calculateScore_in_range (s : Strategy) (ivRank : IvRank.t)
  (taScore : Ta.t) (gexData : Gex.t) :
  scorable s -> is_finite (Ta.score taScore) ->
  exists z : Z,
    Enhanced.calculateScore s ivRank taScore gexData = Fin (inject_Z z) /\
    (0 <= z <= 100)%Z.
Proof.
  intros [[w Hw] Hroc] [t Ht]. unfold Enhanced.calculateScore.
  rewrite Hw, Ht.
  pose proof (rocScore_bounded (roc s) Hroc) as Hr.
  match goal with
  | |- exists z, Js.round (Js.max _ (Js.min _ ?raw)) = _ /\ _ =>
      assert (Hb : bounded_above raw)
  end.
  { repeat match goal with
           | |- context [if ?b then _ else _] => destruct b
           | |- context [match ?x with _ => _ end] => destruct x
           end;
      repeat apply bounded_add; try exact I; exact Hr. }
  destruct (clamp_bounded _ Hb) as (x & -> & Hrange & _).
  exists (Qfloor (x + (1 # 2))). split; [reflexivity|].
  apply round_range. exact Hrange.
Qed.

(** On a snapshot with a positive price and volatility (their product below
    the butterfly's bound) and a finite technical score, every candidate
    [generateAllStrategies] hands to its ranker carries a finite score. *)
Lemma generateAllStrategies_scored (params : Enhanced.Params) (p v : Q) :
  Enhanced.currentPrice params = Fin p ->
  Enhanced.atmIV params = Fin v ->
  0 < p -> 0 < v -> v * p * 0.012 < 1000 ->
  is_finite (Ta.score (Enhanced.taScore params)) ->
  Forall finite_score
    (map (fun strategy =>
            set_score strategy
              (Enhanced.calculateScore strategy (Enhanced.ivRank params)
                 (Enhanced.taScore params) (Enhanced.gexData params)))
         (Enhanced.candidates params)).
Proof.
  intros Hp Hv Hp0 Hv0 Hd Ht.
  apply Forall_map.
  eapply Forall_impl; [|apply (generators_scorable params p v); assumption].
  cbv beta. intros s Hs.
  destruct (calculateScore_in_range s (Enhanced.ivRank params)
              (Enhanced.taScore params) (Enhanced.gexData params) Hs Ht)
    as (z & Hz & _).
  unfold finite_score. cbn [set_score score of_option]. rewrite Hz.
  eexists. reflexivity.
Qed.

(** Scenario A: the three recommendations of the sample snapshot. *)
Example generateAllStrategies_sample :
  map (fun s => (type s, score s, rank s, medal s))
      (Enhanced.generateAllStrategies (sample_params 65 bullish 7))
  = [(calendar_spread, Some (Fin 71), Some 1%nat, Some gold);
     (diagonal_spread, Some (Fin 70), Some 2%nat, Some silver);
     (iron_condor, Some (Fin 65), Some 3%nat, Some bronze)].
Proof. vm_compute. reflexivity. Qed.

(** *** The fallback of the real-price engine *)

Lemma findOptionByStrike_None (l : list RealPrice.OptionQuote) (t : qnum) :
  RealPrice.findOptionByStrike l t = None <-> l = [].
Proof.
  destruct l; cbn; split; intros; try discriminate; reflexivity.
Qed.

Lemma hasOptions_false (params : RealPrice.Params) :
  RealPrice.hasOptions params = false <->
  RealPrice.calls (RealPrice.optionsChain params) = [] \/
  RealPrice.puts (RealPrice.optionsChain params) = [].
Proof.
  unfold RealPrice.hasOptions.
  destruct (RealPrice.calls _), (RealPrice.puts _); split; intros H;
    try discriminate; try reflexivity; try tauto;
    destruct H; discriminate.
Qed.

Lemma candidates_without_options (params : RealPrice.Params) :
  RealPrice.hasOptions params = false ->
  RealPrice.candidates params = [RealPrice.generateFallbackStrategy params].
Proof.
  intros H. unfold RealPrice.candidates. rewrite H.
  rewrite !andb_false_r. reflexivity.
Qed.

Lemma realVerticalSpread_with_options (params : RealPrice.Params) :
  RealPrice.hasOptions params = true ->
  exists s,
    RealPrice.realVerticalSpread params = [s] /\
    type s = vertical_spread /\ usingRealPrices s = Some true.
Proof.
  unfold RealPrice.hasOptions, RealPrice.realVerticalSpread.
  destruct (RealPrice.calls _) as [|c cs], (RealPrice.puts _) as [|p ps];
    intros H; try discriminate.
  destruct (Trend_eqb _ bullish || Trend_eqb _ neutral);
    cbn [RealPrice.findOptionByStrike];
    eexists; repeat split.
Qed.

Lemma real_blocks_flagged (params : RealPrice.Params) :
  Forall (fun s => usingRealPrices s = Some true)
    (RealPrice.realIronCondor params) /\
  Forall (fun s => usingRealPrices s = Some true)
    (RealPrice.realVerticalSpread params) /\
  Forall (fun s => usingRealPrices s = Some true)
    (RealPrice.realCashSecuredPut params).
Proof.
  unfold RealPrice.realIronCondor, RealPrice.realVerticalSpread,
    RealPrice.realCashSecuredPut.
  repeat split;
    repeat match goal with
           | |- context [match ?o with Some _ => _ | None => _ end] =>
               destruct o
           end;
    repeat constructor.
Qed.

(** C4 (as amended).  A leg is unresolved exactly when its side of the chain
    is empty.  When a side is empty, no real-price block runs and the engine
    returns one candidate only, the estimated iron condor, flagged
    [usingRealPrices = false] and ranked first, whatever its gate says; the
    vertical spread and the cash-secured put are left out.  When both sides
    have contracts, every candidate is priced from the chain and flagged
    [usingRealPrices = true], and the vertical spread is among them. *)
Theorem real_price_fallback (params : RealPrice.Params) :
  (unresolved_leg params <-> RealPrice.hasOptions params = false) /\
  (RealPrice.hasOptions params = false ->
   RealPrice.candidates params = [RealPrice.generateFallbackStrategy params]
   /\ type (RealPrice.generateFallbackStrategy params) = iron_condor
   /\ usingRealPrices (RealPrice.generateFallbackStrategy params)
      = Some false
   /\ exists s,
        RealPrice.generateStrategiesWithRealPrices params = [s] /\
        type s = iron_condor /\ usingRealPrices s = Some false /\
        rank s = Some 1%nat) /\
  (RealPrice.hasOptions params = true ->
   Forall (fun s => usingRealPrices s = Some true)
     (RealPrice.candidates params) /\
   exists s, In s (RealPrice.candidates params) /\ type s = vertical_spread).
Proof.
  split; [|split].
  - rewrite hasOptions_false. unfold unresolved_leg. split.
    + intros (t & [H | H]); apply findOptionByStrike_None in H; tauto.
    + intros [H | H]; exists (Fin 0); rewrite H; cbn; tauto.
  - intros H. rewrite (candidates_without_options params H).
    repeat split.
    unfold RealPrice.generateStrategiesWithRealPrices.
    rewrite (candidates_without_options params H).
    eexists. split; [reflexivity|]. repeat split.
  - intros H.
    destruct (realVerticalSpread_with_options params H) as (v & Hv & Ht & _).
    destruct (real_blocks_flagged params) as (F1 & F2 & F3).
    unfold RealPrice.candidates. rewrite H, Hv, !andb_true_r.
    rewrite Hv in F2.
    set (ic := if (_ >=? _)%js then _ else _).
    set (csp := if negb _ then _ else _).
    assert (Fic : Forall (fun s => usingRealPrices s = Some true) ic).
    { subst ic. destruct (_ >=? _)%js; [exact F1 | constructor]. }
    assert (Fcsp : Forall (fun s => usingRealPrices s = Some true) csp).
    { subst csp. destruct (negb _); [exact F3 | constructor]. }
    assert (Hall : Forall (fun s => usingRealPrices s = Some true)
                     (ic ++ [v] ++ csp)).
    { apply Forall_app. split; [exact Fic|].
      apply Forall_app. split; assumption. }
    assert (Hin : In v (ic ++ [v] ++ csp)).
    { apply in_or_app. right. left. reflexivity. }
    destruct (ic ++ [v] ++ csp) as [|s0 l0] eqn:E; [contradiction|].
    split; [exact Hall|]. exists v. split; assumption.
Qed.

Lemma real_price_fallback_witness :
  exists s,
    RealPrice.generateStrategiesWithRealPrices
      (sample_real_params 30 bullish empty_chain) = [s] /\
    type s = iron_condor /\ usingRealPrices s = Some false.
Proof.
  destruct (proj1 (proj2 (real_price_fallback
                            (sample_real_params 30 bullish empty_chain)))
              eq_refl) as (_ & _ & _ & s & Hs & Ht & Hu & _).
  exists s. repeat split; assumption.
Defined.

(** C4, as stated, fails: on an empty chain the open gates of the vertical
    spread and of the cash-secured put get no estimated candidate. *)
Lemma real_price_fallback_counterexample :
  ~ fallback_claim (sample_real_params 65 bullish empty_chain).
Proof.
  intros H.
  assert (Hleg : unresolved_leg (sample_real_params 65 bullish empty_chain)).
  { exists (Fin 240). left. reflexivity. }
  destruct (H Hleg) as [(s & Hin & Ht & _) _].
  cbn in Hin. destruct Hin as [<- | []]. discriminate Ht.
Qed.

(** Scenario D: the empty chain at IV rank 30, and a chain with contracts. *)
Example fallback_on_empty_chain :
  map (fun s => (type s, usingRealPrices s, contracts s, netCredit s, rank s))
      (RealPrice.generateStrategiesWithRealPrices
         (sample_real_params 30 bullish empty_chain))
  = [(iron_condor, Some false, Fin 69, Some (Fin 151), Some 1%nat)].
Proof. reflexivity. Qed.

Example real_prices_on_sample_chain :
  map (fun s => (type s, usingRealPrices s, contracts s, netCredit s))
      (RealPrice.candidates (sample_real_params 65 bullish sample_chain))
  = [(iron_condor, Some true, Fin 1, Some (Fin 200));
     (vertical_spread, Some true, Fin 2, Some (Fin 220));
     (cash_secured_put, Some true, Fin 1, Some (Fin 160))].
Proof. reflexivity. Qed.

End EngineFacts.

(* ================================================================== *)
(** ** Facts about the baseline engine                                 *)
(* ================================================================== *)

Section BaselineFacts.

Local Open Scope R_scope.

(** The estimated credit of a positive snapshot is an integer of at least
    50. *)
Lemma estimateCredit_at_least_50 (p v d : R) (k : StrategyType) :
  0 < p -> 0 < v -> 0 < d ->
  exists c : R,
    Baseline.estimateCredit (Fin p) (Fin v) (Fin d) k = Fin c /\ 50 <= c.
Proof.
  intros Hp Hv Hd. unfold Baseline.estimateCredit.
  rewrite Rdiv_fin by lra.
  rewrite Rsqrt_fin by (apply Rlt_le, Rdiv_lt_0_compat; lra).
  cbn [Js.mul].
  assert (H : forall y : R,
             exists c, Js.max (Fin 50) (Js.round (Fin y)) = Fin c /\ 50 <= c).
  { intros y. cbn [Js.round Js.max].
    destruct (Js.ltb (Fin 50) _) eqn:E.
    - apply Rltb_fin in E. eexists. split; [reflexivity | lra].
    - exists 50. split; [reflexivity | lra]. }
  destruct k; cbn [Js.mul]; apply H.
Qed.

(** The ceiling rule on a credit of at least 50: one to three contracts, and
    a total of at least 150. *)
Lemma baseline_ceiling_rule (c : R) :
  50 <= c ->
  exists n : Z,
    Js.ceil (Fin 150 / Fin c)%js = Fin (IZR n) /\
    n = Zceil (150 / c) /\ (1 <= n <= 3)%Z /\ 150 <= c * IZR n /\
    exists m : Z,
      Js.round (Fin c * Js.ceil (Fin 150 / Fin c))%js = Fin (IZR m) /\
      (150 <= m)%Z.
Proof.
  intros Hc. rewrite Rdiv_fin by lra.
  assert (Hq : 0 < 150 / c <= 3).
  { split.
    - apply Rdiv_lt_0_compat; lra.
    - apply Rmult_le_reg_r with c; [lra|]. unfold Rdiv.
      rewrite Rmult_assoc, Rinv_l by lra. lra. }
  pose proof (Zceil_bound (150 / c)) as [Hlo Hhi].
  exists (Zceil (150 / c)).
  assert (Hn : (1 <= Zceil (150 / c) <= 3)%Z).
  { split.
    - apply Z.lt_pred_le. apply lt_IZR. simpl. lra.
    - apply Z.lt_succ_r. apply lt_IZR.
      replace (Z.succ 3) with 4%Z by reflexivity. lra. }
  assert (Ht : 150 <= c * IZR (Zceil (150 / c))).
  { apply Rle_trans with (c * (150 / c)).
    - unfold Rdiv. rewrite (Rmult_comm 150), <- Rmult_assoc, Rinv_r by lra.
      lra.
    - apply Rmult_le_compat_l; lra. }
  repeat split; try tauto; try lia.
  cbn [Js.ceil Js.mul Js.round]. eexists. split; [reflexivity|].
  apply Zfloor_lub. cbn [fadd fmul fopp half fdiv fofZ ffloor RField].
  change (- Zfloor (- (150 / c)))%Z with (Zceil (150 / c)). lra.
Qed.

(** The gates of the baseline engine, on a positive snapshot: an iron condor
    iff the IV rank is at least 40, a credit spread always, a cash-secured
    put iff the trend is not bearish. *)
Lemma baseline_gates (marketData : Baseline.MarketData) (p v d : R) (r : Q) :
  Baseline.currentPrice marketData = Fin p ->
  Baseline.iv marketData = Fin v ->
  Baseline.dte marketData = Fin d ->
  IvRank.ivRank (Baseline.ivRank marketData) = Fin r ->
  0 < p -> 0 < v -> 0 < d ->
  exists l,
    Baseline.generateStrategies marketData = Some l /\
    (In iron_condor (map Baseline.type l) <-> (40 <= r)%Q) /\
    In credit_spread (map Baseline.type l) /\
    (In cash_secured_put (map Baseline.type l) <->
     Ta.trend (Baseline.taScore marketData) <> bearish).
Proof.
  intros Hp Hv Hd Hr Hp0 Hv0 Hd0. unfold Baseline.generateStrategies.
  rewrite Hp, Hv, Hd, Hr.
  rewrite calculateVolatilityRange_fin by lra.
  eexists. split; [reflexivity|].
  rewrite <- (Qgeb_fin r 40), <- Trend_neqb.
  destruct (Fin r >=? Fin 40%Q)%js,
           (negb (Trend_eqb (Ta.trend (Baseline.taScore marketData)) bearish));
    cbn [app map In Baseline.type Baseline.generateIronCondor
         Baseline.generateCreditSpread Baseline.generateCashSecuredPut];
    repeat split; intros; intuition (discriminate || congruence).
Qed.

(** The sizing of the three baseline generators on a positive snapshot: one
    to three contracts, and a net credit of at least 150. *)
Lemma baseline_sizing (marketData : Baseline.MarketData)
  (volRange : Volatility.VolatilityRange) (p v d : R) :
  Baseline.currentPrice marketData = Fin p ->
  Baseline.iv marketData = Fin v ->
  Baseline.dte marketData = Fin d ->
  0 < p -> 0 < v -> 0 < d ->
  Forall
    (fun s =>
       exists n m : Z,
         Baseline.contracts s = Fin (IZR n) /\ (1 <= n <= 3)%Z /\
         Baseline.netCredit s = Fin (IZR m) /\ (150 <= m)%Z)
    [Baseline.generateIronCondor marketData volRange;
     Baseline.generateCreditSpread marketData volRange;
     Baseline.generateCashSecuredPut marketData volRange].
Proof.
  intros Hp Hv Hd Hp0 Hv0 Hd0.
  assert (H : forall k,
             exists n m : Z,
               Js.ceil
                 (Fin 150 / Baseline.estimateCredit (Fin p) (Fin v) (Fin d) k)%js
               = Fin (IZR n) /\ (1 <= n <= 3)%Z /\
               Js.round
                 (Baseline.estimateCredit (Fin p) (Fin v) (Fin d) k *
                  Js.ceil
                    (Fin 150 /
                     Baseline.estimateCredit (Fin p) (Fin v) (Fin d) k))%js
               = Fin (IZR m) /\ (150 <= m)%Z).
  { intros k.
    destruct (estimateCredit_at_least_50 p v d k Hp0 Hv0 Hd0) as (c & -> & Hc).
    destruct (baseline_ceiling_rule c Hc) as (n & Hn & _ & Hr & _ & m & Hm & Hm').
    exists n, m. repeat split; try assumption; lia. }
  repeat constructor;
    unfold Baseline.generateIronCondor, Baseline.generateCreditSpread,
      Baseline.generateCashSecuredPut;
    cbn [Baseline.contracts Baseline.netCredit];
    rewrite Hp, Hv, Hd; apply H.
Qed.

End BaselineFacts.

(* ================================================================== *)
(** ** Further facts about the volatility module                       *)
(* ================================================================== *)

Section VolatilityMore.

Import Volatility Spec.
Local Open Scope R_scope.

Lemma clamp01_id (x : R) : 0 <= x <= 1 -> clamp01 x = x.
Proof.
  intros [H0 H1]. unfold clamp01.
  rewrite Rmin_right by lra. rewrite Rmax_right by lra. reflexivity.
Qed.



(** X2.  For a positive price, volatility and horizon and a finite bound
    [U] other than zero, the two one-sided probabilities, below [U] and
    above [U], are returned and add up to exactly 1; the probability of the
    whole line is exactly 1. *)
Theorem one_sided_probabilities_complement (price iv dte U : R) :
  0 < price -> 0 < iv -> 0 < dte -> U <> 0 ->
  exists p q : R,
    calculateProbabilityInRange (Num (Fin price)) (Num NInf) (Num (Fin U))
      (Num (Fin iv)) (Num (Fin dte)) = Some (Fin p) /\
    calculateProbabilityInRange (Num (Fin price)) (Num (Fin U)) (Num PInf)
      (Num (Fin iv)) (Num (Fin dte)) = Some (Fin q) /\
    p + q = 1 /\ 0 <= p <= 1 /\
    calculateProbabilityInRange (Num (Fin price)) (Num NInf) (Num PInf)
      (Num (Fin iv)) (Num (Fin dte)) = Some (Fin 1).
Proof.
  intros Hp Hv Hd HU.
  assert (TU : truthy (Fin U) = true) by (apply Rtruthy_fin; exact HU).
  pose proof (sigma_move_pos price iv dte Hp Hv Hd) as Hs.
  rewrite !calculateProbabilityInRange_value by (assumption || reflexivity).
  unfold probability_value.
  rewrite zscore_NInf, zscore_PInf, zscore_fin by assumption.
  cbn [cdfx].
  pose proof (cdf_range ((U - price) / sigma_move price iv dte)) as Hc.
  exists (cdf ((U - price) / sigma_move price iv dte)),
         (1 - cdf ((U - price) / sigma_move price iv dte)).
  rewrite !clamp01_id by lra.
  repeat split; try lra.
  - do 2 f_equal. lra.
  - do 2 f_equal. lra.
Qed.

Lemma one_sided_probabilities_complement_witness :
  calculateProbabilityInRange (Num (Fin 100)) (Num NInf) (Num PInf)
    (Num (Fin 0.2)) (Num (Fin 7)) = Some (Fin 1).
Proof.
  destruct (one_sided_probabilities_complement 100 0.2 7 95)
    as (p & q & _ & _ & _ & _ & H); try lra.
  exact H.
Defined.

Lemma cents_cents (x : R) : cents (cents x) = cents x.
Proof.
  unfold cents at 1 3.
  replace (cents x * 100 + 1 / 2)
    with (1 / 2 + IZR (Zfloor (x * 100 + 1 / 2)))
    by (unfold cents; field).
  rewrite Zfloor_addz.
  replace (Zfloor (1 / 2)) with 0%Z; [rewrite Z.add_0_l; reflexivity|].
  symmetry. apply Zfloor_eq. simpl. lra.
Qed.

Lemma adjustmentFactor_value (p zg : R) (env : option GammaEnvironment) :
  p <> 0 ->
  exists f : R,
    VolatilityGex.adjustmentFactor (Fin p) (Fin zg) env = Fin f /\
    (f = 0.85 \/ f = 0.85 * 1.1 \/ f = 1 \/ f = 1 * 1.1 \/ f = 1.15
     \/ f = 1.15 * 1.1) /\
    (env = Some positive <-> f < 1) /\
    (env = Some negative -> 1 < f) /\
    (f = 1 \/ f = 0.85 \/ f = 1.15 <-> 2 / 100 <= Rabs (p - zg) / p).
Proof.
  intros Hp. unfold VolatilityGex.adjustmentFactor. cbv zeta.
  cbn [Js.sub fsub RField]. rewrite Rabs_fin, Rdiv_fin by exact Hp.
  destruct (Js.ltb (Fin (Rabs (p - zg) / p)) (Fin 0.02)) eqn:E.
  - apply Rltb_fin in E.
    destruct env as [[| |]|]; cbn [VolatilityGex.environmentFactor Js.mul];
      eexists; (split; [reflexivity|]); cbn [fmul RField];
      repeat split; intros; try discriminate; try lra;
      try (exfalso; lra); intuition lra.
  - apply Rltb_fin_false in E.
    destruct env as [[| |]|]; cbn [VolatilityGex.environmentFactor];
      eexists; (split; [reflexivity|]);
      repeat split; intros; try discriminate; try lra;
      try (exfalso; lra); intuition lra.
Qed.

(** X3.  On the band of a price of at least 1 whose one-sigma move is at
    most 5% of the price, with a zero-gamma level other than zero:
    [adjustVolatilityWithGEX] scales both bounds of the one-sigma band by
    one of six factors, each adjusted bound lying within two cents of the
    exact bound times the factor, and leaves the move, the percentage and
    the two-sigma band as they are.  The factor is below 1 exactly in a
    positive gamma environment, and then the adjusted upper bound is below
    the current price; with a factor above 1 the adjusted lower bound is
    above it; with the factor 1 the band is unchanged. *)
Theorem adjustVolatilityWithGEX_shift (p v d zg : R)
  (env : option GammaEnvironment) :
  1 <= p -> 0 < v -> 0 < d -> zg <> 0 ->
  sigma_move p v d <= p / 20 ->
  exists (b : VolatilityRange) (a : VolatilityGex.Adjusted) (f u l : R),
    calculateVolatilityRange (Num (Fin p)) (Num (Fin v)) (Num (Fin d))
    = Some b /\
    VolatilityGex.adjustVolatilityWithGEX (Some b)
      (Some {| VolatilityGex.zero_gamma := Num (Fin zg);
               VolatilityGex.gamma_environment := env |}) = Some a /\
    VolatilityGex.gexAdjustment a = Some (Fin f) /\
    (f = 0.85 \/ f = 0.85 * 1.1 \/ f = 1 \/ f = 1 * 1.1 \/ f = 1.15
     \/ f = 1.15 * 1.1) /\
    (env = Some positive <-> f < 1) /\
    (env = Some negative -> 1 < f) /\
    upper (oneSigma (VolatilityGex.range a)) = Fin u /\
    lower (oneSigma (VolatilityGex.range a)) = Fin l /\
    within (1 / 50) u ((p + sigma_move p v d) * f) /\
    within (1 / 50) l ((p - sigma_move p v d) * f) /\
    move (oneSigma (VolatilityGex.range a)) = move (oneSigma b) /\
    percent (oneSigma (VolatilityGex.range a)) = percent (oneSigma b) /\
    twoSigma (VolatilityGex.range a) = twoSigma b /\
    (f < 1 -> u < p) /\
    (1 < f -> p < l) /\
    (f = 1 -> Fin u = upper (oneSigma b) /\ Fin l = lower (oneSigma b)).
Proof.
  intros Hp Hv Hd Hzg Hm.
  pose proof (sigma_move_pos p v d ltac:(lra) Hv Hd) as Hm0.
  set (m := sigma_move p v d) in *.
  destruct (adjustmentFactor_value p zg env ltac:(lra))
    as (f & Ef & Hset & Hpos & Hneg & _).
  pose proof (calculateVolatilityRange_fin p v d ltac:(lra) ltac:(lra) Hd)
    as Eb.
  cbv zeta in Eb. fold m in Eb.
  eexists. eexists. exists f.
  exists (cents (cents (p + m) * f)), (cents (cents (p - m) * f)).
  split; [exact Eb|].
  unfold VolatilityGex.adjustVolatilityWithGEX.
  cbn [VolatilityGex.zero_gamma VolatilityGex.gamma_environment].
  rewrite (proj2 (falsy_fin zg) Hzg).
  cbn [currentPrice to_number oneSigma upper lower move percent probability
       twoSigma Volatility.iv Volatility.dte].
  rewrite Ef.
  split; [reflexivity|].
  cbn [VolatilityGex.gexAdjustment VolatilityGex.range oneSigma twoSigma
       upper lower move percent].
  split; [reflexivity|]. split; [exact Hset|].
  split; [exact Hpos|]. split; [exact Hneg|].
  change (Js.round (Fin (cents (p + m)) * Fin f * Fin 100)%js / Fin 100)%js
    with (round2 (Fin (cents (p + m)) * Fin f)%js).
  change (Js.round (Fin (cents (p - m)) * Fin f * Fin 100)%js / Fin 100)%js
    with (round2 (Fin (cents (p - m)) * Fin f)%js).
  cbn [Js.mul fmul RField]. rewrite !round2_fin.
  do 2 (split; [reflexivity|]).
  pose proof (cents_bound (p + m)) as [Bu0 Bu].
  pose proof (cents_bound (p - m)) as [Bl Bl0].
  pose proof (cents_bound (cents (p + m) * f)) as [Bu0' Bu'].
  pose proof (cents_bound (cents (p - m) * f)) as [Bl' Bl0'].
  assert (Hf : 0.85 <= f <= 1.265) by lra.
  assert (Su : - (1 / 200 * 1.265) <= cents (p + m) * f - (p + m) * f
               <= 1 / 200 * 1.265) by (split; nra).
  assert (Sl : - (1 / 200 * 1.265) <= cents (p - m) * f - (p - m) * f
               <= 1 / 200 * 1.265) by (split; nra).
  split; [unfold within; apply Rabs_le; lra|].
  split; [unfold within; apply Rabs_le; lra|].
  do 3 (split; [reflexivity|]).
  split; [|split].
  - intros Hf1.
    assert (Hf' : f <= 0.935) by lra.
    assert (cents (p + m) * f <= (p + m + 1 / 200) * 0.935) by nra.
    lra.
  - intros Hf1.
    assert (Hf' : 1.1 <= f) by lra.
    assert (0 <= cents (p - m)) by lra.
    assert ((p - m - 1 / 200) * 1.1 <= cents (p - m) * f) by nra.
    lra.
  - intros ->. rewrite !Rmult_1_r, !cents_cents. split; reflexivity.
Qed.

Lemma sqrt_week_bound : R_sqrt.sqrt (7 / 365) <= 1 / 4.
Proof.
  replace (1 / 4) with (R_sqrt.sqrt ((1 / 4) * (1 / 4)))
    by (apply sqrt_square; lra).
  apply sqrt_le_1_alt. lra.
Qed.

Lemma adjustVolatilityWithGEX_shift_witness :
  exists (a : VolatilityGex.Adjusted) (u : R),
    upper (oneSigma (VolatilityGex.range a)) = Fin u /\ u < 100.
Proof.
  destruct (adjustVolatilityWithGEX_shift 100 0.2 7 90 (Some positive))
    as (b & a & f & u & l & _ & _ & _ & _ & Hf & _ & Hu & _ & _ & _ & _ & _
        & _ & Hlt & _);
    try lra.
  - unfold sigma_move. pose proof sqrt_week_bound. lra.
  - exists a, u. split; [exact Hu|]. apply Hlt. apply Hf. reflexivity.
Defined.

Lemma tail_even (z : R) : tail (- z) = tail z.
Proof.
  unfold tail, tvar. rewrite Rabs_Ropp.
  replace (- - z * - z / 2) with (- z * z / 2) by lra. reflexivity.
Qed.

(** X26.  [normalCDF] is symmetric away from zero: at a finite [z] other
    than 0 the values at [z] and at [-z] add up to exactly 1.  At 0 it
    returns [0.3989423 * 1.2533137], a value below one half, so the
    approximation steps up right after 0. *)
Theorem normalCDF_symmetry (z : R) :
  exists x y : R,
    normalCDF (Fin z) = Fin x /\ normalCDF (Fin (- z)) = Fin y /\
    (z <> 0 -> x + y = 1) /\
    (z = 0 -> x = 0.3989423 * 1.2533137 /\ x = y /\ x < 1 / 2) /\
    (0 < z -> 1 / 2 <= x).
Proof.
  exists (cdf z), (cdf (- z)). rewrite !normalCDF_fin.
  split; [reflexivity|]. split; [reflexivity|].
  pose proof (tail_le_half z) as Hh.
  unfold cdf. rewrite tail_even.
  split; [|split].
  - intros Hz. destruct (Rlt_dec 0 z), (Rlt_dec 0 (- z)); lra.
  - intros ->. rewrite Ropp_0.
    destruct (Rlt_dec 0 0) as [K|_]; [lra|].
    assert (E : tail 0 = 0.3989423 * 1.2533137).
    { rewrite tail_alt. unfold tvar. rewrite Rabs_R0.
      replace (- 0 * 0 / 2) with 0 by lra. rewrite exp_0.
      replace (1 / (1 + 0.2316419 * 0)) with 1 by lra.
      rewrite tail_poly_1. lra. }
    rewrite E. repeat split; lra.
  - intros Hz. destruct (Rlt_dec 0 z); lra.
Qed.

(** X29.  The percentages of a band follow the volatility and the horizon,
    whatever the price: for a price other than zero and a positive
    volatility and horizon, the one-sigma percentage lies within a
    hundredth of [100 * iv * sqrt(dte / 365)] and the two-sigma percentage
    within a hundredth of twice that; the two probabilities are the
    constants 68.2 and 95.4; and the two bounds of the one-sigma band lie
    around the price up to two cents on their sum. *)
Theorem calculateVolatilityRange_percent (p v d : R) :
  p <> 0 -> 0 < v -> 0 < d ->
  exists (b : VolatilityRange) (c1 c2 u l : R),
    calculateVolatilityRange (Num (Fin p)) (Num (Fin v)) (Num (Fin d))
    = Some b /\
    percent (oneSigma b) = Fin c1 /\ percent (twoSigma b) = Fin c2 /\
    within (1 / 100) c1 (100 * v * R_sqrt.sqrt (d / 365)) /\
    within (1 / 100) c2 (200 * v * R_sqrt.sqrt (d / 365)) /\
    0 <= c1 <= c2 /\
    probability (oneSigma b) = Fin 68.2 /\
    probability (twoSigma b) = Fin 95.4 /\
    upper (oneSigma b) = Fin u /\ lower (oneSigma b) = Fin l /\
    within (1 / 50) (u + l) (2 * p).
Proof.
  intros Hp Hv Hd.
  pose proof (calculateVolatilityRange_fin p v d Hp ltac:(lra) Hd) as Eb.
  cbv zeta in Eb. rewrite Eb.
  eexists. eexists. eexists. eexists. eexists. split; [reflexivity|].
  cbn [percent oneSigma twoSigma probability upper lower].
  do 2 (split; [reflexivity|]).
  assert (Hs : 0 < R_sqrt.sqrt (d / 365)).
  { apply sqrt_lt_R0. apply Rdiv_lt_0_compat; lra. }
  assert (E1 : sigma_move p v d / p * 100
               = 100 * v * R_sqrt.sqrt (d / 365))
    by (unfold sigma_move; field; exact Hp).
  assert (E2 : sigma_move p v d * 2 / p * 100
               = 200 * v * R_sqrt.sqrt (d / 365))
    by (unfold sigma_move; field; exact Hp).
  rewrite E1, E2.
  set (x := v * R_sqrt.sqrt (d / 365)).
  assert (Hx : 0 < x) by (apply Rmult_lt_0_compat; assumption).
  replace (100 * v * R_sqrt.sqrt (d / 365)) with (100 * x)
    by (unfold x; ring).
  replace (200 * v * R_sqrt.sqrt (d / 365)) with (200 * x)
    by (unfold x; ring).
  pose proof (cents_bound (100 * x)) as C1.
  pose proof (cents_bound (200 * x)) as C2.
  pose proof (cents_bound (p + sigma_move p v d)) as [U1 U2].
  pose proof (cents_bound (p - sigma_move p v d)) as [L1 L2].
  assert (Z0 : cents 0 = 0).
  { unfold cents. rewrite (Zfloor_eq 0); simpl; lra. }
  unfold within.
  repeat split; try reflexivity; try (apply Rabs_le; lra).
  - rewrite <- Z0. apply cents_le. lra.
  - apply cents_le. lra.
Qed.

Lemma calculateVolatilityRange_percent_witness :
  exists (b : VolatilityRange) (c1 : R),
    calculateVolatilityRange (Num (Fin 250.5)) (Num (Fin 0.35)) (Num (Fin 7))
    = Some b /\
    percent (oneSigma b) = Fin c1 /\
    within (1 / 100) c1 (100 * 0.35 * R_sqrt.sqrt (7 / 365)).
Proof.
  destruct (calculateVolatilityRange_percent 250.5 0.35 7)
    as (b & c1 & c2 & u & l & Eb & H1 & _ & W1 & _); try lra.
  exists b, c1. repeat split; assumption.
Defined.

End VolatilityMore.

(* ================================================================== *)
(** ** Facts about the technical score                                 *)
(* ================================================================== *)

Section TaScoreFacts.

Import EngineSpec LibSpec.
Local Open Scope Q_scope.

Lemma evaluateMACD_values (m : TaScore.Macd.t) :
  In (TaScore.adjustment (TaScore.evaluateMACD m))
     [Fin (-20); Fin (-10); Fin 10; Fin 20] /\
  List.length (TaScore.signals (TaScore.evaluateMACD m)) = 2%nat.
Proof.
  unfold TaScore.evaluateMACD. cbv zeta.
  destruct (TaScore.Macd.hist m >? Fin 0)%js,
           (TaScore.Macd.macd m >? TaScore.Macd.signal m)%js;
    vm_compute; split; try reflexivity; tauto.
Qed.

Lemma evaluateRSI_values (r : TaScore.Rsi.t) :
  In (TaScore.adjustment (TaScore.evaluateRSI r))
     [Fin (-10); Fin (-5); Fin 5; Fin 10] /\
  List.length (TaScore.signals (TaScore.evaluateRSI r)) = 1%nat.
Proof.
  unfold TaScore.evaluateRSI. cbv zeta.
  destruct (TaScore.Rsi.value r >? Fin 70)%js,
           (TaScore.Rsi.value r >? Fin 60)%js,
           (TaScore.Rsi.value r >? Fin 50)%js,
           (TaScore.Rsi.value r >? Fin 40)%js,
           (TaScore.Rsi.value r >? Fin 30)%js;
    vm_compute; split; try reflexivity; tauto.
Qed.

Lemma evaluateSTOCH_values (s : TaScore.Stoch.t) :
  In (TaScore.adjustment (TaScore.evaluateSTOCH s))
     [Fin (-15); Fin (-5); Fin 5; Fin 15] /\
  List.length (TaScore.signals (TaScore.evaluateSTOCH s)) = 2%nat.
Proof.
  unfold TaScore.evaluateSTOCH. cbv zeta.
  destruct (TaScore.Stoch.k s >? Fin 80)%js,
           (TaScore.Stoch.k s >? Fin 50)%js,
           (TaScore.Stoch.k s >? Fin 20)%js,
           (TaScore.Stoch.k s >? TaScore.Stoch.d s)%js;
    vm_compute; split; try reflexivity; tauto.
Qed.

Lemma periodScore_complete (m : TaScore.Macd.t) (r : TaScore.Rsi.t)
  (s : TaScore.Stoch.t) :
  let p := Some {| TaScore.Period.macd := Some m; TaScore.Period.rsi := Some r;
                   TaScore.Period.stoch := Some s |} in
  period_shape (TaScore.calculatePeriodScore p) /\
  Js.max (Fin 0) (Js.min (Fin 100) (TaScore.periodSum m r s))
  = TaScore.periodSum m r s /\
  List.length (TaScore.period_signals (TaScore.calculatePeriodScore p))
  = 5%nat.
Proof.
  destruct (evaluateMACD_values m) as [Hm Lm].
  destruct (evaluateRSI_values r) as [Hr Lr].
  destruct (evaluateSTOCH_values s) as [Hs Ls].
  unfold period_shape, TaScore.calculatePeriodScore, TaScore.periodSum.
  cbv zeta.
  cbn [TaScore.period_signals TaScore.score TaScore.trend].
  rewrite !app_nil_l, !length_app, Lm, Lr, Ls.
  cbn [In] in Hm, Hr, Hs.
  destruct Hm as [<- | [<- | [<- | [<- | []]]]];
    destruct Hr as [<- | [<- | [<- | [<- | []]]]];
    destruct Hs as [<- | [<- | [<- | [<- | []]]]];
    (split; [eexists; split; [vm_compute; reflexivity|];
             vm_compute; repeat split; congruence
            | split; vm_compute; reflexivity]).
Qed.

Lemma calculatePeriodScore_shape (p : option TaScore.Period.t) :
  period_shape (TaScore.calculatePeriodScore p).
Proof.
  assert (D : period_shape
                {| TaScore.score := Fin 50; TaScore.trend := neutral;
                   TaScore.period_signals := [] |}).
  { exists 50%Z. vm_compute. repeat split; congruence. }
  destruct p as [[[m|] [r|] [s|]]|]; try exact D.
  apply (periodScore_complete m r s).
Qed.

(** X4.  The score of a period is always a multiple of 5 between 5 and 95,
    bullish exactly from 60 up and bearish exactly to 40 down.  With the
    three indicators present the sum needs no clamping and five signals are
    reported; with the period or one indicator absent the result is 50,
    neutral, without signals. *)
Theorem calculatePeriodScore_range (p : option TaScore.Period.t) :
  period_shape (TaScore.calculatePeriodScore p) /\
  (forall m r s,
      p = Some {| TaScore.Period.macd := Some m; TaScore.Period.rsi := Some r;
                  TaScore.Period.stoch := Some s |} ->
      Js.max (Fin 0) (Js.min (Fin 100) (TaScore.periodSum m r s))
      = TaScore.periodSum m r s /\
      List.length (TaScore.period_signals (TaScore.calculatePeriodScore p))
      = 5%nat) /\
  (~ complete p ->
   TaScore.calculatePeriodScore p
   = {| TaScore.score := Fin 50; TaScore.trend := neutral;
        TaScore.period_signals := [] |}).
Proof.
  split; [apply calculatePeriodScore_shape|]. split.
  - intros m r s ->. apply (periodScore_complete m r s).
  - intros Hn.
    destruct p as [[[m|] [r|] [s|]]|]; try reflexivity.
    exfalso. apply Hn. exists m, r, s. reflexivity.
Qed.

Lemma weighted_total (zd z1 z2 : Z) :
  inject_Z zd * 0.5 + inject_Z z1 * 0.25 + inject_Z z2 * 0.25
  == (2 * zd + z1 + z2 # 4).
Proof.
  rewrite (Qmake_Qdiv (2 * zd + z1 + z2) 4).
  rewrite !inject_Z_plus, !inject_Z_mult. field.
Qed.

Lemma round_quarters (N : Z) (x : Q) :
  x == (N # 4) -> Qfloor (x + (1 # 2)) = ((N + 2) / 4)%Z.
Proof.
  intros E.
  assert (E' : x + (1 # 2) == (N + 2 # 4)).
  { rewrite E, (Qmake_Qdiv N 4), (Qmake_Qdiv (N + 2) 4), inject_Z_plus.
    field. }
  rewrite (Qfloor_comp _ _ E'). reflexivity.
Qed.

(** On a total of quarters of a multiple of 5, a threshold that is a
    multiple of 5 reads the same before and after rounding. *)
Lemma geb_quarters (N t : Z) (x : Q) :
  x == (N # 4) -> (N mod 5 = 0)%Z -> (t mod 5 = 0)%Z ->
  (Fin x >=? Fin (inject_Z t))%js
  = (Fin (inject_Z ((N + 2) / 4)) >=? Fin (inject_Z t))%js.
Proof.
  intros E HN Ht. apply eq_true_iff_eq. rewrite !Qgeb_fin, E.
  rewrite <- Zle_Qle. unfold Qle. cbn [Qnum Qden inject_Z].
  Z.to_euclidean_division_equations. lia.
Qed.

Lemma leb_quarters (N t : Z) (x : Q) :
  x == (N # 4) -> (N mod 5 = 0)%Z -> (t mod 5 = 0)%Z ->
  (Fin x <=? Fin (inject_Z t))%js
  = (Fin (inject_Z ((N + 2) / 4)) <=? Fin (inject_Z t))%js.
Proof.
  intros E HN Ht. apply eq_true_iff_eq. rewrite !Qleb_fin, E.
  rewrite <- Zle_Qle. unfold Qle. cbn [Qnum Qden inject_Z].
  Z.to_euclidean_division_equations. lia.
Qed.

(** X5.  The overall technical score is an integer between 5 and 95.  An
    overall bullish trend (two bullish periods of three) goes with a score
    of at least 33, an overall bearish trend with a score of at most 68.
    The strength and the interpretation, which the code derives from the
    unrounded total, are those of the rounded score it reports. *)
Theorem calculateTAScore_range (indicators : TaScore.Indicators) :
  let r := TaScore.calculateTAScore indicators in
  exists z : Z,
    TaScore.ta_score r = Fin (inject_Z z) /\ (5 <= z <= 95)%Z /\
    (TaScore.ta_trend r = bullish -> (33 <= z)%Z) /\
    (TaScore.ta_trend r = bearish -> (z <= 68)%Z) /\
    TaScore.strength r = TaScore.getStrength (TaScore.ta_score r) /\
    TaScore.interpretation r
    = TaScore.getInterpretation (TaScore.ta_score r) (TaScore.ta_trend r).
Proof.
  cbv zeta. unfold TaScore.calculateTAScore. cbv zeta.
  cbn [TaScore.ta_score TaScore.ta_trend TaScore.strength
       TaScore.interpretation TaScore.d_daily TaScore.d_hourly1
       TaScore.d_hourly2].
  destruct (calculatePeriodScore_shape (TaScore.daily indicators))
    as (zd & Sd & Rd & Md & Td).
  destruct (calculatePeriodScore_shape (TaScore.hourly1 indicators))
    as (z1 & S1 & R1 & M1 & T1).
  destruct (calculatePeriodScore_shape (TaScore.hourly2 indicators))
    as (z2 & S2 & R2 & M2 & T2).
  unfold TaScore.totalScore.
  cbn [TaScore.d_daily TaScore.d_hourly1 TaScore.d_hourly2].
  rewrite Sd, S1, S2, Td, T1, T2.
  cbn [Js.mul Js.add fadd fmul QField].
  set (x := inject_Z zd * 0.5 + inject_Z z1 * 0.25 + inject_Z z2 * 0.25).
  pose proof (weighted_total zd z1 z2) as E. fold x in E.
  set (N := (2 * zd + z1 + z2)%Z) in E.
  assert (HN : (N mod 5 = 0)%Z)
    by (subst N; Z.to_euclidean_division_equations; lia).
  rewrite round_fin, (round_quarters N x E).
  exists ((N + 2) / 4)%Z.
  split; [reflexivity|].
  split; [subst N; Z.to_euclidean_division_equations; lia|].
  assert (G : forall t, (t mod 5 = 0)%Z ->
                (Fin x >=? Fin (inject_Z t))%js
                = (Fin (inject_Z ((N + 2) / 4)) >=? Fin (inject_Z t))%js)
    by (intros t Ht; apply (geb_quarters N t x E HN Ht)).
  assert (L : forall t, (t mod 5 = 0)%Z ->
                (Fin x <=? Fin (inject_Z t))%js
                = (Fin (inject_Z ((N + 2) / 4)) <=? Fin (inject_Z t))%js)
    by (intros t Ht; apply (leb_quarters N t x E HN Ht)).
  assert (Hs : TaScore.getStrength (Fin x)
               = TaScore.getStrength (Fin (inject_Z ((N + 2) / 4)))).
  { unfold TaScore.getStrength.
    change (Fin 75) with (Fin (inject_Z 75)).
    change (Fin 60) with (Fin (inject_Z 60)).
    change (Fin 40) with (Fin (inject_Z 40)).
    change (Fin 25) with (Fin (inject_Z 25)).
    rewrite !G by reflexivity. reflexivity. }
  assert (Hi : forall t,
             TaScore.getInterpretation (Fin x) t
             = TaScore.getInterpretation (Fin (inject_Z ((N + 2) / 4))) t).
  { intros t. unfold TaScore.getInterpretation.
    change (Fin 75) with (Fin (inject_Z 75)).
    change (Fin 60) with (Fin (inject_Z 60)).
    change (Fin 40) with (Fin (inject_Z 40)).
    change (Fin 25) with (Fin (inject_Z 25)).
    destruct t; rewrite ?G, ?L by reflexivity; reflexivity. }
  rewrite Hs, Hi.
  unfold trend_of, TaScore.count_trend.
  destruct (60 <=? zd)%Z eqn:Bd; [|destruct (zd <=? 40)%Z eqn:Ed];
    (destruct (60 <=? z1)%Z eqn:B1; [|destruct (z1 <=? 40)%Z eqn:E1]);
    (destruct (60 <=? z2)%Z eqn:B2; [|destruct (z2 <=? 40)%Z eqn:E2]);
    cbn [filter Trend_eqb List.length Nat.leb];
    (repeat split; try reflexivity; try (intros ?; discriminate);
     intros _; subst N; Z.to_euclidean_division_equations; lia).
Qed.

End TaScoreFacts.

(* ================================================================== *)
(** ** Facts about the IV rank                                         *)
(* ================================================================== *)

Section IvRankFacts.

Import EngineSpec LibSpec.
Local Open Scope Q_scope.

Ltac qlra := Lqa.lra.
Ltac qnra := Lqa.nra.

Lemma min_fin (a x : Q) :
  exists m, Js.min (Fin a) (Fin x) = Fin m /\ m <= a /\ m <= x /\
            (m = a \/ m = x).
Proof.
  unfold Js.min. destruct (Js.ltb (Fin x) (Fin a)) eqn:E.
  - apply Qltb_fin in E. exists x. repeat split; try qlra. now right.
  - apply Qltb_fin_false in E. exists a. repeat split; try qlra. now left.
Qed.

Lemma max_fin (a x : Q) :
  exists m, Js.max (Fin a) (Fin x) = Fin m /\ a <= m /\ x <= m /\
            (m = a \/ m = x).
Proof.
  unfold Js.max. destruct (Js.ltb (Fin a) (Fin x)) eqn:E.
  - apply Qltb_fin in E. exists x. repeat split; try qlra. now right.
  - apply Qltb_fin_false in E. exists a. repeat split; try qlra. now left.
Qed.

Lemma fold_min_fin (xs : list qnum) :
  Forall is_finite xs ->
  forall a : Q,
    exists m,
      fold_left Js.min xs (Fin a) = Fin m /\ m <= a /\
      Forall (fun x => m <= value_of x) xs /\ (m = a \/ In (Fin m) xs).
Proof.
  induction 1 as [|x xs [q ->] _ IH]; intros a.
  - exists a. repeat split; [qlra | constructor | now left].
  - destruct (min_fin a q) as (m0 & E0 & H0a & H0q & H0).
    destruct (IH m0) as (m & E & Hm & Hall & Hin).
    exists m. cbn [fold_left]. rewrite E0, E.
    repeat split; try qlra.
    + constructor; [cbn [value_of]; qlra | exact Hall].
    + destruct Hin as [-> | Hin]; [|right; right; exact Hin].
      destruct H0 as [-> | ->]; [now left | right; left; reflexivity].
Qed.

Lemma fold_max_fin (xs : list qnum) :
  Forall is_finite xs ->
  forall a : Q,
    exists m,
      fold_left Js.max xs (Fin a) = Fin m /\ a <= m /\
      Forall (fun x => value_of x <= m) xs /\ (m = a \/ In (Fin m) xs).
Proof.
  induction 1 as [|x xs [q ->] _ IH]; intros a.
  - exists a. repeat split; [qlra | constructor | now left].
  - destruct (max_fin a q) as (m0 & E0 & H0a & H0q & H0).
    destruct (IH m0) as (m & E & Hm & Hall & Hin).
    exists m. cbn [fold_left]. rewrite E0, E.
    repeat split; try qlra.
    + constructor; [cbn [value_of]; qlra | exact Hall].
    + destruct Hin as [-> | Hin]; [|right; right; exact Hin].
      destruct H0 as [-> | ->]; [now left | right; left; reflexivity].
Qed.

(** [Math.min(...h)] and [Math.max(...h)] of a history of finite numbers
    are entries of it and bound it. *)
Lemma min_max_of_history (h : list qnum) :
  h <> [] -> Forall is_finite h ->
  exists lo hi : Q,
    JsArray.min_of h = Fin lo /\ JsArray.max_of h = Fin hi /\
    In (Fin lo) h /\ In (Fin hi) h /\
    Forall (fun x => lo <= value_of x <= hi) h.
Proof.
  intros Hne Hfin. destruct h as [|x xs]; [congruence|].
  inversion Hfin as [|? ? [q ->] Hxs]; subst.
  destruct (fold_min_fin xs Hxs q) as (lo & El & Hl & Al & Il).
  destruct (fold_max_fin xs Hxs q) as (hi & Eh & Hh & Ah & Ih).
  exists lo, hi. unfold JsArray.min_of, JsArray.max_of. cbn [fold_left].
  change (Js.min PInf (Fin q)) with (Fin q).
  change (Js.max NInf (Fin q)) with (Fin q).
  rewrite El, Eh. repeat split.
  - destruct Il as [-> | Il]; [now left | now right].
  - destruct Ih as [-> | Ih]; [now left | now right].
  - constructor; [cbn [value_of]; qlra|].
    rewrite Forall_forall in *. intros y Hy.
    specialize (Al y Hy). specialize (Ah y Hy). cbv beta in *. qlra.
Qed.

Lemma strict_eq_fin (a b : Q) :
  JsArray.strict_eq (Fin a) (Fin b) = true <-> a == b.
Proof.
  unfold JsArray.strict_eq. cbn [Js.compare fcmp QField].
  rewrite Qeq_alt. destruct (a ?= b); split; congruence.
Qed.

Lemma Qtruthy_fin (c : Q) : ~ c == 0 -> truthy (Fin c) = true.
Proof.
  intros Hc. cbn [truthy]. destruct (sgn c) eqn:E; try reflexivity.
  apply Qsgn_Eq in E. contradiction.
Qed.

Lemma rank_value_bounds (c lo hi : Q) :
  lo < hi ->
  (lo <= c <= hi -> 0 <= rank_value c lo hi <= 100) /\
  (hi < c -> 100 < rank_value c lo hi) /\
  (c < lo -> rank_value c lo hi < 0).
Proof.
  intros H. unfold rank_value.
  assert (Hd : 0 < hi - lo) by qlra.
  assert (E : (c - lo) / (hi - lo) * (hi - lo) == c - lo)
    by (field; qlra).
  set (q := (c - lo) / (hi - lo)) in *.
  repeat split; intros; qnra.
Qed.

Lemma round_near (x : Q) :
  Qabs (inject_Z (Qfloor (x + (1 # 2))) - x) <= 1 # 2.
Proof.
  pose proof (Qfloor_le (x + (1 # 2))) as Hle.
  pose proof (Qlt_floor (x + (1 # 2))) as Hlt.
  rewrite inject_Z_plus in Hlt. change (inject_Z 1) with 1 in Hlt.
  apply Qabs_Qle_condition. split; qlra.
Qed.

(** X6.  For a current IV other than zero and a history of finite numbers
    that is not empty: the minimum and maximum are entries of the history
    that bound it; a flat history gives rank 50, medium, neutral, whatever
    the current IV; otherwise the rank is reported in tenths, it lies in
    [[0, 100]], within 0.06 of [100 * (current - min) / (max - min)], when
    the current IV lies within the history, is at least 100 above it and at
    most 0 below it; the level is the one of the thresholds 75, 50 and 25
    on the unrounded rank, up to a thousandth at a threshold, and the
    recommendation is the one that goes with the level. *)
Theorem calculateIVRank_bounds (c : Q) (h : list qnum) :
  ~ c == 0 -> h <> [] -> Forall is_finite h ->
  exists lo hi : Q,
    In (Fin lo) h /\ In (Fin hi) h /\
    Forall (fun x => lo <= value_of x <= hi) h /\
    let r := IvRankCalc.calculateIVRank (Fin c) (Some h) in
    (lo == hi ->
     IvRankCalc.ivRank r = Some (Fin 50) /\
     IvRankCalc.level r = IvRankCalc.medium /\
     IvRankCalc.recommendation r = IvRankCalc.neutral) /\
    (lo < hi ->
     exists z : Z,
       IvRankCalc.ivRank r = Some (Fin (inject_Z z / 10)) /\
       (lo <= c <= hi ->
        (0 <= z <= 1000)%Z /\
        Qabs (inject_Z z / 10 - rank_value c lo hi) <= 6 # 100) /\
       (hi < c -> (1000 <= z)%Z) /\
       (c < lo -> (z <= 0)%Z) /\
       IvRankCalc.minIV r = Some (Fin lo) /\
       IvRankCalc.maxIV r = Some (Fin hi) /\
       level_band (IvRankCalc.level r) (rank_value c lo hi) /\
       IvRankCalc.recommendation r = advice (IvRankCalc.level r)).
Proof.
  intros Hc Hne Hfin.
  destruct (min_max_of_history h Hne Hfin)
    as (lo & hi & El & Eh & Il & Ih & Hall).
  exists lo, hi. repeat (split; [assumption|]).
  cbv zeta. unfold IvRankCalc.calculateIVRank.
  destruct h as [|x xs]; [congruence|].
  rewrite (Qtruthy_fin c Hc). cbn [negb]. rewrite El, Eh.
  split.
  - intros E.
    assert (S : JsArray.strict_eq (Fin hi) (Fin lo) = true)
      by (apply strict_eq_fin; symmetry; exact E).
    rewrite S. cbn. repeat split.
  - intros Hlt.
    assert (S : JsArray.strict_eq (Fin hi) (Fin lo) = false).
    { destruct (JsArray.strict_eq (Fin hi) (Fin lo)) eqn:S; [|reflexivity].
      apply strict_eq_fin in S. qlra. }
    rewrite S. unfold IvRankCalc.rawRank. cbn [Js.sub fsub QField].
    rewrite Qdiv_fin by qlra. cbn [Js.mul fmul QField].
    fold (rank_value c lo hi).
    destruct (rank_value_bounds c lo hi Hlt) as (Bin & Babove & Bbelow).
    set (v := rank_value c lo hi) in *.
    rewrite round_fin. rewrite Qdiv_fin by (intros K; discriminate K).
    exists (Qfloor (v * 10 + (1 # 2))).
    assert (T75 : (Fin v >=? Fin 75)%js = true <-> 75 <= v)
      by apply Qgeb_fin.
    assert (T50 : (Fin v >=? Fin 50)%js = true <-> 50 <= v)
      by apply Qgeb_fin.
    assert (T25 : (Fin v >=? Fin 25)%js = true <-> 25 <= v)
      by apply Qgeb_fin.
    assert (Zlo : forall k : Z, inject_Z k <= v * 10 ->
                    (k <= Qfloor (v * 10 + (1 # 2)))%Z)
      by (intros k Hk; apply round_at_least; exact Hk).
    assert (Zhi : forall k : Z, v * 10 <= inject_Z k ->
                    (Qfloor (v * 10 + (1 # 2)) <= k)%Z).
    { intros k Hk.
      apply Z.lt_succ_r. rewrite Zlt_Qlt.
      apply Qle_lt_trans with (v * 10 + (1 # 2)); [apply Qfloor_le|].
      unfold Z.succ. rewrite inject_Z_plus.
      change (inject_Z 1) with 1. qlra. }
    assert (R0 : Qabs (inject_Z (Qfloor (v * 10 + (1 # 2))) / 10 - v)
                 <= 6 # 100).
    { pose proof (round_near (v * 10)) as N.
      apply Qabs_Qle_condition in N. destruct N as [N1 N2].
      assert (E : inject_Z (Qfloor (v * 10 + (1 # 2))) / 10 * 10
                  == inject_Z (Qfloor (v * 10 + (1 # 2))))
        by (field; intros K; discriminate K).
      set (zq := inject_Z (Qfloor (v * 10 + (1 # 2)))) in *.
      set (t := zq / 10) in *.
      apply Qabs_Qle_condition. split; qlra. }
    assert (R1 : lo <= c <= hi ->
                 (0 <= Qfloor (v * 10 + (1 # 2)) <= 1000)%Z).
    { intros Hin. specialize (Bin Hin). split; [apply Zlo | apply Zhi];
        [change (inject_Z 0) with 0 | change (inject_Z 1000) with 1000];
        qlra. }
    assert (R2 : hi < c -> (1000 <= Qfloor (v * 10 + (1 # 2)))%Z).
    { intros Ha. specialize (Babove Ha). apply Zlo.
      change (inject_Z 1000) with 1000. qlra. }
    assert (R3 : c < lo -> (Qfloor (v * 10 + (1 # 2)) <= 0)%Z).
    { intros Hb. specialize (Bbelow Hb). apply Zhi.
      change (inject_Z 0) with 0. qlra. }
    destruct (Fin v >=? Fin 75)%js eqn:B75;
      [|destruct (Fin v >=? Fin 50)%js eqn:B50;
        [|destruct (Fin v >=? Fin 25)%js eqn:B25]];
      cbn [IvRankCalc.ivRank IvRankCalc.level IvRankCalc.recommendation
           IvRankCalc.minIV IvRankCalc.maxIV level_band advice];
      (split; [reflexivity|]);
      (split; [intros Hin; split; [exact (R1 Hin) | exact R0]|]);
      (split; [exact R2|]); (split; [exact R3|]);
      (split; [reflexivity|]); (split; [reflexivity|]);
      repeat match goal with
             | H : ?b = true, T : ?b = true <-> _ |- _ =>
                 apply T in H
             | H : ?b = false, T : ?b = true <-> ?P |- _ =>
                 assert (~ P) by (intros K; apply T in K; congruence);
                 clear H
             end;
      repeat match goal with
             | H : ~ _ <= _ |- _ => apply Qnot_le_lt in H
             end;
      (split; [|reflexivity]); try split; qlra.
Qed.

Lemma calculateIVRank_bounds_witness :
  exists lo hi : Q,
    In (Fin lo) [Fin 0.2; Fin 0.5; Fin 0.3] /\
    In (Fin hi) [Fin 0.2; Fin 0.5; Fin 0.3] /\
    Forall (fun x => lo <= value_of x <= hi) [Fin 0.2; Fin 0.5; Fin 0.3].
Proof.
  destruct (calculateIVRank_bounds 0.4 [Fin 0.2; Fin 0.5; Fin 0.3])
    as (lo & hi & Hlo & Hhi & Hall & _).
  - intros K. discriminate K.
  - discriminate.
  - repeat (apply Forall_cons || apply Forall_nil); eexists; reflexivity.
  - exists lo, hi. repeat split; assumption.
Defined.

(** A current IV two thirds of the way up the history. *)
Example calculateIVRank_sample :
  let r := IvRankCalc.calculateIVRank (Fin 0.4)
             (Some [Fin 0.2; Fin 0.5; Fin 0.3]) in
  IvRankCalc.ivRank r = Some (Fin (667 # 10)) /\
  IvRankCalc.level r = IvRankCalc.high /\
  IvRankCalc.recommendation r = IvRankCalc.sell_premium.
Proof. vm_compute. repeat split. Qed.

Lemma insert_by_perm (A : Type) (cmp : A -> A -> qnum) (x : A)
  (l : list A) : Permutation (JsArray.insert_by cmp x l) (x :: l).
Proof.
  induction l as [|y l IH]; cbn [JsArray.insert_by]; [reflexivity|].
  destruct (cmp x y >? Fin 0)%js; [|reflexivity].
  rewrite IH. apply perm_swap.
Qed.

Lemma sort_by_perm (A : Type) (cmp : A -> A -> qnum) (l : list A) :
  Permutation (JsArray.sort_by cmp l) l.
Proof.
  induction l as [|x l IH]; cbn; [reflexivity|].
  unfold JsArray.sort_by in IH. rewrite insert_by_perm, IH. reflexivity.
Qed.

Lemma filter_perm (A : Type) (f : A -> bool) (l l' : list A) :
  Permutation l l' -> Permutation (filter f l) (filter f l').
Proof.
  induction 1 as [| x l l' _ IH | x y l | l l' l'' _ IH1 _ IH2];
    cbn [filter].
  - reflexivity.
  - destruct (f x); [constructor|]; exact IH.
  - destruct (f x), (f y); try reflexivity. apply perm_swap.
  - rewrite IH1. exact IH2.
Qed.

(** The sort of [calculateIVPercentile] does not matter to its result. *)
Lemma calculateIVPercentile_unsorted (c : Q) (h : list qnum) :
  ~ c == 0 -> h <> [] ->
  IvRankCalc.calculateIVPercentile (Fin c) (Some h)
  = Some (Fin (inject_Z
                 (Qfloor (percent_of (below c h) (List.length h)
                          + (1 # 2))))).
Proof.
  intros Hc Hne. unfold IvRankCalc.calculateIVPercentile.
  destruct h as [|x xs]; [congruence|].
  rewrite (Qtruthy_fin c Hc). cbn [negb]. cbv zeta.
  remember (x :: xs) as h eqn:Eh.
  match goal with
  | |- context [JsArray.sort_by ?f h] => set (sorted := JsArray.sort_by f h)
  end.
  assert (P : Permutation sorted h) by apply sort_by_perm.
  unfold JsArray.length_of.
  rewrite (Permutation_length P).
  rewrite (Permutation_length
             (filter_perm _ (fun iv => Js.ltb iv (Fin c)) _ _ P)).
  fold (below c h).
  assert (Hn : ~ inject_Z (Z.of_nat (List.length h)) == 0).
  { rewrite Eh. cbn [List.length]. intros K.
    change 0 with (inject_Z 0) in K.
    apply (proj1 (inject_Z_injective _ _)) in K. lia. }
  rewrite Qdiv_fin by exact Hn. cbn [Js.mul fmul QField].
  rewrite round_fin. reflexivity.
Qed.

Lemma below_le_length (c : Q) (h : list qnum) :
  (below c h <= List.length h)%nat.
Proof. unfold below. apply filter_length_le. Qed.

Lemma below_mono (c c' : Q) (h : list qnum) :
  c <= c' -> (below c h <= below c' h)%nat.
Proof.
  intros Hcc. unfold below.
  induction h as [|x h IH]; cbn [filter]; [lia|].
  destruct (Js.ltb x (Fin c)) eqn:E.
  - assert (E' : Js.ltb x (Fin c') = true).
    { destruct x as [| |q|]; try discriminate E; try reflexivity.
      apply Qltb_fin in E. apply Qltb_fin. qlra. }
    rewrite E'. cbn [List.length]. lia.
  - destruct (Js.ltb x (Fin c')); cbn [List.length]; lia.
Qed.

Lemma percent_of_mono (k k' n : nat) :
  (0 < n)%nat -> (k <= k')%nat -> percent_of k n <= percent_of k' n.
Proof.
  intros Hn Hk. unfold percent_of.
  assert (Hq : 0 < inject_Z (Z.of_nat n)).
  { change 0 with (inject_Z 0). rewrite <- Zlt_Qlt. lia. }
  assert (Hkk : inject_Z (Z.of_nat k) <= inject_Z (Z.of_nat k')).
  { rewrite <- Zle_Qle. lia. }
  set (a := inject_Z (Z.of_nat k)) in *.
  set (b := inject_Z (Z.of_nat k')) in *.
  set (d := inject_Z (Z.of_nat n)) in *.
  assert (Ea : a / d * d == a) by (field; qlra).
  assert (Eb : b / d * d == b) by (field; qlra).
  set (qa := a / d) in *. set (qb := b / d) in *. qnra.
Qed.

Lemma percent_of_range (k n : nat) :
  (0 < n)%nat -> (k <= n)%nat -> 0 <= percent_of k n <= 100.
Proof.
  intros Hn Hk. split.
  - assert (E : percent_of 0 n == 0).
    { unfold percent_of. cbn [Z.of_nat]. change (inject_Z 0) with 0.
      unfold Qdiv. ring. }
    rewrite <- E. apply percent_of_mono; [exact Hn | lia].
  - assert (E : percent_of n n == 100).
    { unfold percent_of. field. intros K.
      change 0 with (inject_Z 0) in K.
      apply (proj1 (inject_Z_injective _ _)) in K. lia. }
    rewrite <- E. apply percent_of_mono; [exact Hn | exact Hk].
Qed.

(** X7.  For a current IV other than zero and a history that is not empty,
    the percentile is an integer between 0 and 100, a nearest one to the
    share [100 * k / n] of the [k] entries below the current IV among the
    [n] of the history.  It does not depend on the order of the history and
    does not decrease when the current IV grows. *)
Theorem calculateIVPercentile_counts (c : Q) (h : list qnum) :
  ~ c == 0 -> h <> [] ->
  exists z : Z,
    IvRankCalc.calculateIVPercentile (Fin c) (Some h)
    = Some (Fin (inject_Z z)) /\
    Qabs (inject_Z z - percent_of (below c h) (List.length h)) <= 1 # 2 /\
    (0 <= z <= 100)%Z /\
    (forall h', Permutation h h' ->
       IvRankCalc.calculateIVPercentile (Fin c) (Some h')
       = IvRankCalc.calculateIVPercentile (Fin c) (Some h)) /\
    (forall c', c <= c' -> ~ c' == 0 ->
       exists z',
         IvRankCalc.calculateIVPercentile (Fin c') (Some h)
         = Some (Fin (inject_Z z')) /\ (z <= z')%Z).
Proof.
  intros Hc Hne.
  assert (Hlen : (0 < List.length h)%nat)
    by (destruct h; [congruence | cbn; lia]).
  eexists. split; [apply (calculateIVPercentile_unsorted c h Hc Hne)|].
  split; [apply round_near|].
  split.
  { apply round_range.
    apply percent_of_range; [exact Hlen | apply below_le_length]. }
  split.
  - intros h' P.
    assert (Hne' : h' <> []).
    { intros ->. apply Permutation_sym, Permutation_nil in P.
      contradiction. }
    rewrite (calculateIVPercentile_unsorted c h Hc Hne),
      (calculateIVPercentile_unsorted c h' Hc Hne').
    unfold below.
    rewrite <- (Permutation_length P).
    rewrite <- (Permutation_length
                  (filter_perm _ (fun iv => Js.ltb iv (Fin c)) _ _ P)).
    reflexivity.
  - intros c' Hcc Hc'.
    eexists. split; [apply (calculateIVPercentile_unsorted c' h Hc' Hne)|].
    apply Qfloor_resp_le.
    pose proof (percent_of_mono (below c h) (below c' h) (List.length h)
                  Hlen (below_mono c c' h Hcc)).
    qlra.
Qed.

Lemma calculateIVPercentile_counts_witness :
  exists z : Z,
    IvRankCalc.calculateIVPercentile (Fin 0.35)
      (Some [Fin 0.2; Fin 0.5; Fin 0.3])
    = Some (Fin (inject_Z z)) /\ (0 <= z <= 100)%Z.
Proof.
  destruct (calculateIVPercentile_counts 0.35 [Fin 0.2; Fin 0.5; Fin 0.3])
    as (z & Hz & _ & Hr & _).
  - intros K. discriminate K.
  - discriminate.
  - exists z. split; assumption.
Defined.

End IvRankFacts.

(* ================================================================== *)
(** ** Facts about the cache                                           *)
(* ================================================================== *)

Section CacheFacts.

Import LibSpec.
Variable Data : Type.
Local Open Scope Z_scope.

Implicit Types (cache : Cache.t Data) (key : string) (item : Cache.Item Data).

Lemma get_In key cache item :
  Cache.get key cache = Some item -> In (key, item) cache.
Proof.
  induction cache as [|[k i] c IH]; cbn [Cache.get]; [discriminate|].
  destruct (String.eqb k key) eqn:E.
  - apply String.eqb_eq in E. intros [= ->]. left. now subst.
  - intros H. right. exact (IH H).
Qed.

Lemma get_None key cache :
  ~ In key (map fst cache) -> Cache.get key cache = None.
Proof.
  induction cache as [|[k i] c IH]; cbn [Cache.get map fst In];
    [reflexivity|].
  intros H. destruct (String.eqb k key) eqn:E.
  - apply String.eqb_eq in E. tauto.
  - apply IH. tauto.
Qed.

Lemma get_set_same key item cache :
  Cache.get key (Cache.set key item cache) = Some item.
Proof.
  induction cache as [|[k i] c IH]; cbn [Cache.set Cache.get].
  - rewrite String.eqb_refl. reflexivity.
  - destruct (String.eqb k key) eqn:E; cbn [Cache.get]; rewrite E;
      [reflexivity | exact IH].
Qed.

Lemma get_set_other key key' item cache :
  key' <> key ->
  Cache.get key' (Cache.set key item cache) = Cache.get key' cache.
Proof.
  intros Hk.
  induction cache as [|[k i] c IH]; cbn [Cache.set Cache.get].
  - apply String.eqb_neq in Hk. rewrite String.eqb_sym, Hk. reflexivity.
  - destruct (String.eqb k key) eqn:E; cbn [Cache.get].
    + apply String.eqb_eq in E. subst k.
      apply String.eqb_neq in Hk. rewrite String.eqb_sym, Hk. reflexivity.
    + rewrite IH. reflexivity.
Qed.

Lemma keys_set key item cache :
  forall k, In k (map fst (Cache.set key item cache)) <->
            k = key \/ In k (map fst cache).
Proof.
  induction cache as [|[k0 i] c IH]; intros k; cbn [Cache.set map fst In].
  - intuition.
  - destruct (String.eqb k0 key) eqn:E; cbn [map fst In].
    + apply String.eqb_eq in E. subst. intuition.
    + rewrite IH. intuition.
Qed.

Lemma unique_set key item cache :
  unique_keys cache -> unique_keys (Cache.set key item cache).
Proof.
  unfold unique_keys.
  induction cache as [|[k i] c IH]; cbn [Cache.set map fst]; intros H.
  - constructor; [intros []|constructor].
  - inversion H as [|? ? Hk Hc]; subst.
    destruct (String.eqb k key) eqn:E; cbn [map fst].
    + constructor; assumption.
    + constructor; [|apply IH; exact Hc].
      rewrite keys_set. apply String.eqb_neq in E. intuition.
Qed.

Lemma keys_delete key cache :
  forall k, In k (map fst (Cache.delete key cache)) ->
            In k (map fst cache).
Proof.
  induction cache as [|[k0 i] c IH]; intros k; cbn [Cache.delete map fst In].
  - tauto.
  - destruct (String.eqb k0 key); cbn [map fst In]; [tauto|].
    intros [H | H]; [now left | right; apply IH; exact H].
Qed.

Lemma unique_delete key cache :
  unique_keys cache -> unique_keys (Cache.delete key cache).
Proof.
  unfold unique_keys.
  induction cache as [|[k i] c IH]; cbn [Cache.delete map fst]; intros H.
  - constructor.
  - inversion H as [|? ? Hk Hc]; subst.
    destruct (String.eqb k key); cbn [map fst]; [exact Hc|].
    constructor; [|apply IH; exact Hc].
    intros K. apply Hk. apply (keys_delete key c k K).
Qed.

Lemma get_delete_same key cache :
  unique_keys cache -> Cache.get key (Cache.delete key cache) = None.
Proof.
  unfold unique_keys.
  induction cache as [|[k i] c IH]; cbn [Cache.delete map fst]; intros H.
  - reflexivity.
  - inversion H as [|? ? Hk Hc]; subst.
    destruct (String.eqb k key) eqn:E.
    + apply String.eqb_eq in E. subst. apply get_None. exact Hk.
    + cbn [Cache.get]. rewrite E. apply IH. exact Hc.
Qed.

Lemma get_delete_other key key' cache :
  key' <> key ->
  Cache.get key' (Cache.delete key cache) = Cache.get key' cache.
Proof.
  intros Hk.
  induction cache as [|[k i] c IH]; cbn [Cache.delete Cache.get];
    [reflexivity|].
  destruct (String.eqb k key) eqn:E; cbn [Cache.get].
  - apply String.eqb_eq in E. subst k.
    apply String.eqb_neq in Hk. rewrite String.eqb_sym, Hk. reflexivity.
  - rewrite IH. reflexivity.
Qed.

Lemma keys_filter (f : string * Cache.Item Data -> bool) cache :
  forall k, In k (map fst (filter f cache)) -> In k (map fst cache).
Proof.
  intros k. rewrite !in_map_iff. intros (e & He & Hin).
  apply filter_In in Hin. exists e. tauto.
Qed.

Lemma unique_filter (f : string * Cache.Item Data -> bool) cache :
  unique_keys cache -> unique_keys (filter f cache).
Proof.
  unfold unique_keys.
  induction cache as [|[k i] c IH]; cbn [filter map fst]; intros H.
  - constructor.
  - inversion H as [|? ? Hk Hc]; subst.
    destruct (f (k, i)); cbn [map fst]; [|apply IH; exact Hc].
    constructor; [|apply IH; exact Hc].
    intros K. apply Hk. apply (keys_filter f c k K).
Qed.

Lemma get_filter (f : string * Cache.Item Data -> bool) key cache :
  unique_keys cache ->
  Cache.get key (filter f cache) =
  match Cache.get key cache with
  | Some item => if f (key, item) then Some item else None
  | None => None
  end.
Proof.
  unfold unique_keys.
  induction cache as [|[k i] c IH]; cbn [filter map fst Cache.get];
    intros H; [reflexivity|].
  inversion H as [|? ? Hk Hc]; subst.
  destruct (String.eqb k key) eqn:E.
  - apply String.eqb_eq in E. subst k.
    destruct (f (key, i)); cbn [Cache.get].
    + rewrite String.eqb_refl. reflexivity.
    + apply get_None. intros K. apply Hk. apply (keys_filter f c key K).
  - destruct (f (k, i)); cbn [Cache.get]; [rewrite E|]; apply IH; exact Hc.
Qed.

Lemma reads_get (t : Z) key cache :
  reads t key cache =
  match Cache.get key cache with
  | Some item => if t >? Cache.expiry item then None
                 else Some (Cache.data item)
  | None => None
  end.
Proof.
  unfold reads, Cache.getCache.
  destruct (Cache.get key cache) as [item|]; [|reflexivity].
  destruct (t >? Cache.expiry item); reflexivity.
Qed.

(** X8.  In a cache that holds each key once, after [setCache] of [data]
    under [key] at the time [now]: until [now + ttl * 1000] inclusive
    [getCache] returns [data] and leaves the cache as it is; later it
    returns nothing and removes the entry, so that no read of the key
    returns anything until the next [setCache]; the reads of every other
    key are what they were; each key is still held once. *)
Theorem setCache_getCache (cache : Cache.t Data) (now ttl now' : Z)
  (key : string) (data : Data) :
  unique_keys cache ->
  let stored := Cache.setCache now key data ttl cache in
  unique_keys stored /\
  (now' <= now + ttl * 1000 ->
   Cache.getCache now' key stored = (Some data, stored)) /\
  (now + ttl * 1000 < now' ->
   reads now' key stored = None /\
   unique_keys (snd (Cache.getCache now' key stored)) /\
   forall t, reads t key (snd (Cache.getCache now' key stored)) = None) /\
  (forall key' t, key' <> key -> reads t key' stored = reads t key' cache).
Proof.
  intros U. cbv zeta. unfold Cache.setCache.
  set (item := {| Cache.data := data; Cache.expiry := now + ttl * 1000 |}).
  pose proof (unique_set key item cache U) as U'.
  split; [exact U'|].
  split; [|split].
  - intros H. unfold Cache.getCache. rewrite get_set_same.
    cbn [Cache.expiry Cache.data item].
    destruct (now' >? now + ttl * 1000) eqn:E; [lia | reflexivity].
  - intros H. unfold reads at 1. unfold Cache.getCache.
    rewrite get_set_same. cbn [Cache.expiry Cache.data item].
    destruct (now' >? now + ttl * 1000) eqn:E; [|lia].
    cbn [fst snd]. split; [reflexivity|].
    split; [apply unique_delete; exact U'|].
    intros t. rewrite reads_get, get_delete_same by exact U'. reflexivity.
  - intros key' t Hk. rewrite !reads_get, get_set_other by exact Hk.
    reflexivity.
Qed.

(** X9.  In a cache that holds each key once, [cleanExpiredCache] at the
    time [now] cannot be observed by a read at [now] or later: every
    [getCache] returns what it would have returned.  The entries it keeps
    are those not yet expired, and each key is still held once. *)
Theorem cleanExpiredCache_transparent (cache : Cache.t Data) (now t : Z)
  (key : string) :
  unique_keys cache -> now <= t ->
  reads t key (Cache.cleanExpiredCache now cache) = reads t key cache /\
  unique_keys (Cache.cleanExpiredCache now cache) /\
  (forall k item,
      In (k, item) (Cache.cleanExpiredCache now cache) <->
      In (k, item) cache /\ now <= Cache.expiry item).
Proof.
  intros U Ht. unfold Cache.cleanExpiredCache.
  split; [|split].
  - rewrite !reads_get, get_filter by exact U.
    destruct (Cache.get key cache) as [item|]; [|reflexivity].
    cbn [snd]. destruct (now >? Cache.expiry item) eqn:E; cbn [negb];
      [|reflexivity].
    destruct (t >? Cache.expiry item) eqn:E'; [reflexivity | lia].
  - apply unique_filter. exact U.
  - intros k item. rewrite filter_In. cbn [snd].
    destruct (now >? Cache.expiry item) eqn:E; cbn [negb];
      intuition (discriminate || lia).
Qed.

(** X10.  In a cache that holds each key once, [clearCache] of a key other
    than the empty string removes that key and no other; [clearCache] of
    the empty string, like [clearCache] without a key, empties the cache:
    an entry stored under the empty string cannot be removed alone. *)
Theorem clearCache_effect (cache : Cache.t Data) (key : string) :
  unique_keys cache ->
  (key <> ""%string ->
   Cache.get key (Cache.clearCache (Some key) cache) = None /\
   forall key', key' <> key ->
     Cache.get key' (Cache.clearCache (Some key) cache)
     = Cache.get key' cache) /\
  Cache.clearCache (Some ""%string) cache = [] /\
  Cache.clearCache None cache = [] /\
  (forall now data ttl key',
     Cache.get key'
       (Cache.clearCache (Some ""%string)
          (Cache.setCache now ""%string data ttl cache)) = None).
Proof.
  intros U. unfold Cache.clearCache. split; [|repeat split].
  intros Hk. apply String.eqb_neq in Hk. rewrite Hk. split.
  - apply get_delete_same. exact U.
  - intros key' Hk'. apply get_delete_other. exact Hk'.
Qed.

End CacheFacts.

Lemma setCache_getCache_witness :
  Cache.getCache 1000 "quote" (Cache.setCache 0 "quote" 42%nat 300 [])
  = (Some 42%nat, Cache.setCache 0 "quote" 42%nat 300 []).
Proof.
  apply (setCache_getCache nat [] 0 300 1000 "quote" 42%nat).
  - constructor.
  - lia.
Defined.

Lemma cleanExpiredCache_transparent_witness :
  LibSpec.reads 400000 "quote"
    (Cache.cleanExpiredCache 350000
       (Cache.setCache 0 "quote" 42%nat 300 []))
  = LibSpec.reads 400000 "quote" (Cache.setCache 0 "quote" 42%nat 300 []).
Proof.
  apply (cleanExpiredCache_transparent nat
           (Cache.setCache 0 "quote" 42%nat 300 []) 350000 400000 "quote").
  - repeat constructor. intros [].
  - lia.
Defined.

Lemma clearCache_effect_witness :
  Cache.clearCache (Some ""%string)
    (Cache.setCache 0 "quote" 42%nat 300 []) = [].
Proof.
  apply (clearCache_effect nat (Cache.setCache 0 "quote" 42%nat 300 [])
           "quote").
  repeat constructor. intros [].
Defined.

(* ================================================================== *)
(** ** Further facts about the engines                                 *)
(* ================================================================== *)

Section EngineMore.

Import EngineSpec LibSpec.
Local Open Scope Q_scope.

Ltac qlra := Lqa.lra.
Ltac qnra := Lqa.nra.

Ltac forget_inject :=
  repeat match goal with
         | |- context [inject_Z ?z] =>
             generalize dependent (inject_Z z); intros
         | H : context [inject_Z ?z] |- _ =>
             generalize dependent (inject_Z z); intros
         end.

Lemma rank_top3_length (l : list Strategy) :
  List.length (Ranker.rank_top3 l) = Nat.min 3 (List.length l).
Proof.
  unfold Ranker.rank_top3, Ranker.slice3.
  rewrite length_firstn, assign_from_length, sort_length. reflexivity.
Qed.

Lemma rank_top3_nth (l : list Strategy) (i : nat) (a : Strategy) :
  nth_error (Ranker.rank_top3 l) i = Some a ->
  (i < 3)%nat /\
  exists s,
    nth_error (Ranker.sort Ranker.comparator l) i = Some s /\
    a = set_rank s (S i) (podium i).
Proof.
  intros Ha. unfold Ranker.rank_top3, Ranker.slice3 in Ha.
  apply nth_error_firstn_Some in Ha. destruct Ha as [Hi Ha].
  rewrite assign_from_nth in Ha. cbn [Nat.add] in Ha.
  destruct (nth_error (Ranker.sort Ranker.comparator l) i) as [s|] eqn:Es;
    [|discriminate].
  cbn [option_map] in Ha. injection Ha as <-.
  split; [exact Hi|]. exists s. split; [reflexivity|].
  destruct i as [|[|[|i]]]; try reflexivity. lia.
Qed.

Lemma rank_top3_nth_inv (l : list Strategy) (i : nat) (s : Strategy) :
  (i < 3)%nat ->
  nth_error (Ranker.sort Ranker.comparator l) i = Some s ->
  nth_error (Ranker.rank_top3 l) i = Some (set_rank s (S i) (podium i)).
Proof.
  intros Hi Hs. unfold Ranker.rank_top3, Ranker.slice3.
  rewrite nth_error_firstn.
  destruct (Nat.ltb_spec i 3) as [_|]; [|lia].
  rewrite assign_from_nth, Hs. cbn [option_map Nat.add].
  destruct i as [|[|[|i]]]; try reflexivity. lia.
Qed.

Lemma descending_nth_lt (l : list Strategy) :
  descending l ->
  forall i k a b,
    (i < k)%nat -> nth_error l i = Some a -> nth_error l k = Some b ->
    score_value b <= score_value a.
Proof.
  induction 1 as [|x l Hs IH Hhd]; intros i k a b Hik Ha Hb.
  - destruct i; discriminate.
  - destruct k as [|k]; [lia|]. cbn [nth_error] in Hb.
    destruct i as [|i]; cbn [nth_error] in Ha.
    + injection Ha as <-. rewrite Forall_forall in Hhd.
      apply Hhd. apply (nth_error_In l k). exact Hb.
    + apply (IH i k a b); [lia | exact Ha | exact Hb].
Qed.

(** The three candidates the ranker returns are the best ones: a candidate
    is returned, or its score is at most that of every returned one. *)
Lemma rank_top3_best (l : list Strategy) :
  Forall finite_score l ->
  forall c, In c l ->
    (exists i, nth_error (Ranker.rank_top3 l) i
               = Some (set_rank c (S i) (podium i))) \/
    (forall a, In a (Ranker.rank_top3 l) -> score_value c <= score_value a).
Proof.
  intros Hfin c Hc.
  pose proof (sort_descending l Hfin) as Hd.
  assert (Hin : In c (Ranker.sort Ranker.comparator l)).
  { apply (Permutation_in c (Permutation_sym (sort_perm _ l))). exact Hc. }
  apply In_nth_error in Hin. destruct Hin as [k Hk].
  destruct (Nat.ltb_spec k 3) as [Hlt | Hge].
  - left. exists k. apply rank_top3_nth_inv; assumption.
  - right. intros a Ha. apply In_nth_error in Ha. destruct Ha as [i Hi].
    apply rank_top3_nth in Hi. destruct Hi as (Hi3 & s & Hs & ->).
    change (score_value (set_rank s (S i) (podium i)))
      with (score_value s).
    apply (descending_nth_lt _ Hd i k s c); [lia | exact Hs | exact Hk].
Qed.

(** X11.  At a finite IV rank and horizon the estimated engine holds two
    to six candidates and returns the first three of them, or both: it
    returns two recommendations exactly when the trend is bearish, the
    horizon is under 7 days and the IV rank is outside [[45, 60]], and
    three otherwise. *)
Theorem generateAllStrategies_count (params : Enhanced.Params) (r d : Q) :
  IvRank.ivRank (Enhanced.ivRank params) = Fin r ->
  Enhanced.dte params = Fin d ->
  let n := List.length (Enhanced.candidates params) in
  (2 <= n <= 6)%nat /\
  List.length (Enhanced.generateAllStrategies params) = Nat.min 3 n /\
  (List.length (Enhanced.generateAllStrategies params) = 2%nat <->
   Ta.trend (Enhanced.taScore params) = bearish /\ d < 7 /\
   (r < 45 \/ 60 < r)).
Proof.
  intros Hr Hd. cbv zeta.
  assert (Hlen : List.length (Enhanced.generateAllStrategies params)
                 = Nat.min 3 (List.length (Enhanced.candidates params))).
  { unfold Enhanced.generateAllStrategies.
    rewrite rank_top3_length, length_map. reflexivity. }
  rewrite Hlen.
  rewrite <- (length_map type (Enhanced.candidates params)).
  pose proof (candidates_types params) as Ht. cbv zeta in Ht.
  rewrite Ht, Hr, Hd.
  pose proof (Qgeb_fin r 45) as G45. pose proof (Qleb_fin r 60) as L60.
  pose proof (Qgeb_fin d 7) as G7.
  destruct (Fin r >=? Fin 45)%js, (Fin r <=? Fin 60)%js,
           (Fin d >=? Fin 7)%js,
           (Ta.trend (Enhanced.taScore params));
    cbn [Trend_eqb negb andb app List.length Nat.min];
    repeat match goal with
           | H : true = true <-> _ |- _ =>
               pose proof (proj1 H eq_refl); clear H
           | H : false = true <-> ?P |- _ =>
               assert (~ P) by (intros K; apply H in K; discriminate K);
               clear H
           end;
    first
      [ exfalso; qlra
      | split; [lia|]; split; [reflexivity|]; split;
        [ intros K;
          first
            [ discriminate K
            | split; [reflexivity|]; split; [qlra|];
              first [left; qlra | right; qlra] ]
        | intros (K1 & K2 & K3);
          first
            [ reflexivity
            | discriminate K1
            | exfalso; qlra
            | exfalso; destruct K3; qlra ] ] ].
Qed.

Lemma generateAllStrategies_count_witness :
  List.length
    (Enhanced.generateAllStrategies (sample_params 65 bearish 3)) = 2%nat.
Proof.
  apply (generateAllStrategies_count (sample_params 65 bearish 3) 65 3
           eq_refl eq_refl).
  split; [reflexivity|]. split; [reflexivity|]. right. reflexivity.
Defined.

(** X12.  On a snapshot with a positive price and volatility (the estimated
    butterfly debit under 1000) and a finite technical score, every
    recommendation of [generateAllStrategies] is a candidate with its score
    written into it, an integer between 0 and 100, and with its position as
    rank and the marker of that position; the scores do not increase along
    the list; and the list holds the best candidates: a candidate that is
    not returned scores at most as much as every returned one. *)
Theorem generateAllStrategies_ranked (params : Enhanced.Params) (p v : Q) :
  Enhanced.currentPrice params = Fin p ->
  Enhanced.atmIV params = Fin v ->
  0 < p -> 0 < v -> v * p * 0.012 < 1000 ->
  is_finite (Ta.score (Enhanced.taScore params)) ->
  let out := Enhanced.generateAllStrategies params in
  let scoreOf := fun c =>
    Enhanced.calculateScore c (Enhanced.ivRank params)
      (Enhanced.taScore params) (Enhanced.gexData params) in
  (forall i a,
      nth_error out i = Some a ->
      exists c z,
        In c (Enhanced.candidates params) /\
        a = set_rank (set_score c (scoreOf c)) (S i) (podium i) /\
        scoreOf c = Fin (inject_Z z) /\ (0 <= z <= 100)%Z) /\
  (forall i a b,
      nth_error out i = Some a -> nth_error out (S i) = Some b ->
      score_value b <= score_value a) /\
  (forall c,
      In c (Enhanced.candidates params) ->
      (exists i, nth_error out i
                 = Some (set_rank (set_score c (scoreOf c)) (S i) (podium i)))
      \/ (forall a, In a out -> value_of (scoreOf c) <= score_value a)).
Proof.
  intros Hp Hv Hp0 Hv0 Hb Hta. cbv zeta.
  unfold Enhanced.generateAllStrategies.
  set (sc := fun strategy =>
               set_score strategy
                 (Enhanced.calculateScore strategy (Enhanced.ivRank params)
                    (Enhanced.taScore params) (Enhanced.gexData params))).
  pose proof (generateAllStrategies_scored params p v Hp Hv Hp0 Hv0 Hb Hta)
    as Hfin. fold sc in Hfin.
  pose proof (generators_scorable params p v Hp Hv Hp0 Hv0 Hb) as Hsc.
  pose proof (sort_descending _ Hfin) as Hd.
  split; [|split].
  - intros i a Ha. apply rank_top3_nth in Ha.
    destruct Ha as (_ & s & Hs & ->).
    apply nth_error_In in Hs.
    apply (Permutation_in s (sort_perm _ _)) in Hs.
    apply in_map_iff in Hs. destruct Hs as (c & <- & Hc).
    rewrite Forall_forall in Hsc.
    destruct (calculateScore_in_range c (Enhanced.ivRank params)
                (Enhanced.taScore params) (Enhanced.gexData params)
                (Hsc c Hc) Hta) as (z & Hz & Hr).
    exists c, z. repeat split; try assumption; lia.
  - intros i a b Ha Hb'.
    apply rank_top3_nth in Ha. destruct Ha as (_ & sa & Hsa & ->).
    apply rank_top3_nth in Hb'. destruct Hb' as (_ & sb & Hsb & ->).
    change (score_value (set_rank sb (S (S i)) (podium (S i))))
      with (score_value sb).
    change (score_value (set_rank sa (S i) (podium i)))
      with (score_value sa).
    apply (descending_nth _ Hd i sa sb Hsa Hsb).
  - intros c Hc.
    destruct (rank_top3_best _ Hfin (sc c) (in_map sc _ c Hc)) as [H | H].
    + left. exact H.
    + right. exact H.
Qed.

Lemma generateAllStrategies_ranked_witness :
  Forall
    (fun a => exists z : Z,
                score a = Some (Fin (inject_Z z)) /\ (0 <= z <= 100)%Z)
    (Enhanced.generateAllStrategies (sample_params 65 bullish 7)).
Proof.
  destruct (generateAllStrategies_ranked (sample_params 65 bullish 7)
              250.5 0.35 eq_refl eq_refl) as (H & _).
  - reflexivity.
  - reflexivity.
  - reflexivity.
  - eexists. reflexivity.
  - apply Forall_forall. intros a Ha.
    apply In_nth_error in Ha. destruct Ha as [i Hi].
    destruct (H i a Hi) as (c & z & _ & -> & Hz & Hr).
    exists z. cbn [score set_rank set_score].
    split; [rewrite Hz; reflexivity | exact Hr].
Defined.

Lemma round_bounds (x : Q) :
  x - (1 # 2) < inject_Z (Qfloor (x + (1 # 2))) <= x + (1 # 2).
Proof.
  pose proof (Qfloor_le (x + (1 # 2))) as Hle.
  pose proof (Qlt_floor (x + (1 # 2))) as Hlt.
  rewrite inject_Z_plus in Hlt. change (inject_Z 1) with 1 in Hlt.
  split; qlra.
Qed.

Lemma round5_fin (x : Q) :
  Enhanced.round5 (Fin x) = Fin (inject_Z (Qfloor (x / 5 + (1 # 2))) * 5).
Proof.
  unfold Enhanced.round5.
  rewrite Qdiv_fin by (intros K; discriminate K).
  rewrite round_fin. reflexivity.
Qed.

Lemma round5_near (x : Q) :
  x - (5 # 2) < inject_Z (Qfloor (x / 5 + (1 # 2))) * 5 <= x + (5 # 2).
Proof.
  pose proof (round_bounds (x / 5)) as [H1 H2].
  assert (E : x / 5 * 5 == x) by (field).
  set (q := x / 5) in *. set (k := inject_Z (Qfloor (q + (1 # 2)))) in *.
  split; qlra.
Qed.

Lemma round5_mono (x y : Q) :
  x <= y -> (Qfloor (x / 5 + (1 # 2)) <= Qfloor (y / 5 + (1 # 2)))%Z.
Proof.
  intros H. apply Qfloor_resp_le.
  assert (Ex : x / 5 * 5 == x) by field.
  assert (Ey : y / 5 * 5 == y) by field.
  set (a := x / 5) in *. set (b := y / 5) in *. qlra.
Qed.

(** X13.  On a finite band with [lower <= upper], the strikes of the
    estimated iron condor are multiples of 5: each short strike is the
    multiple of 5 nearest to its band edge (a tie goes up), each long strike
    lies 10 beyond its short strike, and the short put is not above the
    short call. *)
Theorem generateIronCondor_strikes (params : Enhanced.Params) (lo hi : Q) :
  Enhanced.lower (Enhanced.oneSigma (Enhanced.volatilityRange params))
  = Fin lo ->
  Enhanced.upper (Enhanced.oneSigma (Enhanced.volatilityRange params))
  = Fin hi ->
  lo <= hi ->
  exists k1 k2 : Z,
    strikes (Enhanced.generateIronCondor params) =
    [("putBuy"%string, Fin (inject_Z k1 * 5 - 10));
     ("putSell"%string, Fin (inject_Z k1 * 5));
     ("callSell"%string, Fin (inject_Z k2 * 5));
     ("callBuy"%string, Fin (inject_Z k2 * 5 + 10))] /\
    (k1 <= k2)%Z /\
    lo - (5 # 2) < inject_Z k1 * 5 <= lo + (5 # 2) /\
    hi - (5 # 2) < inject_Z k2 * 5 <= hi + (5 # 2).
Proof.
  intros Hlo Hhi Hle.
  exists (Qfloor (lo / 5 + (1 # 2))), (Qfloor (hi / 5 + (1 # 2))).
  unfold Enhanced.generateIronCondor. cbn [strikes].
  rewrite Hlo, Hhi, !round5_fin. cbn [Js.sub Js.add fsub fadd QField].
  split; [reflexivity|].
  split; [apply round5_mono; exact Hle|].
  split; apply round5_near.
Qed.

Lemma generateIronCondor_strikes_witness :
  exists k1 k2 : Z,
    strikes (Enhanced.generateIronCondor (sample_params 65 bullish 7)) =
    [("putBuy"%string, Fin (inject_Z k1 * 5 - 10));
     ("putSell"%string, Fin (inject_Z k1 * 5));
     ("callSell"%string, Fin (inject_Z k2 * 5));
     ("callBuy"%string, Fin (inject_Z k2 * 5 + 10))] /\
    (k1 <= k2)%Z.
Proof.
  destruct (generateIronCondor_strikes (sample_params 65 bullish 7)
              238.36 262.64 eq_refl eq_refl) as (k1 & k2 & H & Hk & _).
  - discriminate.
  - exists k1, k2. split; assumption.
Defined.

Lemma floor_at_least (y : Q) (k : Z) : inject_Z k <= y -> (k <= Qfloor y)%Z.
Proof.
  intros H. rewrite <- (Qfloor_Z k). apply Qfloor_resp_le. exact H.
Qed.

Lemma floor_at_most (y : Q) (k : Z) :
  y < inject_Z k + 1 -> (Qfloor y <= k)%Z.
Proof.
  intros H. apply Z.lt_succ_r. rewrite Zlt_Qlt.
  apply Qle_lt_trans with y; [apply Qfloor_le|].
  unfold Z.succ. rewrite inject_Z_plus. exact H.
Qed.

(** The rounded percentage of two rounded amounts, when the exact ratio is
    known to lie in a window. *)
Lemma rounded_return (A B : Q) (L H : Z) :
  1 <= B -> (1 <= L)%Z -> (L <= H)%Z ->
  (inject_Z L - (1 # 2)) * (B + (1 # 2)) <= 100 * (A - (1 # 2)) ->
  100 * (A + (1 # 2)) < (inject_Z H + (1 # 2)) * (B - (1 # 2)) ->
  exists m d r : Z,
    Js.round (Fin A) = Fin (inject_Z m) /\
    Js.round (Fin B) = Fin (inject_Z d) /\
    Js.round (Fin (inject_Z m) / Fin (inject_Z d) * Fin 100)%js
    = Fin (inject_Z r) /\
    A - (1 # 2) < inject_Z m <= A + (1 # 2) /\
    B - (1 # 2) < inject_Z d <= B + (1 # 2) /\
    (L <= r <= H)%Z.
Proof.
  intros HB HL HLH Hlo Hhi.
  exists (Qfloor (A + (1 # 2))), (Qfloor (B + (1 # 2))).
  pose proof (round_bounds A) as [Am AM].
  pose proof (round_bounds B) as [Bm BM].
  set (M := inject_Z (Qfloor (A + (1 # 2)))) in *.
  set (D := inject_Z (Qfloor (B + (1 # 2)))) in *.
  assert (HD : 0 < D) by qlra.
  rewrite !round_fin. fold M D.
  rewrite Qdiv_fin by qlra. cbn [Js.mul fmul QField]. rewrite round_fin.
  eexists. split; [reflexivity|]. split; [reflexivity|].
  split; [reflexivity|]. split; [split; assumption|].
  split; [split; assumption|].
  assert (HLq : 1 <= inject_Z L)
    by (change 1 with (inject_Z 1); rewrite <- Zle_Qle; exact HL).
  assert (HHq : inject_Z L <= inject_Z H)
    by (rewrite <- Zle_Qle; exact HLH).
  set (l := inject_Z L) in *. set (h := inject_Z H) in *.
  split.
  - apply floor_at_least. fold l.
    assert (Hq : (l - (1 # 2)) / 100 <= M / D).
    { apply Qle_shift_div_l; [exact HD|].
      assert (E : (l - (1 # 2)) / 100 * 100 == l - (1 # 2)) by field.
      set (c := (l - (1 # 2)) / 100) in *.
      assert (0 <= c) by qlra.
      assert (c * 100 * (B + (1 # 2)) <= 100 * (A - (1 # 2)))
        by (rewrite E; exact Hlo).
      qnra. }
    assert (E : (l - (1 # 2)) / 100 * 100 == l - (1 # 2)) by field.
    set (c := (l - (1 # 2)) / 100) in *. set (q := M / D) in *. qlra.
  - apply floor_at_most. fold h.
    assert (Hq : M / D < (h + (1 # 2)) / 100).
    { apply Qlt_shift_div_r; [exact HD|].
      assert (E : (h + (1 # 2)) / 100 * 100 == h + (1 # 2)) by field.
      set (c := (h + (1 # 2)) / 100) in *.
      assert (0 < c) by qlra.
      assert (100 * (A + (1 # 2)) < c * 100 * (B - (1 # 2)))
        by (rewrite E; exact Hhi).
      qnra. }
    assert (E : (h + (1 # 2)) / 100 * 100 == h + (1 # 2)) by field.
    set (c := (h + (1 # 2)) / 100) in *. set (q := M / D) in *. qlra.
Qed.

(** X14.  In the buyer strategies of the estimated engine the floor of 150
    holds for the maximal profit, not for the debit paid.  With a positive
    price and volatility, the calendar and the diagonal spread have a
    maximal profit of at least 150 and a net debit of at least 100, and
    their return on capital does not depend on the market: it is 149, 150
    or 151 for the calendar spread and 139, 140 or 141 for the diagonal
    spread.  The butterfly has a maximal profit of at least 150 while its
    debit per contract stays below 1000. *)
Theorem buyer_strategies_return (params : Enhanced.Params) (p v : Q) :
  Enhanced.currentPrice params = Fin p ->
  Enhanced.atmIV params = Fin v ->
  0 < p -> 0 < v ->
  (exists mp nd r : Z,
      maxProfit (Enhanced.generateCalendarSpread params)
      = Some (Fin (inject_Z mp)) /\
      netDebit (Enhanced.generateCalendarSpread params)
      = Some (Fin (inject_Z nd)) /\
      roc (Enhanced.generateCalendarSpread params) = Fin (inject_Z r) /\
      (150 <= mp)%Z /\ (100 <= nd)%Z /\ (149 <= r <= 151)%Z) /\
  (exists mp nd r : Z,
      maxProfit (Enhanced.generateDiagonalSpread params)
      = Some (Fin (inject_Z mp)) /\
      netDebit (Enhanced.generateDiagonalSpread params)
      = Some (Fin (inject_Z nd)) /\
      roc (Enhanced.generateDiagonalSpread params) = Fin (inject_Z r) /\
      (150 <= mp)%Z /\ (100 <= nd)%Z /\ (139 <= r <= 141)%Z) /\
  (v * p * 0.012 < 1000 ->
   exists (x : Q) (mp : Z),
     maxProfit (Enhanced.generateButterfly params) = Some (Fin x) /\
     x == inject_Z mp /\ (150 <= mp)%Z).
Proof.
  intros Hp Hv Hp0 Hv0.
  assert (Hvp : 0 < v * p) by qnra.
  assert (Hint : forall (m : Z) (x : Q), x < inject_Z m + (1 # 2) ->
                   forall k : Z, inject_Z k <= x + (1 # 2) ->
                     (k <= m)%Z).
  { intros m x Hm k Hk. apply Z.lt_succ_r. rewrite Zlt_Qlt.
    unfold Z.succ. rewrite inject_Z_plus. change (inject_Z 1) with 1.
    qlra. }
  split; [|split].
  - unfold Enhanced.generateCalendarSpread.
    cbn [maxProfit netDebit roc]. rewrite Hp, Hv.
    cbn [Js.mul Js.sub fmul fsub QField].
    assert (Hc : 0 < v * p * 0.015 * 0.7) by qlra.
    destruct (ceiling_rule _ Hc) as [Hn Ht].
    rewrite Qdiv_fin by qlra. rewrite ceil_fin. cbn [Js.mul fmul QField].
    set (n := inject_Z (Qceiling (150 / (v * p * 0.015 * 0.7)))) in *.
    set (A := v * p * 0.015 * 0.7 * n) in *.
    set (B := (v * p * 0.022 - v * p * 0.015) * n).
    assert (EB : B == (2 # 3) * A) by (unfold A, B; ring).
    assert (S1 : 1 <= B) by qlra.
    assert (S2 : (inject_Z 149 - (1 # 2)) * (B + (1 # 2))
                 <= 100 * (A - (1 # 2)))
      by (change (inject_Z 149) with 149; qlra).
    assert (S3 : 100 * (A + (1 # 2))
                 < (inject_Z 151 + (1 # 2)) * (B - (1 # 2)))
      by (change (inject_Z 151) with 151; qlra).
    destruct (rounded_return A B 149 151 S1 ltac:(lia) ltac:(lia) S2 S3) as
      (m & d & r & Em & Ed & Er & [Am AM] & [Bm BM] & Hr).
    exists m, d, r. rewrite Em, Ed, Er.
    repeat split; try reflexivity; try lia.
    + apply (Hint m A); [qlra|]. change (inject_Z 150) with 150. qlra.
    + apply (Hint d B); [qlra|]. change (inject_Z 100) with 100. qlra.
  - unfold Enhanced.generateDiagonalSpread.
    cbn [maxProfit netDebit roc]. rewrite Hp, Hv.
    cbn [Js.mul Js.sub fmul fsub QField].
    assert (Hc : 0 < v * p * 0.014 * 0.6) by qlra.
    destruct (ceiling_rule _ Hc) as [Hn Ht].
    rewrite Qdiv_fin by qlra. rewrite ceil_fin. cbn [Js.mul fmul QField].
    set (n := inject_Z (Qceiling (150 / (v * p * 0.014 * 0.6)))) in *.
    set (A := v * p * 0.014 * 0.6 * n) in *.
    set (B := (v * p * 0.020 - v * p * 0.014) * n).
    assert (EB : B == (5 # 7) * A) by (unfold A, B; ring).
    assert (S1 : 1 <= B) by qlra.
    assert (S2 : (inject_Z 139 - (1 # 2)) * (B + (1 # 2))
                 <= 100 * (A - (1 # 2)))
      by (change (inject_Z 139) with 139; qlra).
    assert (S3 : 100 * (A + (1 # 2))
                 < (inject_Z 141 + (1 # 2)) * (B - (1 # 2)))
      by (change (inject_Z 141) with 141; qlra).
    destruct (rounded_return A B 139 141 S1 ltac:(lia) ltac:(lia) S2 S3) as
      (m & d & r & Em & Ed & Er & [Am AM] & [Bm BM] & Hr).
    exists m, d, r. rewrite Em, Ed, Er.
    repeat split; try reflexivity; try lia.
    + apply (Hint m A); [qlra|]. change (inject_Z 150) with 150. qlra.
    + apply (Hint d B); [qlra|]. change (inject_Z 100) with 100. qlra.
  - intros Hd. unfold Enhanced.generateButterfly. cbn [maxProfit].
    rewrite Hp, Hv. cbn [Js.mul Js.sub fmul fsub QField].
    assert (Hw : 0 < 10 * 100 - v * p * 0.012) by qlra.
    destruct (ceiling_rule _ Hw) as [Hn Ht].
    rewrite Qdiv_fin by qlra. rewrite ceil_fin. cbn [Js.mul fmul QField].
    rewrite round_fin. cbn [Js.sub fsub QField].
    set (n := Qceiling (150 / (10 * 100 - v * p * 0.012))) in *.
    set (nd := Qfloor (v * p * 0.012 * inject_Z n + (1 # 2))).
    exists (10 * 100 * inject_Z n - inject_Z nd), (10 * 100 * n - nd)%Z.
    split; [reflexivity|]. split.
    + unfold Z.sub, Qminus.
      rewrite inject_Z_plus, inject_Z_opp, !inject_Z_mult. reflexivity.
    + pose proof (round_bounds (v * p * 0.012 * inject_Z n)) as [_ HM].
      fold nd in HM.
      assert (Hq : 150 - (1 # 2) <= inject_Z (10 * 100 * n - nd)).
      { unfold Z.sub.
        rewrite inject_Z_plus, inject_Z_opp, !inject_Z_mult.
        change (inject_Z 10) with 10. change (inject_Z 100) with 100.
        forget_inject. qlra. }
      apply Z.lt_pred_le. rewrite Zlt_Qlt.
      change (inject_Z (Z.pred 150)) with 149.
      generalize dependent (inject_Z (10 * 100 * n - nd)). intros. qlra.
Qed.

Lemma buyer_strategies_return_witness :
  exists r : Z,
    roc (Enhanced.generateCalendarSpread (sample_params 65 bullish 7))
    = Fin (inject_Z r) /\ (149 <= r <= 151)%Z.
Proof.
  destruct (buyer_strategies_return (sample_params 65 bullish 7) 250.5 0.35
              eq_refl eq_refl) as ((mp & nd & r & _ & _ & Hr & _ & _ & Hw) & _).
  - reflexivity.
  - reflexivity.
  - exists r. split; assumption.
Defined.

(** The maximal risk and the return of a credit generator with a wing of
    10, on a credit per contract [c]. *)
Lemma credit_risk (c : Q) :
  0 < c ->
  exists (n N : Z) (q : Q),
    Js.ceil (Fin 150 / Fin c)%js = Fin (inject_Z n) /\
    Js.round (Fin c * Fin (inject_Z n))%js = Fin (inject_Z N) /\
    (Fin 10 * Fin 100 * Fin (inject_Z n) - Fin (inject_Z N))%js = Fin q /\
    q == inject_Z (1000 * n - N) /\
    (1 <= n)%Z /\ (150 <= N)%Z /\
    (c <= 999 -> (0 < 1000 * n - N)%Z) /\
    (1000 <= c -> (1000 * n - N <= 0)%Z) /\
    ((0 < 1000 * n - N)%Z ->
     exists r : Z,
       Js.round (Fin (inject_Z N) / Fin q * Fin 100)%js = Fin (inject_Z r)
       /\ (0 <= r)%Z) /\
    ((1000 * n - N = 0)%Z ->
     Js.round (Fin (inject_Z N) / Fin q * Fin 100)%js = PInf) /\
    ((1000 * n - N < 0)%Z ->
     exists r : Z,
       Js.round (Fin (inject_Z N) / Fin q * Fin 100)%js = Fin (inject_Z r)
       /\ (r <= 0)%Z).
Proof.
  intros Hc. destruct (ceiling_rule c Hc) as [Hn Ht].
  rewrite Qdiv_fin by qlra. rewrite ceil_fin.
  set (n := Qceiling (150 / c)) in *.
  pose proof (Qceiling_lt (150 / c)) as Hup. fold n in Hup.
  assert (Hup' : c * (inject_Z n - 1) < 150).
  { unfold Z.sub in Hup. rewrite inject_Z_plus, inject_Z_opp in Hup.
    change (inject_Z 1) with 1 in Hup.
    assert (E : 150 / c * c == 150) by (field; qlra).
    set (x := 150 / c) in *. set (nq := inject_Z n) in *. qnra. }
  set (N := Qfloor (c * inject_Z n + (1 # 2))).
  pose proof (round_bounds (c * inject_Z n)) as [Nlo Nhi]. fold N in Nlo, Nhi.
  assert (HN : (150 <= N)%Z) by (apply round_at_least; exact Ht).
  exists n, N, (10 * 100 * inject_Z n - inject_Z N).
  cbn [Js.mul fmul QField]. rewrite (round_fin (c * inject_Z n)). fold N.
  cbn [Js.sub fsub QField].
  assert (Eq : 10 * 100 * inject_Z n - inject_Z N
               == inject_Z (1000 * n - N)).
  { unfold Z.sub, Qminus.
    rewrite inject_Z_plus, inject_Z_opp, inject_Z_mult.
    change (inject_Z 1000) with 1000. ring. }
  assert (Hn1 : 1 <= inject_Z n)
    by (change 1 with (inject_Z 1); rewrite <- Zle_Qle; exact Hn).
  assert (HNq : 150 <= inject_Z N)
    by (change 150 with (inject_Z 150); rewrite <- Zle_Qle; exact HN).
  assert (Sign : forall P : Q -> Prop,
             (Z.lt 0 (1000 * n - N) <-> 0 < inject_Z (1000 * n - N)) /\
             (Z.lt (1000 * n - N) 0 <-> inject_Z (1000 * n - N) < 0) /\
             ((1000 * n - N = 0)%Z <-> inject_Z (1000 * n - N) == 0)).
  { intros _. change 0 with (inject_Z 0). rewrite <- !Zlt_Qlt.
    rewrite inject_Z_injective. tauto. }
  destruct (Sign (fun _ => True)) as (Spos & Sneg & Szero). clear Sign.
  set (q := 10 * 100 * inject_Z n - inject_Z N) in *.
  set (d := inject_Z (1000 * n - N)) in *.
  do 6 (split; [first [reflexivity | assumption]|]).
  split; [|split; [|split; [|split]]].
  - intros Hsmall. apply Spos. rewrite <- Eq. unfold q.
    set (nq := inject_Z n) in *. set (Nq := inject_Z N) in *. qnra.
  - intros Hbig.
    assert (Hn' : (n <= 1)%Z).
    { apply Znot_gt_le. intros Hgt.
      assert (2 <= inject_Z n)
        by (change 2 with (inject_Z 2); rewrite <- Zle_Qle; lia).
      set (nq := inject_Z n) in *. qnra. }
    assert (En : n = 1%Z) by lia.
    assert (HNbig : (1000 <= N)%Z).
    { apply floor_at_least. rewrite En.
      change (inject_Z 1000) with 1000. change (inject_Z 1) with 1. qlra. }
    lia.
  - intros Hpos. apply Spos in Hpos. rewrite <- Eq in Hpos.
    rewrite Qdiv_fin by qlra. cbn [Js.mul fmul QField]. rewrite round_fin.
    eexists. split; [reflexivity|]. apply floor_at_least.
    change (inject_Z 0) with 0.
    assert (E : inject_Z N / q * q == inject_Z N) by (field; qlra).
    set (x := inject_Z N / q) in *. set (Nq := inject_Z N) in *. qnra.
  - intros Hz. apply Szero in Hz. rewrite <- Eq in Hz.
    cbn [Js.div]. rewrite (proj2 (Qsgn_Eq q) Hz).
    rewrite Qsgn_pos by qlra. reflexivity.
  - intros Hneg. apply Sneg in Hneg. rewrite <- Eq in Hneg.
    rewrite Qdiv_fin by qlra. cbn [Js.mul fmul QField]. rewrite round_fin.
    eexists. split; [reflexivity|]. apply floor_at_most.
    change (inject_Z 0) with 0.
    assert (E : inject_Z N / q * q == inject_Z N) by (field; qlra).
    set (x := inject_Z N / q) in *. set (Nq := inject_Z N) in *. qnra.
Qed.

(** X28.  The risk of the two credit spreads of the estimated engine, the
    iron condor and the vertical spread, with a positive price and
    volatility: the contracts and the net credit are integers of at least 1
    and 150, and the maximal risk is [1000 * contracts - netCredit].  It is
    positive while the credit per contract is at most 999, and not positive
    from a credit of 1000 on.  At a positive maximal risk the return on
    capital is an integer that is not negative; at a maximal risk of zero
    it is [Infinity], and at a negative one an integer that is not
    positive. *)
Theorem credit_generators_risk (params : Enhanced.Params) (p v : Q) :
  Enhanced.currentPrice params = Fin p ->
  Enhanced.atmIV params = Fin v ->
  0 < p -> 0 < v ->
  risk_profile (v * p * 0.025) (Enhanced.generateIronCondor params) /\
  risk_profile (v * p * 0.018) (Enhanced.generateVerticalSpread params).
Proof.
  intros Hp Hv Hp0 Hv0.
  assert (Hvp : 0 < v * p) by qnra.
  split.
  - assert (Hc : 0 < v * p * 0.025) by qlra.
    destruct (credit_risk _ Hc)
      as (n & N & q & E1 & E2 & E3 & Eq & Hn & HN & Hpos & Hnp & R1 & R2
          & R3).
    unfold risk_profile, Enhanced.generateIronCondor.
    cbn [contracts netCredit maxRisk roc]. rewrite Hp, Hv.
    cbn [Js.mul fmul QField]. rewrite E1.
    cbn [Js.mul fmul QField] in E2, E3. rewrite E2, E3.
    exists n, N, q. repeat split; try assumption; tauto.
  - assert (Hc : 0 < v * p * 0.018) by qlra.
    destruct (credit_risk _ Hc)
      as (n & N & q & E1 & E2 & E3 & Eq & Hn & HN & Hpos & Hnp & R1 & R2
          & R3).
    unfold risk_profile, Enhanced.generateVerticalSpread.
    cbn [contracts netCredit maxRisk roc]. rewrite Hp, Hv.
    cbn [Js.mul fmul QField]. rewrite E1.
    cbn [Js.mul fmul QField] in E2, E3. rewrite E2, E3.
    exists n, N, q. repeat split; try assumption; tauto.
Qed.

Lemma credit_generators_risk_witness :
  risk_profile (0.35 * 250.5 * 0.025)
    (Enhanced.generateIronCondor (sample_params 65 bullish 7)).
Proof.
  apply (credit_generators_risk (sample_params 65 bullish 7) 250.5 0.35
           eq_refl eq_refl);
    reflexivity.
Defined.

End EngineMore.

(* ================================================================== *)
(** ** Further facts about the scoring system and the summary          *)
(* ================================================================== *)

Section ScoringMore.

Import EngineSpec LibSpec.
Local Open Scope Q_scope.

Ltac qlra := Lqa.lra.
Ltac qnra := Lqa.nra.

Lemma score_in_0_100_finite (s : Strategy) :
  score_in_0_100 s -> finite_score s.
Proof.
  intros (z & Hz & _). unfold finite_score. rewrite Hz.
  eexists. reflexivity.
Qed.

(** X15.  On candidates with a finite win rate, a return on capital other
    than [NaN] and a finite technical score, [scoreAndRankStrategies]
    returns every candidate once, scored with an integer between 0 and 100,
    in descending order of the score, candidates of equal score in their
    order of arrival.  It cuts nothing and writes neither rank nor
    medal. *)
Theorem scoreAndRankStrategies_sorted (strategies : list Strategy)
  (marketData : ScoringSystem.Context) :
  Forall (fun s => valid_for_score s marketData) strategies ->
  let out := ScoringSystem.scoreAndRankStrategies strategies marketData in
  stable_descending
    (map (fun s => ScoringSystem.scored s marketData) strategies) out /\
  List.length out = List.length strategies /\
  Forall score_in_0_100 out /\
  Permutation (map rank out) (map rank strategies) /\
  Permutation (map medal out) (map medal strategies).
Proof.
  intros Hv. cbv zeta. unfold ScoringSystem.scoreAndRankStrategies.
  set (l := map (fun s => ScoringSystem.scored s marketData) strategies).
  assert (H100 : Forall score_in_0_100 l).
  { apply Forall_map. eapply Forall_impl; [|exact Hv].
    cbv beta. intros s Hs. apply scored_score_in_0_100. exact Hs. }
  assert (Hfin : Forall finite_score l).
  { eapply Forall_impl; [|exact H100]. apply score_in_0_100_finite. }
  pose proof (sort_perm Ranker.comparator l) as P.
  split; [apply sort_stable_descending; exact Hfin|].
  split; [rewrite sort_length; unfold l; apply length_map|].
  split.
  { rewrite Forall_forall in *. intros s Hs. apply H100.
    apply (Permutation_in s P). exact Hs. }
  split.
  - rewrite (Permutation_map rank P). unfold l. rewrite map_map.
    reflexivity.
  - rewrite (Permutation_map medal P). unfold l. rewrite map_map.
    reflexivity.
Qed.

Lemma scoreAndRankStrategies_sorted_witness :
  List.length
    (ScoringSystem.scoreAndRankStrategies
       [sample_scored iron_condor 0; sample_scored butterfly 0]
       sample_context) = 2%nat.
Proof.
  apply (scoreAndRankStrategies_sorted
           [sample_scored iron_condor 0; sample_scored butterfly 0]
           sample_context).
  repeat (apply Forall_cons || apply Forall_nil);
    (split; [eexists; reflexivity|]); (split; [reflexivity|]);
    eexists; reflexivity.
Defined.

Lemma min_20 (x : Q) :
  0 <= x ->
  exists y, Js.min (Fin x) (Fin 20) = Fin y /\ 0 <= y <= 20.
Proof.
  intros Hx. unfold Js.min. destruct (Js.ltb (Fin 20) (Fin x)) eqn:E.
  - exists 20. split; [reflexivity | qlra].
  - apply Qltb_fin_false in E. exists x. split; [reflexivity | qlra].
Qed.

Lemma calculateIVRScore_values (s : Strategy) (r : IvRank.t) :
  exists y, ScoringSystem.calculateIVRScore s r = Fin y /\ 4 <= y <= 15.
Proof.
  unfold ScoringSystem.calculateIVRScore.
  repeat match goal with |- context [if ?b then _ else _] => destruct b end;
    eexists; (split; [reflexivity | qlra]).
Qed.

Lemma calculateGEXScore_values (s : Strategy) (g : option Gex.t) :
  exists y, ScoringSystem.calculateGEXScore s g = Fin y /\ 5 <= y <= 10.
Proof.
  unfold ScoringSystem.calculateGEXScore.
  destruct g as [g|]; [|eexists; split; [reflexivity | qlra]].
  destruct (Gex.gamma_environment g) as [[| |]|];
    destruct (ScoringSystem.is_seller_type (type s));
    eexists; (split; [reflexivity | qlra]).
Qed.

(** X16.  For a win rate and a technical score between 0 and 100 and a
    return on capital that is finite and not negative, the sum of
    [calculateStrategyScore] lies between 14 and 100 by itself: the clamp
    to [[0, 100]] changes nothing. *)
Theorem calculateStrategyScore_unclamped (strategy : Strategy)
  (context : ScoringSystem.Context) (w r t : Q) :
  winRate strategy = Fin w -> roc strategy = Fin r ->
  Ta.score (ScoringSystem.taScore context) = Fin t ->
  0 <= w <= 100 -> 0 <= r -> 0 <= t <= 100 ->
  exists x y : Q,
    ScoringSystem.rawScore strategy context = Fin x /\
    14 <= x <= 100 /\
    ScoringSystem.calculateStrategyScore strategy context = Fin y /\
    y == x.
Proof.
  intros Hw Hr Ht Bw Br Bt.
  assert (Raw : exists x,
             ScoringSystem.rawScore strategy context = Fin x /\
             14 <= x <= 100).
  { unfold ScoringSystem.rawScore. rewrite Hw, Hr, Ht.
    rewrite !Qdiv_fin by (intros K; discriminate K).
    cbn [Js.mul fmul QField].
    assert (E50 : r / 50 * 50 == r) by field.
    assert (Ew : w / 100 * 100 == w) by field.
    assert (Et : t / 100 * 100 == t) by field.
    destruct (min_20 (r / 50 * 20)) as (y1 & -> & B1);
      [set (q := r / 50) in *; qlra|].
    destruct (calculateIVRScore_values strategy
                (ScoringSystem.ivRank context)) as (y2 & -> & B2).
    destruct (calculateGEXScore_values strategy
                (ScoringSystem.gexData context)) as (y3 & -> & B3).
    cbn [Js.add fadd QField].
    set (qw := w / 100) in *. set (qt := t / 100) in *.
    destruct (ScoringSystem.hasEarningsNear context);
      cbn [Js.sub fsub QField]; eexists; (split; [reflexivity|]); qlra. }
  destruct Raw as (x & Ex & Bx).
  unfold ScoringSystem.calculateStrategyScore. rewrite Ex.
  destruct (clamp_bounded (Fin x) I) as (y & Ey & _ & Hy).
  exists x, y. split; [reflexivity|]. split; [exact Bx|].
  split; [exact Ey|].
  rewrite Hy. unfold clamp100.
  rewrite Q.min_r by qlra. rewrite Q.max_r by qlra. reflexivity.
Qed.

Lemma calculateStrategyScore_unclamped_witness :
  exists x y : Q,
    ScoringSystem.rawScore (sample_scored iron_condor 0) sample_context
    = Fin x /\
    ScoringSystem.calculateStrategyScore (sample_scored iron_condor 0)
      sample_context = Fin y /\ y == x.
Proof.
  destruct (calculateStrategyScore_unclamped (sample_scored iron_condor 0)
              sample_context 70 18 65 eq_refl eq_refl eq_refl)
    as (x & y & Hx & _ & Hy & E).
  - split; discriminate.
  - discriminate.
  - split; discriminate.
  - exists x, y. repeat split; assumption.
Defined.

(** X17.  A recommendation of the ranker, summarised at its own rank, keeps
    its rank and its medal: [generateRecommendationSummary] draws the medal
    of a rank from the list the ranker uses.  At a rank of 0, or above 3, it
    gives the chart marker. *)
Theorem generateRecommendationSummary_agrees (l : list Strategy) :
  Forall
    (fun a => exists i,
                rank a = Some (S i) /\
                Summary.generateRecommendationSummary a (S i) = a)
    (Ranker.rank_top3 l) /\
  (forall s, medal (Summary.generateRecommendationSummary s 0) = Some chart)
  /\
  (forall s n, (3 < n)%nat ->
     medal (Summary.generateRecommendationSummary s n) = Some chart).
Proof.
  split; [|split].
  - apply Forall_forall. intros a Ha.
    apply In_nth_error in Ha. destruct Ha as [i Hi].
    unfold Ranker.rank_top3, Ranker.slice3 in Hi.
    apply nth_error_firstn_Some in Hi. destruct Hi as [_ Hi].
    rewrite assign_from_nth in Hi. cbn [Nat.add] in Hi.
    destruct (nth_error (Ranker.sort Ranker.comparator l) i) as [s|];
      [|discriminate].
    cbn [option_map] in Hi. injection Hi as <-.
    exists i. split; reflexivity.
  - reflexivity.
  - intros s n Hn. unfold Summary.generateRecommendationSummary.
    cbn [medal set_rank]. f_equal.
    destruct n as [|[|[|[|[|n]]]]]; try lia; reflexivity.
Qed.

End ScoringMore.

(* ================================================================== *)
(** ** Further facts about the real-price engine                       *)
(* ================================================================== *)

Section RealPriceMore.

Import EngineSpec LibSpec.
Local Open Scope Q_scope.

Ltac qlra := Lqa.lra.
Ltac qnra := Lqa.nra.

Lemma max_1_count (n : Z) :
  (1 <= n)%Z -> Js.max (Fin 1) (Fin (inject_Z n)) = Fin (inject_Z n).
Proof.
  intros Hn. unfold Js.max.
  destruct (Js.ltb (Fin 1) (Fin (inject_Z n))) eqn:E; [reflexivity|].
  apply Qltb_fin_false in E. change 1 with (inject_Z 1) in E.
  rewrite <- Zle_Qle in E. replace n with 1%Z by lia. reflexivity.
Qed.

Lemma max_1_nonpositive (x : Q) : x <= 1 -> Js.max (Fin 1) (Fin x) = Fin 1.
Proof.
  intros Hx. unfold Js.max.
  destruct (Js.ltb (Fin 1) (Fin x)) eqn:E; [|reflexivity].
  apply Qltb_fin in E. qlra.
Qed.

(** The sizing of a real-price block on a credit per contract [c]. *)
Lemma real_sizing (c : Q) :
  let contracts := Js.max (Fin 1) (Js.ceil (Fin 150 / Fin c)%js) in
  let netCredit := Js.round (Fin c * contracts)%js in
  (0 < c -> sized_by c contracts (Some netCredit)) /\
  (c == 0 -> contracts = PInf /\ netCredit = NaN) /\
  (c < 0 ->
   contracts = Fin 1 /\
   exists z : Z, netCredit = Fin (inject_Z z) /\ (z <= 0)%Z).
Proof.
  cbv zeta. split; [|split].
  - intros Hc.
    destruct (credit_sized c Hc) as ((n & En & H1 & Hlo & Hup) & Hm).
    rewrite En in *. rewrite (max_1_count n H1).
    split; [exists n; repeat split; assumption | exact Hm].
  - intros Hc. cbn [Js.div].
    rewrite (proj2 (Qsgn_Eq c) Hc). change (sgn 150) with Gt.
    cbn [inf_of Js.ceil Js.max Js.ltb Js.compare Js.mul].
    rewrite (proj2 (Qsgn_Eq c) Hc). split; reflexivity.
  - intros Hc. rewrite Qdiv_fin by qlra. rewrite ceil_fin.
    assert (Hq : 150 / c < 0).
    { assert (E : 150 / c * c == 150) by (field; qlra).
      set (q := 150 / c) in *. qnra. }
    assert (Hn : (Qceiling (150 / c) <= 0)%Z).
    { unfold Qceiling.
      assert (0 <= Qfloor (- (150 / c)))%Z; [|lia].
      rewrite <- (Qfloor_Z 0). apply Qfloor_resp_le.
      change (inject_Z 0) with 0. qlra. }
    rewrite max_1_nonpositive.
    + split; [reflexivity|]. cbn [Js.mul fmul QField]. rewrite round_fin.
      eexists. split; [reflexivity|].
      apply Z.lt_succ_r. rewrite Zlt_Qlt.
      apply Qle_lt_trans with (c * 1 + (1 # 2)); [apply Qfloor_le|].
      change (inject_Z (Z.succ 0)) with 1. qlra.
    + change 1 with (inject_Z 1). rewrite <- Zle_Qle. lia.
Qed.

Lemma closer_either (t : qnum) (c o : RealPrice.OptionQuote) :
  RealPrice.closer t c o = c \/ RealPrice.closer t c o = o.
Proof.
  unfold RealPrice.closer. cbv zeta.
  destruct (Js.ltb _ _); [right | left]; reflexivity.
Qed.

Lemma fold_closer_In (t : qnum) (rest : list RealPrice.OptionQuote) :
  forall c, fold_left (RealPrice.closer t) rest c = c \/
            In (fold_left (RealPrice.closer t) rest c) rest.
Proof.
  induction rest as [|o rest IH]; intros c; cbn [fold_left In].
  - now left.
  - destruct (IH (RealPrice.closer t c o)) as [E | H].
    + rewrite E. destruct (closer_either t c o) as [-> | ->];
        [now left | right; now left].
    + right. right. exact H.
Qed.

(** [findOptionByStrike] returns a contract of the list it searches. *)
Lemma findOptionByStrike_In (l : list RealPrice.OptionQuote) (t : qnum)
  (o : RealPrice.OptionQuote) :
  RealPrice.findOptionByStrike l t = Some o -> In o l.
Proof.
  destruct l as [|c rest]; cbn [RealPrice.findOptionByStrike];
    [discriminate|].
  intros [= <-]. destruct (fold_closer_In t rest c) as [-> | H];
    [now left | now right].
Qed.

Lemma add_nan_r (a : qnum) : (a + NaN)%js = NaN.
Proof. destruct a; reflexivity. Qed.

Lemma calcScore_nan (s : Strategy) (ivr : IvRank.t) (ta : Ta.t)
  (gex : Gex.t) :
  roc s = NaN -> RealPrice.calcScore s ivr ta gex = NaN.
Proof.
  intros H. unfold RealPrice.calcScore. rewrite H. cbv zeta.
  cbn [Js.div Js.mul Js.min]. rewrite add_nan_r. reflexivity.
Qed.

(** X18.  [calcScore] of the real-price engine returns an integer between
    0 and 100 for a candidate with a finite win rate and a return on
    capital other than [NaN], at a finite technical score; for a return on
    capital of [NaN] it returns [NaN]. *)
Theorem calcScore_range (s : Strategy) (ivr : IvRank.t) (ta : Ta.t)
  (gex : Gex.t) :
  (scorable s -> is_finite (Ta.score ta) ->
   exists z : Z,
     RealPrice.calcScore s ivr ta gex = Fin (inject_Z z) /\
     (0 <= z <= 100)%Z) /\
  (roc s = NaN -> RealPrice.calcScore s ivr ta gex = NaN).
Proof.
  split; [|apply calcScore_nan].
  intros [[w Hw] Hroc] [t Ht]. unfold RealPrice.calcScore.
  rewrite Hw, Ht.
  pose proof (rocScore_bounded (roc s) Hroc) as Hr.
  match goal with
  | |- exists z, Js.round (Js.max _ (Js.min _ ?raw)) = _ /\ _ =>
      assert (Hb : bounded_above raw)
  end.
  { repeat match goal with
           | |- context [if ?b then _ else _] => destruct b
           | |- context [match ?x with _ => _ end] => destruct x
           end;
      repeat apply bounded_add; try exact I; exact Hr. }
  destruct (clamp_bounded _ Hb) as (x & -> & Hrange & _).
  exists (Qfloor (x + (1 # 2))). split; [reflexivity|].
  apply round_range. exact Hrange.
Qed.

Lemma calcScore_range_witness :
  exists z : Z,
    RealPrice.calcScore (sample_scored iron_condor 0)
      {| IvRank.ivRank := Fin 65 |}
      {| Ta.score := Fin 65; Ta.trend := bullish |}
      {| Gex.zero_gamma := Fin 250; Gex.gamma_environment := Some positive;
         Gex.available := true |} = Fin (inject_Z z) /\
    (0 <= z <= 100)%Z.
Proof.
  apply (calcScore_range (sample_scored iron_condor 0)).
  - split; [eexists; reflexivity | reflexivity].
  - eexists. reflexivity.
Defined.

Lemma real_sized_block (c : Q) (s : Strategy) :
  contracts s = Js.max (Fin 1) (Js.ceil (Fin 150 / Fin c)%js) ->
  netCredit s = Some (Js.round (Fin c * contracts s)%js) ->
  (forall x, netCredit s = Some x ->
             roc s = Js.round (x / maxRisk s * Fin 100)%js) ->
  real_sized c s.
Proof.
  intros Hc Hn Hr. pose proof (real_sizing c) as (Pos & Zero & Neg).
  cbv zeta in *. rewrite Hc in Hn. unfold real_sized.
  rewrite Hc, Hn. split; [exact Pos|]. split;
    [|intros Hneg; destruct (Neg Hneg) as (E1 & z & E2 & Hz);
      split; [exact E1|]; exists z; rewrite E2; split;
      [reflexivity | exact Hz]].
  intros Hz. destruct (Zero Hz) as [E1 E2].
  assert (Hroc : roc s = NaN).
  { rewrite (Hr _ Hn), E2. reflexivity. }
  rewrite E2, E1. repeat split; try reflexivity; try exact Hroc.
  intros ivr ta gex. apply calcScore_nan. exact Hroc.
Qed.

(** X19.  On a chain whose contracts have finite mid prices, each candidate
    of a real-price block is sized on the credit per contract its legs
    quote, 100 times the mid of the short put for the cash-secured put, of
    the short leg less the long leg for the vertical spread, of the two
    short legs less the two long legs for the iron condor (there, for a
    credit at least a cent away from zero): by the ceiling rule, with an
    integer count of at least 1, the least that brings the credit to 150,
    and a net credit of at least 150, when that credit is positive; by one
    contract and a net credit that is not positive when it is negative; and
    when it is zero the candidate has [Infinity] contracts and [NaN] as net
    credit, return on capital and score. *)
Theorem real_blocks_sizing (params : RealPrice.Params) :
  finite_mids (RealPrice.optionsChain params) ->
  (forall s, In s (RealPrice.realCashSecuredPut params) ->
     exists o m,
       In o (RealPrice.puts (RealPrice.optionsChain params)) /\
       RealPrice.mid o = Fin m /\ real_sized (m * 100) s) /\
  (forall s, In s (RealPrice.realVerticalSpread params) ->
     exists ms mb,
       quoted (RealPrice.optionsChain params) ms /\
       quoted (RealPrice.optionsChain params) mb /\
       real_sized ((ms - mb) * 100) s) /\
  (forall s, In s (RealPrice.realIronCondor params) ->
     exists ps pb cs cb,
       quoted (RealPrice.optionsChain params) ps /\
       quoted (RealPrice.optionsChain params) pb /\
       quoted (RealPrice.optionsChain params) cs /\
       quoted (RealPrice.optionsChain params) cb /\
       (apart_from_zero ((ps - pb + cs - cb) * 100) ->
        real_sized ((ps - pb + cs - cb) * 100) s)).
Proof.
  intros [Hcalls Hputs]. rewrite Forall_forall in Hcalls, Hputs.
  assert (Fp : forall t o,
             RealPrice.findOptionByStrike
               (RealPrice.puts (RealPrice.optionsChain params)) t = Some o ->
             In o (RealPrice.puts (RealPrice.optionsChain params)) /\
             exists m, RealPrice.mid o = Fin m /\
                       quoted (RealPrice.optionsChain params) m).
  { intros t o H. apply findOptionByStrike_In in H.
    split; [exact H|]. destruct (Hputs o H) as [m Hm].
    exists m. split; [exact Hm|]. exists o. split; [|exact Hm].
    apply in_or_app. left. exact H. }
  assert (Fc : forall t o,
             RealPrice.findOptionByStrike
               (RealPrice.calls (RealPrice.optionsChain params)) t = Some o ->
             exists m, RealPrice.mid o = Fin m /\
                       quoted (RealPrice.optionsChain params) m).
  { intros t o H. apply findOptionByStrike_In in H.
    destruct (Hcalls o H) as [m Hm].
    exists m. split; [exact Hm|]. exists o. split; [|exact Hm].
    apply in_or_app. right. exact H. }
  split; [|split].
  - intros s Hs. unfold RealPrice.realCashSecuredPut in Hs. cbv zeta in Hs.
    destruct (RealPrice.findOptionByStrike _ _) as [o|] eqn:Eo;
      [|contradiction].
    destruct (Fp _ _ Eo) as (Hin & m & Hm & _).
    destruct Hs as [<- | []]. exists o, m.
    split; [exact Hin|]. split; [exact Hm|].
    rewrite Hm. cbn [Js.mul fmul QField].
    apply real_sized_block; cbn [contracts netCredit roc maxRisk];
      try reflexivity.
    intros x [= <-]. reflexivity.
  - intros s Hs. unfold RealPrice.realVerticalSpread in Hs. cbv zeta in Hs.
    destruct (Trend_eqb (Ta.trend (RealPrice.taScore params)) bullish
              || Trend_eqb (Ta.trend (RealPrice.taScore params)) neutral).
    + destruct (RealPrice.findOptionByStrike _ _) as [so|] eqn:Es;
        [|contradiction].
      destruct (RealPrice.findOptionByStrike _ _) as [bo|] eqn:Eb in Hs;
        [|contradiction].
      destruct (Fp _ _ Es) as (_ & ms & Hms & Qs).
      destruct (Fp _ _ Eb) as (_ & mb & Hmb & Qb).
      destruct Hs as [<- | []]. exists ms, mb.
      split; [exact Qs|]. split; [exact Qb|].
      rewrite Hms, Hmb. cbn [Js.sub Js.mul fsub fmul QField].
      apply real_sized_block; cbn [contracts netCredit roc maxRisk];
        try reflexivity.
      intros x [= <-]. reflexivity.
    + destruct (RealPrice.findOptionByStrike _ _) as [so|] eqn:Es;
        [|contradiction].
      destruct (RealPrice.findOptionByStrike _ _) as [bo|] eqn:Eb in Hs;
        [|contradiction].
      destruct (Fc _ _ Es) as (ms & Hms & Qs).
      destruct (Fc _ _ Eb) as (mb & Hmb & Qb).
      destruct Hs as [<- | []]. exists ms, mb.
      split; [exact Qs|]. split; [exact Qb|].
      rewrite Hms, Hmb. cbn [Js.sub Js.mul fsub fmul QField].
      apply real_sized_block; cbn [contracts netCredit roc maxRisk];
        try reflexivity.
      intros x [= <-]. reflexivity.
  - intros s Hs. unfold RealPrice.realIronCondor in Hs. cbv zeta in Hs.
    destruct (RealPrice.findOptionByStrike _ _) as [o1|] eqn:E1;
      [|contradiction].
    destruct (RealPrice.findOptionByStrike _ _) as [o2|] eqn:E2 in Hs;
      [|contradiction].
    destruct (RealPrice.findOptionByStrike _ _) as [o3|] eqn:E3 in Hs;
      [|contradiction].
    destruct (RealPrice.findOptionByStrike _ _) as [o4|] eqn:E4 in Hs;
      [|contradiction].
    destruct (Fp _ _ E1) as (_ & m1 & Hm1 & Q1).
    destruct (Fp _ _ E2) as (_ & m2 & Hm2 & Q2).
    destruct (Fc _ _ E3) as (m3 & Hm3 & Q3).
    destruct (Fc _ _ E4) as (m4 & Hm4 & Q4).
    destruct Hs as [<- | []]. exists m1, m2, m3, m4.
    do 4 (split; [assumption|]).
    rewrite Hm1, Hm2, Hm3, Hm4.
    cbn [Js.sub Js.add Js.mul fsub fadd fmul QField].
    intros _.
    apply real_sized_block; cbn [contracts netCredit roc maxRisk];
      try reflexivity.
    intros x [= <-]. reflexivity.
Qed.

Lemma real_blocks_sizing_witness :
  Forall (fun s => contracts s = PInf /\ netCredit s = Some NaN)
    (RealPrice.realCashSecuredPut
       (sample_real_params 65 bullish unquoted_chain)).
Proof.
  destruct (real_blocks_sizing (sample_real_params 65 bullish unquoted_chain))
    as (H & _).
  - split; repeat (apply Forall_cons || apply Forall_nil);
      eexists; reflexivity.
  - apply Forall_forall. intros s Hs.
    destruct (H s Hs) as (o & m & Ho & Hm & _ & Hz & _).
    destruct Ho as [<- | []]. injection Hm as <-.
    destruct (Hz ltac:(reflexivity)) as (E1 & E2 & _).
    split; assumption.
Defined.

Lemma block_lengths (params : RealPrice.Params) :
  (List.length (RealPrice.realIronCondor params) <= 1)%nat /\
  (List.length (RealPrice.realVerticalSpread params) <= 1)%nat /\
  (List.length (RealPrice.realCashSecuredPut params) <= 1)%nat.
Proof.
  unfold RealPrice.realIronCondor, RealPrice.realVerticalSpread,
    RealPrice.realCashSecuredPut. cbv zeta.
  repeat split;
    repeat match goal with
           | |- context [match ?x with _ => _ end] => destruct x
           end; cbn [List.length]; lia.
Qed.

Lemma block_types (params : RealPrice.Params) :
  Forall (fun s => type s = iron_condor) (RealPrice.realIronCondor params) /\
  Forall (fun s => type s = vertical_spread)
    (RealPrice.realVerticalSpread params) /\
  Forall (fun s => type s = cash_secured_put)
    (RealPrice.realCashSecuredPut params).
Proof.
  unfold RealPrice.realIronCondor, RealPrice.realVerticalSpread,
    RealPrice.realCashSecuredPut. cbv zeta.
  repeat split;
    repeat match goal with
           | |- context [match ?x with _ => _ end] => destruct x
           end;
    repeat (apply Forall_cons || apply Forall_nil); reflexivity.
Qed.

(** X20.  Whatever the chain, [generateStrategiesWithRealPrices] returns
    one, two or three recommendations, never none: at most one iron condor,
    one vertical spread and one cash-secured put, in the order of their
    scores' sort, each with its position as rank, the marker of that
    position, and the score [calcScore] gives it. *)
Theorem generateStrategiesWithRealPrices_shape (params : RealPrice.Params) :
  let out := RealPrice.generateStrategiesWithRealPrices params in
  (1 <= List.length out <= 3)%nat /\
  List.length out = List.length (RealPrice.candidates params) /\
  (forall i a,
      nth_error out i = Some a ->
      exists c,
        In c (RealPrice.candidates params) /\
        a = set_rank
              (set_score c
                 (RealPrice.calcScore c (RealPrice.ivRank params)
                    (RealPrice.taScore params) (RealPrice.gexData params)))
              (S i) (podium i) /\
        (type c = iron_condor \/ type c = vertical_spread
         \/ type c = cash_secured_put)).
Proof.
  cbv zeta.
  destruct (block_lengths params) as (L1 & L2 & L3).
  destruct (block_types params) as (T1 & T2 & T3).
  assert (Hc : (1 <= List.length (RealPrice.candidates params) <= 3)%nat /\
               Forall (fun c => type c = iron_condor
                                \/ type c = vertical_spread
                                \/ type c = cash_secured_put)
                      (RealPrice.candidates params)).
  { unfold RealPrice.candidates. cbv zeta.
    set (blocks := _ ++ _ ++ _).
    assert (Hl : (List.length blocks <= 3)%nat).
    { unfold blocks. rewrite !length_app.
      destruct (_ && _), (RealPrice.hasOptions params), (_ && _);
        cbn [List.length]; lia. }
    assert (Ht : Forall (fun c => type c = iron_condor
                                  \/ type c = vertical_spread
                                  \/ type c = cash_secured_put) blocks).
    { unfold blocks. clear blocks Hl. apply Forall_app; split.
      - destruct (_ && _); [|constructor].
        eapply Forall_impl; [|exact T1]. cbv beta. tauto.
      - apply Forall_app; split.
        + destruct (RealPrice.hasOptions params); [|constructor].
          eapply Forall_impl; [|exact T2]. cbv beta. tauto.
        + destruct (_ && _); [|constructor].
          eapply Forall_impl; [|exact T3]. cbv beta. tauto. }
    destruct blocks as [|c0 rest].
    - split; [cbn; lia|]. constructor; [left; reflexivity | constructor].
    - split; [cbn [List.length] in *; lia | exact Ht]. }
  destruct Hc as (Hlen & Htypes).
  unfold RealPrice.generateStrategiesWithRealPrices.
  rewrite rank_top3_length, length_map.
  split; [lia|]. split; [lia|].
  intros i a Ha. apply rank_top3_nth in Ha.
  destruct Ha as (_ & s & Hs & ->).
  apply nth_error_In in Hs.
  apply (Permutation_in s (sort_perm _ _)) in Hs.
  apply in_map_iff in Hs. destruct Hs as (c & <- & Hc).
  exists c. split; [exact Hc|]. split; [reflexivity|].
  rewrite Forall_forall in Htypes. exact (Htypes c Hc).
Qed.



Lemma closer_nan_kept (t : qnum) (c o : RealPrice.OptionQuote) :
  RealPrice.strike c = NaN \/ RealPrice.strike o = NaN \/ t = NaN ->
  RealPrice.closer t c o = c.
Proof.
  unfold RealPrice.closer. cbv zeta.
  intros [H | [H | H]]; rewrite H.
  - destruct (Js.abs (RealPrice.strike o - t)%js); reflexivity.
  - reflexivity.
  - destruct (RealPrice.strike o), (RealPrice.strike c); try reflexivity;
      cbn; destruct (sgn _); reflexivity.
Qed.

Lemma fold_closer_stuck (t : qnum) (rest : list RealPrice.OptionQuote) :
  forall c,
    RealPrice.strike c = NaN \/ t = NaN ->
    fold_left (RealPrice.closer t) rest c = c.
Proof.
  induction rest as [|o rest IH]; intros c H; cbn [fold_left];
    [reflexivity|].
  rewrite closer_nan_kept by tauto. apply IH. exact H.
Qed.

Lemma fold_closer_numeric (t : qnum) (rest : list RealPrice.OptionQuote) :
  forall c,
    fold_left (RealPrice.closer t) rest c = c \/
    RealPrice.strike (fold_left (RealPrice.closer t) rest c) <> NaN.
Proof.
  induction rest as [|o rest IH]; intros c; cbn [fold_left];
    [now left|].
  destruct (RealPrice.strike o) eqn:Eo.
  - rewrite closer_nan_kept by tauto. apply IH.
  - destruct (closer_either t c o) as [-> | ->]; [apply IH|].
    destruct (IH o) as [-> | H]; [right; congruence | right; exact H].
  - destruct (closer_either t c o) as [-> | ->]; [apply IH|].
    destruct (IH o) as [-> | H]; [right; congruence | right; exact H].
  - destruct (closer_either t c o) as [-> | ->]; [apply IH|].
    destruct (IH o) as [-> | H]; [right; congruence | right; exact H].
Qed.

(** X27.  [findOptionByStrike] and strikes that did not parse: when the
    first contract of the list has a strike of [NaN], or the target is
    [NaN], the first contract is returned whatever the others are; and a
    contract with a strike of [NaN] is never returned unless it is the
    first one. *)
Theorem findOptionByStrike_nan_strike (first : RealPrice.OptionQuote)
  (rest : list RealPrice.OptionQuote) (t : qnum) :
  (RealPrice.strike first = NaN \/ t = NaN ->
   RealPrice.findOptionByStrike (first :: rest) t = Some first) /\
  (forall o,
      RealPrice.findOptionByStrike (first :: rest) t = Some o ->
      RealPrice.strike o = NaN -> o = first).
Proof.
  cbn [RealPrice.findOptionByStrike]. split.
  - intros H. rewrite fold_closer_stuck by exact H. reflexivity.
  - intros o [= <-] Hn.
    destruct (fold_closer_numeric t rest first) as [E | H];
      [exact E | contradiction].
Qed.

End RealPriceMore.

(* ================================================================== *)
(** ** Further facts about the baseline engine                         *)
(* ================================================================== *)

Section BaselineMore.

Import Volatility Spec.
Local Open Scope R_scope.

(** The grid [roundToStrike] uses at a price. *)
Lemma roundToStrike_fin (x : R) :
  exists (k : Z) (g : R),
    Baseline.roundToStrike (Fin x) = Fin (IZR k * g) /\
    (g = 1 /\ x < 50 \/ g = 2.5 /\ 50 <= x < 100 \/
     g = 5 /\ 100 <= x < 200 \/ g = 10 /\ 200 <= x) /\
    x - g / 2 < IZR k * g <= x + g / 2.
Proof.
  unfold Baseline.roundToStrike. cbv zeta.
  assert (H : forall g : R, 0 < g ->
            exists k : Z,
              (Js.round (Fin x / Fin g) * Fin g)%js = Fin (IZR k * g) /\
              x - g / 2 < IZR k * g <= x + g / 2).
  { intros g Hg. rewrite Rdiv_fin by lra.
    cbn [Js.round Js.mul fadd fmul fofZ ffloor half fdiv RField].
    exists (Zfloor (x / g + 1 / 2)). split; [reflexivity|].
    pose proof (Zfloor_bound (x / g + 1 / 2)) as [B1 B2].
    assert (E : x / g * g = x) by (field; lra).
    set (q := x / g) in *. set (k := IZR (Zfloor (q + 1 / 2))) in *.
    split; nra. }
  destruct (Js.ltb (Fin x) (Fin 50)) eqn:E1.
  { apply Rltb_fin in E1. destruct (H 1 ltac:(lra)) as (k & Ek & Bk).
    exists k, 1. split; [exact Ek|]. split; [left; lra | exact Bk]. }
  apply Rltb_fin_false in E1.
  destruct (Js.ltb (Fin x) (Fin 100)) eqn:E2.
  { apply Rltb_fin in E2. destruct (H 2.5 ltac:(lra)) as (k & Ek & Bk).
    exists k, 2.5. split; [exact Ek|].
    split; [right; left; lra | exact Bk]. }
  apply Rltb_fin_false in E2.
  destruct (Js.ltb (Fin x) (Fin 200)) eqn:E3.
  { apply Rltb_fin in E3. destruct (H 5 ltac:(lra)) as (k & Ek & Bk).
    exists k, 5. split; [exact Ek|].
    split; [right; right; left; lra | exact Bk]. }
  apply Rltb_fin_false in E3.
  destruct (H 10 ltac:(lra)) as (k & Ek & Bk).
  exists k, 10. split; [exact Ek|].
  split; [right; right; right; lra | exact Bk].
Qed.

(** X21.  [roundToStrike] puts a finite price on the grid of its level,
    steps of 1 below 50, of 2.5 below 100, of 5 below 200 and of 10 from
    there: the result is the multiple of the step nearest to the price (a
    tie goes up), so it differs from the price by at most half a step. *)
Theorem roundToStrike_grid (x : R) :
  exists (k : Z) (g : R),
    Baseline.roundToStrike (Fin x) = Fin (IZR k * g) /\
    (g = 1 /\ x < 50 \/ g = 2.5 /\ 50 <= x < 100 \/
     g = 5 /\ 100 <= x < 200 \/ g = 10 /\ 200 <= x) /\
    x - g / 2 < IZR k * g <= x + g / 2 /\
    (forall j : Z, Rabs (IZR k * g - x) <= Rabs (IZR j * g - x)).
Proof.
  destruct (roundToStrike_fin x) as (k & g & E & Hg & B).
  exists k, g. split; [exact E|]. split; [exact Hg|]. split; [exact B|].
  assert (Hg0 : 0 < g) by (destruct Hg as [|[|[|]]]; lra).
  intros j.
  destruct (Z_lt_le_dec j k) as [Hjk | Hjk];
    [|destruct (Z.eq_dec j k) as [-> | Hne]; [lra|]].
  - assert (Hj : IZR j <= IZR k - 1).
    { rewrite <- minus_IZR. apply IZR_le. lia. }
    assert (IZR j * g <= IZR k * g - g) by nra.
    unfold Rabs. destruct (Rcase_abs _), (Rcase_abs _); lra.
  - assert (Hj : IZR k + 1 <= IZR j).
    { rewrite <- plus_IZR. apply IZR_le. lia. }
    assert (IZR k * g + g <= IZR j * g) by nra.
    unfold Rabs. destruct (Rcase_abs _), (Rcase_abs _); lra.
Qed.

(** A guarded probability is a number of [[0, 1]]; a refused one counts as
    0. *)
Lemma probability_or_zero (p v d : R) (lo hi : rnum) :
  0 < p -> 0 < v -> 0 < d ->
  exists q : R,
    Baseline.of_nullable
      (calculateProbabilityInRange (Num (Fin p)) (Num lo) (Num hi)
         (Num (Fin v)) (Num (Fin d))) = Fin q /\ 0 <= q <= 1.
Proof.
  intros Hp Hv Hd.
  destruct (truthy lo) eqn:Tl; [destruct (truthy hi) eqn:Th|].
  - rewrite calculateProbabilityInRange_value by assumption.
    eexists. split; [reflexivity|]. apply clamp01_range.
  - unfold calculateProbabilityInRange. cbn [falsy]. rewrite Th.
    cbn [negb orb]. rewrite !orb_true_r. cbn [orb].
    exists 0. split; [reflexivity | lra].
  - unfold calculateProbabilityInRange. cbn [falsy]. rewrite Tl.
    cbn [negb orb]. rewrite !orb_true_r. cbn [orb].
    exists 0. split; [reflexivity | lra].
Qed.

Lemma percent_round (q : R) :
  0 <= q <= 1 ->
  exists z : Z,
    Js.round (Fin q * Fin 100)%js = Fin (IZR z) /\ (0 <= z <= 100)%Z.
Proof.
  intros Hq. cbn [Js.mul Js.round fadd fmul fofZ ffloor half fdiv RField].
  eexists. split; [reflexivity|].
  pose proof (Zfloor_bound (q * 100 + 1 / 2)) as [B1 B2].
  split.
  - apply Zfloor_lub. lra.
  - apply Z.lt_succ_r. apply lt_IZR.
    replace (Z.succ 100) with 101%Z by reflexivity. lra.
Qed.

(** X22.  [generateStrategies] of the baseline engine fails (with the
    [TypeError] of reading the band that was refused) exactly when the
    price, the volatility or the horizon is zero or [NaN]; it never returns
    an empty list: a list it returns holds one to three candidates, the
    credit spread among them, and each is of a type the scoring system
    scores as a seller strategy. *)
Theorem generateStrategies_outcome (marketData : Baseline.MarketData) :
  (Baseline.generateStrategies marketData = None <->
   truthy (Baseline.currentPrice marketData) = false \/
   truthy (Baseline.iv marketData) = false \/
   truthy (Baseline.dte marketData) = false) /\
  (forall l,
      Baseline.generateStrategies marketData = Some l ->
      (1 <= List.length l <= 3)%nat /\
      In credit_spread (map Baseline.type l) /\
      Forall (fun s => ScoringSystem.is_seller_type (Baseline.type s) = true)
             l).
Proof.
  unfold Baseline.generateStrategies, calculateVolatilityRange.
  cbn [falsy].
  destruct (truthy (Baseline.currentPrice marketData)),
           (truthy (Baseline.iv marketData)),
           (truthy (Baseline.dte marketData));
    cbn [negb orb];
    (split;
     [split; [intros K; try discriminate K; tauto
             | intros [K | [K | K]]; try discriminate K; reflexivity]
     | intros l K; try discriminate K]).
  injection K as <-.
  destruct (Js.geb _ _),
           (negb (Trend_eqb (Ta.trend (Baseline.taScore marketData)) bearish));
    cbn [app List.length map Baseline.type Baseline.generateIronCondor
         Baseline.generateCreditSpread Baseline.generateCashSecuredPut In];
    (split; [lia|]); (split; [tauto|]);
    repeat (apply Forall_cons || apply Forall_nil); reflexivity.
Qed.

(** X23.  On a snapshot with a positive price, volatility and horizon the
    baseline engine returns its candidates: an iron condor exactly when the
    IV rank is at least 40, the credit spread, and a cash-secured put
    exactly when the trend is not bearish.  Each candidate has one, two or
    three contracts, a net credit that is an integer of at least 150 and a
    win rate that is an integer between 0 and 100. *)
Theorem baseline_recommendations (marketData : Baseline.MarketData)
  (p v d : R) :
  Baseline.currentPrice marketData = Fin p ->
  Baseline.iv marketData = Fin v ->
  Baseline.dte marketData = Fin d ->
  0 < p -> 0 < v -> 0 < d ->
  exists l,
    Baseline.generateStrategies marketData = Some l /\
    Forall
      (fun s =>
         exists n m w : Z,
           Baseline.contracts s = Fin (IZR n) /\ (1 <= n <= 3)%Z /\
           Baseline.netCredit s = Fin (IZR m) /\ (150 <= m)%Z /\
           Baseline.winRate s = Fin (IZR w) /\ (0 <= w <= 100)%Z) l /\
    (In iron_condor (map Baseline.type l) <->
     Js.geb (IvRank.ivRank (Baseline.ivRank marketData)) (Fin 40%Q) = true)
    /\
    (In cash_secured_put (map Baseline.type l) <->
     Ta.trend (Baseline.taScore marketData) <> bearish).
Proof.
  intros Hp Hv Hd Hp0 Hv0 Hd0.
  pose proof (calculateVolatilityRange_fin p v d ltac:(lra) ltac:(lra) Hd0)
    as Eb. cbv zeta in Eb.
  unfold Baseline.generateStrategies. rewrite Hp, Hv, Hd, Eb.
  match goal with
  | |- context [Baseline.generateCreditSpread marketData ?b] =>
      set (band := b)
  end.
  eexists. split; [reflexivity|].
  assert (W : forall lo hi : rnum,
             exists w : Z,
               Js.round
                 (Baseline.of_nullable
                    (calculateProbabilityInRange (Num (Fin p)) (Num lo)
                       (Num hi) (Num (Fin v)) (Num (Fin d))) * Fin 100)%js
               = Fin (IZR w) /\ (0 <= w <= 100)%Z).
  { intros lo hi.
    destruct (probability_or_zero p v d lo hi Hp0 Hv0 Hd0) as (q & -> & Hq).
    apply percent_round. exact Hq. }
  pose proof (baseline_sizing marketData band p v d Hp Hv Hd Hp0 Hv0 Hd0)
    as Hs.
  assert (G : Forall
                (fun s =>
                   exists n m w : Z,
                     Baseline.contracts s = Fin (IZR n) /\ (1 <= n <= 3)%Z /\
                     Baseline.netCredit s = Fin (IZR m) /\ (150 <= m)%Z /\
                     Baseline.winRate s = Fin (IZR w) /\ (0 <= w <= 100)%Z)
                [Baseline.generateIronCondor marketData band;
                 Baseline.generateCreditSpread marketData band;
                 Baseline.generateCashSecuredPut marketData band]).
  { inversion Hs as [|? ? (n1 & m1 & A1 & B1 & C1 & D1) Hs1]; subst.
    inversion Hs1 as [|? ? (n2 & m2 & A2 & B2 & C2 & D2) Hs2]; subst.
    inversion Hs2 as [|? ? (n3 & m3 & A3 & B3 & C3 & D3) _]; subst.
    repeat (apply Forall_cons || apply Forall_nil).
    - destruct (W (Baseline.roundToStrike
                     (lower (oneSigma band) * Fin 1.05)%js)
                  (Baseline.roundToStrike
                     (upper (oneSigma band) * Fin 0.95)%js))
        as (w & Ew & Hw).
      exists n1, m1, w. repeat split; try assumption; try lia.
      unfold Baseline.generateIronCondor. cbn [Baseline.winRate].
      rewrite Hp, Hv, Hd. exact Ew.
    - unfold Baseline.generateCreditSpread in *.
      cbn [Baseline.winRate Baseline.contracts Baseline.netCredit] in *.
      rewrite Hp, Hv, Hd in *.
      destruct (Trend_eqb (Ta.trend (Baseline.taScore marketData)) bullish).
      + destruct (W (Baseline.roundToStrike
                       (lower (oneSigma band) * Fin 1.05)%js) PInf)
          as (w & Ew & Hw).
        exists n2, m2, w. repeat split; try assumption; lia.
      + destruct (W NInf
                    (Baseline.roundToStrike
                       (upper (oneSigma band) * Fin 0.95)%js))
          as (w & Ew & Hw).
        exists n2, m2, w. repeat split; try assumption; lia.
    - destruct (W (Baseline.roundToStrike
                     (lower (oneSigma band) * Fin 1.1)%js) PInf)
        as (w & Ew & Hw).
      exists n3, m3, w. repeat split; try assumption; try lia.
      unfold Baseline.generateCashSecuredPut. cbn [Baseline.winRate].
      rewrite Hp, Hv, Hd. exact Ew. }
  inversion G as [|? ? G1 G']; subst.
  inversion G' as [|? ? G2 G'']; subst.
  inversion G'' as [|? ? G3 _]; subst.
  rewrite <- Trend_neqb.
  destruct (Js.geb _ _),
           (negb (Trend_eqb (Ta.trend (Baseline.taScore marketData)) bearish));
    cbn [app map In Baseline.type Baseline.generateIronCondor
         Baseline.generateCreditSpread Baseline.generateCashSecuredPut];
    (split; [repeat (apply Forall_cons || apply Forall_nil); assumption|]);
    split; split; intros; try reflexivity; try tauto;
    intuition (discriminate || congruence).
Qed.

Lemma baseline_recommendations_witness :
  exists l,
    Baseline.generateStrategies
      {| Baseline.currentPrice := Fin 100; Baseline.iv := Fin 0.2;
         Baseline.dte := Fin 7;
         Baseline.ivRank := {| IvRank.ivRank := Fin 65%Q |};
         Baseline.taScore := {| Ta.score := Fin 65%Q; Ta.trend := bullish |}
      |} = Some l /\
    In iron_condor (map Baseline.type l).
Proof.
  destruct (baseline_recommendations
              {| Baseline.currentPrice := Fin 100; Baseline.iv := Fin 0.2;
                 Baseline.dte := Fin 7;
                 Baseline.ivRank := {| IvRank.ivRank := Fin 65%Q |};
                 Baseline.taScore :=
                   {| Ta.score := Fin 65%Q; Ta.trend := bullish |} |}
              100 0.2 7 eq_refl eq_refl eq_refl)
    as (l & El & _ & Hic & _); try lra.
  exists l. split; [exact El|]. apply Hic. reflexivity.
Defined.

End BaselineMore.

(* ================================================================== *)
(** ** Facts about the parser of the chain                             *)
(* ================================================================== *)

Section ParserFacts.

Import EngineSpec LibSpec.
Local Open Scope Q_scope.

Ltac qlra := Lqa.lra.

Lemma byStrike_pos (x y : RealPrice.OptionQuote) :
  finite_strike x -> finite_strike y ->
  ((ChainParser.byStrike x y >? Fin 0)%js = true <->
   value_of (RealPrice.strike y) < value_of (RealPrice.strike x)).
Proof.
  intros [a Ha] [b Hb]. unfold ChainParser.byStrike. rewrite Ha, Hb.
  cbn [Js.sub fsub QField value_of]. unfold Js.gtb. rewrite Qltb_fin.
  split; intros; qlra.
Qed.

Lemma insert_ascending (x : RealPrice.OptionQuote)
  (l : list RealPrice.OptionQuote) :
  finite_strike x -> Forall finite_strike l -> ascending l ->
  ascending (JsArray.insert_by ChainParser.byStrike x l).
Proof.
  unfold ascending.
  intros Hx Hl Hs. induction l as [|y l IH]; cbn [JsArray.insert_by].
  - repeat constructor.
  - inversion Hl as [|? ? Hy Hl']; subst.
    inversion Hs as [|? ? Hs' Hhd]; subst.
    destruct (ChainParser.byStrike x y >? Fin 0)%js eqn:E.
    + apply byStrike_pos in E; [|assumption..].
      constructor; [apply IH; assumption|].
      eapply Permutation_Forall.
      * symmetry. apply insert_by_perm.
      * constructor; [qlra | exact Hhd].
    + assert (Hle : value_of (RealPrice.strike x)
                    <= value_of (RealPrice.strike y)).
      { apply Qnot_lt_le. intros Hlt.
        apply (byStrike_pos x y Hx Hy) in Hlt. congruence. }
      constructor; [exact Hs|].
      constructor; [exact Hle|].
      eapply Forall_impl; [|exact Hhd]. cbv beta. intros z Hz. qlra.
Qed.

Lemma sort_ascending (l : list RealPrice.OptionQuote) :
  Forall finite_strike l ->
  ascending (JsArray.sort_by ChainParser.byStrike l).
Proof.
  induction l as [|x l IH]; intros Hl; cbn [JsArray.sort_by fold_right].
  - constructor.
  - inversion Hl; subst. fold (JsArray.sort_by ChainParser.byStrike l).
    apply insert_ascending; [assumption | | apply IH; assumption].
    eapply Permutation_Forall; [symmetry; apply sort_by_perm | assumption].
Qed.

Lemma filter_filter (A : Type) (f g : A -> bool) (l : list A) :
  filter g (filter f l) = filter (fun x => f x && g x) l.
Proof.
  induction l as [|x l IH]; cbn [filter]; [reflexivity|].
  destruct (f x); cbn [filter andb]; [|exact IH].
  destruct (g x); rewrite IH; reflexivity.
Qed.

Lemma parse_sides (data : list ChainParser.RawOption) (targetDTE : qnum) :
  Permutation
    (RealPrice.calls (ChainParser.parseOptionsChain data targetDTE))
    (map ChainParser.optionData (kept targetDTE true data)) /\
  Permutation
    (RealPrice.puts (ChainParser.parseOptionsChain data targetDTE))
    (map ChainParser.optionData (kept targetDTE false data)).
Proof.
  unfold ChainParser.parseOptionsChain, kept. cbv zeta.
  cbn [RealPrice.calls RealPrice.puts].
  rewrite !filter_filter. split.
  - rewrite sort_by_perm.
    erewrite filter_ext; [reflexivity|].
    intros raw. cbv beta. destruct (ChainParser.is_call raw); reflexivity.
  - rewrite sort_by_perm.
    erewrite filter_ext; [reflexivity|].
    intros raw. cbv beta. destruct (ChainParser.is_call raw); reflexivity.
Qed.

(** X24.  [parseOptionsChain] keeps the contracts whose rounded days to
    expiry lie within 3 of the target and puts each of them, once, on its
    side: the calls are the kept contracts of type call, the puts all the
    others.  When the strikes parsed to finite numbers, each side is in
    ascending order of the strike. *)
Theorem parseOptionsChain_sides (data : list ChainParser.RawOption)
  (targetDTE : qnum) :
  let chain := ChainParser.parseOptionsChain data targetDTE in
  Permutation (RealPrice.calls chain)
    (map ChainParser.optionData (kept targetDTE true data)) /\
  Permutation (RealPrice.puts chain)
    (map ChainParser.optionData (kept targetDTE false data)) /\
  (List.length (RealPrice.calls chain) + List.length (RealPrice.puts chain)
   = List.length (filter (ChainParser.inWindow targetDTE) data))%nat /\
  (forall o, In o (legs chain) ->
     (Js.abs (RealPrice.daysToExp o - targetDTE) <=? Fin 3)%js = true) /\
  (Forall (fun raw => is_finite (ChainParser.strike raw)) data ->
   ascending (RealPrice.calls chain) /\ ascending (RealPrice.puts chain)).
Proof.
  cbv zeta. destruct (parse_sides data targetDTE) as [Pc Pp].
  split; [exact Pc|]. split; [exact Pp|]. split; [|split].
  - rewrite (Permutation_length Pc), (Permutation_length Pp), !length_map.
    clear Pc Pp.
    unfold kept. induction data as [|raw data IH]; cbn [filter];
      [reflexivity|].
    destruct (ChainParser.inWindow targetDTE raw); cbn [andb]; [|exact IH].
    destruct (ChainParser.is_call raw); cbn [Bool.eqb List.length];
      rewrite <- IH; lia.
  - intros o Ho. unfold legs in Ho. apply in_app_or in Ho.
    assert (K : exists call raw,
               In raw (kept targetDTE call data) /\
               o = ChainParser.optionData raw).
    { destruct Ho as [Ho | Ho].
      - apply (Permutation_in o Pp) in Ho. apply in_map_iff in Ho.
        destruct Ho as (raw & <- & Hr). exists false, raw. tauto.
      - apply (Permutation_in o Pc) in Ho. apply in_map_iff in Ho.
        destruct Ho as (raw & <- & Hr). exists true, raw. tauto. }
    destruct K as (call & raw & Hr & ->). unfold kept in Hr.
    apply filter_In in Hr. destruct Hr as [_ Hr].
    apply andb_true_iff in Hr. destruct Hr as [Hr _]. exact Hr.
  - intros Hfin. unfold ChainParser.parseOptionsChain. cbv zeta.
    cbn [RealPrice.calls RealPrice.puts].
    assert (F : forall l, incl l data ->
                  Forall finite_strike (map ChainParser.optionData l)).
    { intros l Hl. apply Forall_map. apply Forall_forall. intros raw Hraw.
      rewrite Forall_forall in Hfin. exact (Hfin raw (Hl raw Hraw)). }
    split; apply sort_ascending; apply F; intros raw Hraw;
      apply filter_In in Hraw; destruct Hraw as [Hraw _];
      apply filter_In in Hraw; tauto.
Qed.

Lemma or_zero_parsed (a : qnum) :
  parsed_number a ->
  exists x, JsArray.or_zero a = Fin x /\ x == value_of a.
Proof.
  intros [-> | [x ->]]; [exists 0; split; reflexivity|].
  unfold JsArray.or_zero. cbn [truthy value_of].
  destruct (sgn x) eqn:E.
  - apply Qsgn_Eq in E. exists 0. split; [reflexivity|]. symmetry. exact E.
  - exists x. split; reflexivity.
  - exists x. split; reflexivity.
Qed.

Lemma optionData_mid (raw : ChainParser.RawOption) :
  parsed_quotes raw ->
  exists b a m : Q,
    RealPrice.bid (ChainParser.optionData raw) = Fin b /\
    RealPrice.ask (ChainParser.optionData raw) = Fin a /\
    RealPrice.mid (ChainParser.optionData raw) = Fin m /\
    b == value_of (ChainParser.bid raw) /\
    a == value_of (ChainParser.ask raw) /\
    m == (b + a) / 2.
Proof.
  intros [Hb Ha].
  destruct (or_zero_parsed _ Hb) as (b & Eb & Hb').
  destruct (or_zero_parsed _ Ha) as (a & Ea & Ha').
  exists b, a, ((b + a) / 2).
  unfold ChainParser.optionData.
  cbn [RealPrice.bid RealPrice.ask RealPrice.mid].
  rewrite Eb, Ea. cbn [Js.add fadd QField].
  rewrite Qdiv_fin by (intros K; discriminate K).
  repeat split; try reflexivity; assumption.
Qed.

(** X25.  When the bid and the ask of every contract parsed to a finite
    number or to [NaN], every contract of the parsed chain has a finite bid,
    ask and mid price: a quote that is [NaN] (or zero) counts as 0, and the
    mid price is the mean of the two.  So a contract without quotes has a
    mid price of 0, not of [NaN]. *)
Theorem parseOptionsChain_mids (data : list ChainParser.RawOption)
  (targetDTE : qnum) :
  Forall parsed_quotes data ->
  let chain := ChainParser.parseOptionsChain data targetDTE in
  finite_mids chain /\
  (forall o, In o (legs chain) ->
     exists raw (b a m : Q),
       In raw data /\ o = ChainParser.optionData raw /\
       RealPrice.bid o = Fin b /\ RealPrice.ask o = Fin a /\
       RealPrice.mid o = Fin m /\
       b == value_of (ChainParser.bid raw) /\
       a == value_of (ChainParser.ask raw) /\
       m == (b + a) / 2 /\
       (ChainParser.bid raw = NaN -> ChainParser.ask raw = NaN -> m == 0)).
Proof.
  intros Hq. cbv zeta. rewrite Forall_forall in Hq.
  destruct (parse_sides data targetDTE) as [Pc Pp].
  assert (K : forall o,
             In o (legs (ChainParser.parseOptionsChain data targetDTE)) ->
             exists raw, In raw data /\ o = ChainParser.optionData raw).
  { intros o Ho. unfold legs in Ho. apply in_app_or in Ho.
    destruct Ho as [Ho | Ho].
    - apply (Permutation_in o Pp) in Ho. apply in_map_iff in Ho.
      destruct Ho as (raw & <- & Hr). exists raw.
      unfold kept in Hr. apply filter_In in Hr. tauto.
    - apply (Permutation_in o Pc) in Ho. apply in_map_iff in Ho.
      destruct Ho as (raw & <- & Hr). exists raw.
      unfold kept in Hr. apply filter_In in Hr. tauto. }
  assert (M : forall o,
             In o (legs (ChainParser.parseOptionsChain data targetDTE)) ->
             is_finite (RealPrice.mid o)).
  { intros o Ho. destruct (K o Ho) as (raw & Hr & ->).
    destruct (optionData_mid raw (Hq raw Hr)) as (b & a & m & _ & _ & Em & _).
    exists m. exact Em. }
  split.
  - split; apply Forall_forall; intros o Ho; apply M; unfold legs;
      apply in_or_app; [right | left]; exact Ho.
  - intros o Ho. destruct (K o Ho) as (raw & Hr & ->).
    destruct (optionData_mid raw (Hq raw Hr))
      as (b & a & m & Eb & Ea & Em & Hb & Ha & Hm).
    exists raw, b, a, m. repeat split; try assumption.
    intros Nb Na. rewrite Nb in Hb. rewrite Na in Ha.
    cbn [value_of] in Hb, Ha. rewrite Hm, Hb, Ha. reflexivity.
Qed.

Lemma parseOptionsChain_mids_witness :
  finite_mids
    (ChainParser.parseOptionsChain
       [sample_raw false 240 NaN NaN 7; sample_raw true 260 (Fin 1.2) NaN 6;
        sample_raw true 270 (Fin 0.4) (Fin 0.6) 30]
       (Fin 7)).
Proof.
  apply (parseOptionsChain_mids
           [sample_raw false 240 NaN NaN 7;
            sample_raw true 260 (Fin 1.2) NaN 6;
            sample_raw true 270 (Fin 0.4) (Fin 0.6) 30] (Fin 7)).
  repeat (apply Forall_cons || apply Forall_nil); split;
    first [left; reflexivity | right; eexists; reflexivity].
Defined.

Example parseOptionsChain_sample :
  let chain :=
    ChainParser.parseOptionsChain
      [sample_raw true 270 (Fin 0.4) (Fin 0.6) 6;
       sample_raw false 240 NaN NaN 7; sample_raw true 260 (Fin 1.2) NaN 6;
       sample_raw true 280 (Fin 0.1) (Fin 0.2) 30]
      (Fin 7) in
  map (fun o => (RealPrice.strike o, RealPrice.mid o))
      (RealPrice.calls chain)
  = [(Fin 260, Fin (12 # 20)); (Fin 270, Fin (100 # 200))] /\
  map (fun o => (RealPrice.strike o, RealPrice.mid o))
      (RealPrice.puts chain)
  = [(Fin 240, Fin (0 # 2))].
Proof. vm_compute. split; reflexivity. Qed.

End ParserFacts.
